(** * Synapse: graph merge, gesture state machine and hit test

    A shallow embedding of pieces of the application:
    - [handleGraphUpdate] of [src/App.tsx] (the merge of a batch of concepts
      and relationships into the graph),
    - the gesture branch of [predictWebcam] of [src/App.tsx],
    - the hit-test effect and the zoom/focus effect of
      [src/components/ThinkingGraph.tsx],
    and, after these, of the session functions of [src/App.tsx] (the
    transcript, the zoom buttons, saving, clearing, deleting and loading a
    session) and of the layers of [src/components/ThinkingGraph.tsx].

    JavaScript numbers are IEEE 754 binary64 values: they are embedded as
    Rocq's primitive floats, whose operations are the same ones. *)

From Stdlib Require Import Bool List String Ascii ZArith Lia.
From Stdlib Require Import Floats.
Import ListNotations.

Set Warnings "-inexact-float".
Local Open Scope string_scope.
Local Open Scope list_scope.
Local Open Scope float_scope.

(* ================================================================== *)
(** * JavaScript values used by the code *)
(* ================================================================== *)

Module Js.

(** A value that is a string or is missing: the id and the label of an entry
    of the tool call, which is untyped ([None] is [undefined]), and the focus
    and the hover, of type [string | null] ([None] is [null]). *)
Definition Str := option string.

(** Truthiness of such a value, [if (v)]: a missing value and the empty
    string are falsy. *)
Definition truthy (v : Str) : bool :=
  match v with
  | None => false
  | Some s => negb (String.eqb s EmptyString)
  end.

(** Strict equality [a === b] on strings or missing values. *)
Definition str_eqb (a b : Str) : bool :=
  match a, b with
  | None, None => true
  | Some s, Some t => String.eqb s t
  | _, _ => false
  end.

(** A value inside a template literal: a missing value prints as the word
    [undefined]. *)
Definition show (v : Str) : string :=
  match v with
  | None => "undefined"
  | Some s => s
  end.

(** [Math.min(a, b)]: NaN if either is NaN, and [-0] is below [+0]. *)
Definition Math_min (a b : float) : float :=
  if is_nan a || is_nan b then nan
  else if a <? b then a
  else if b <? a then b
  else if is_zero a && get_sign a then a else b.

(** [Math.pow(d, 2)], the square. *)
Definition Math_pow2 (d : float) : float := d * d.

(** [Math.sqrt]. *)
Definition Math_sqrt (d : float) : float := sqrt d.

End Js.

(* ================================================================== *)
(** * The JavaScript [Map], in insertion order *)
(* ================================================================== *)

(** A [Map] keeps its entries in the order of first insertion; setting a key
    that is present replaces the value where it stands. *)
Module JsMap.

Section Ops.
Context {K V : Type}.
Variable keqb : K -> K -> bool.

Definition t := list (K * V).

Fixpoint get (k : K) (m : t) : option V :=
  match m with
  | [] => None
  | (k', v) :: m' => if keqb k' k then Some v else get k m'
  end.

Definition has (k : K) (m : t) : bool :=
  match get k m with Some _ => true | None => false end.

Fixpoint set (k : K) (v : V) (m : t) : t :=
  match m with
  | [] => [(k, v)]
  | (k', v') :: m' =>
      if keqb k' k then (k', v) :: m' else (k', v') :: set k v m'
  end.

(** [new Map(entries)] *)
Definition of_entries (es : list (K * V)) : t :=
  fold_left (fun m e => set (fst e) (snd e) m) es [].

(** [Array.from(m.values())] *)
Definition values (m : t) : list V := map snd m.

Definition keys (m : t) : list K := map fst m.
End Ops.

End JsMap.

(* ================================================================== *)
(** * The graph data ([types.ts]) *)
(* ================================================================== *)

Module GraphNode.
(** [x] and [y] are the coordinates the simulation assigns; they are
    undefined until its first tick. *)
Record t := mk {
  id : Js.Str;
  label : Js.Str;
  val : float;
  x : option float;
  y : option float
}.

Definition with_val (n : t) (v : float) : t :=
  mk (id n) (label n) v (x n) (y n).
End GraphNode.

Module GraphLink.
(** An end of a link is an id, or the node object once d3's link force has
    bound it; of that object the merge reads the id only. In the code a
    bound end is the node object of the node list itself, so that a change
    of the importance of that node shows at the end of the link too; here
    the end carries the node as it was when it was bound. The id of a node
    never changes: a statement that follows a link across a call that may
    change the importance of a node the link is bound to compares the ends
    by their ids ([id_of]). *)
Inductive endpoint :=
| Id (i : Js.Str)
| Node (n : GraphNode.t).

Record t := mk {
  source : endpoint;
  target : endpoint;
  value : float
}.

Definition with_value (l : t) (v : float) : t :=
  mk (source l) (target l) v.

(** [typeof e === 'object' ? e.id : e] *)
Definition id_of (e : endpoint) : Js.Str :=
  match e with
  | Id i => i
  | Node n => GraphNode.id n
  end.
End GraphLink.

Module GraphData.
Record t := mk {
  nodes : list GraphNode.t;
  links : list GraphLink.t
}.

Definition empty : t := mk [] [].
End GraphData.

(** The argument of the [update_mind_map] tool call. *)
Module Concept.
Record t := mk {
  id : Js.Str;
  label : Js.Str;
  importance : float
}.
End Concept.

Module Relationship.
Record t := mk {
  source_id : Js.Str;
  target_id : Js.Str;
  strength : float
}.
End Relationship.

Module Update.
Record t := mk {
  concepts : option (list Concept.t);
  relationships : option (list Relationship.t)
}.
End Update.

(* ================================================================== *)
(** * [handleGraphUpdate] ([App.tsx]) *)
(* ================================================================== *)

Module GraphStore.

Import Js.

Definition NodesMap := @JsMap.t Str GraphNode.t.
Definition LinksMap := @JsMap.t string GraphLink.t.

(** The template literal [`${s}-${t}`]. *)
Definition pairKey (s t : Str) : string :=
  (show s ++ "-" ++ show t)%string.

Definition keyOfLink (l : GraphLink.t) : string :=
  pairKey (GraphLink.id_of (GraphLink.source l))
          (GraphLink.id_of (GraphLink.target l)).

Definition nodesMapOf (prev : GraphData.t) : NodesMap :=
  JsMap.of_entries str_eqb
    (map (fun n => (GraphNode.id n, n)) (GraphData.nodes prev)).

Definition linksMapOf (prev : GraphData.t) : LinksMap :=
  JsMap.of_entries String.eqb
    (map (fun l => (keyOfLink l, l)) (GraphData.links prev)).

(** The body of [update.concepts.forEach]. The assignment to [existing.val]
    changes the node where it stands in the map. *)
Definition conceptStep (currentFocus : Str)
    (st : NodesMap * LinksMap) (c : Concept.t) : NodesMap * LinksMap :=
  let (newNodesMap, newLinksMap) := st in
  match JsMap.get str_eqb (Concept.id c) newNodesMap with
  | Some existing =>
      (JsMap.set str_eqb (Concept.id c)
         (GraphNode.with_val existing
            (Math_min 20 (GraphNode.val existing + Concept.importance c * 0.5)))
         newNodesMap,
       newLinksMap)
  | None =>
      let newNodesMap :=
        JsMap.set str_eqb (Concept.id c)
          (GraphNode.mk (Concept.id c) (Concept.label c)
             (Concept.importance c) None None)
          newNodesMap in
      if truthy currentFocus && negb (str_eqb currentFocus (Concept.id c))
      then
        let linkKey := pairKey currentFocus (Concept.id c) in
        let reverseKey := pairKey (Concept.id c) currentFocus in
        if negb (JsMap.has String.eqb linkKey newLinksMap)
           && negb (JsMap.has String.eqb reverseKey newLinksMap)
        then
          (newNodesMap,
           JsMap.set String.eqb linkKey
             (GraphLink.mk (GraphLink.Id currentFocus)
                (GraphLink.Id (Concept.id c)) 3)
             newLinksMap)
        else (newNodesMap, newLinksMap)
      else (newNodesMap, newLinksMap)
  end.

(** The body of [update.relationships.forEach]. The assignment to
    [existing.value] changes the link where it stands in the map. *)
Definition relationshipStep (newNodesMap : NodesMap)
    (newLinksMap : LinksMap) (r : Relationship.t) : LinksMap :=
  let key := pairKey (Relationship.source_id r) (Relationship.target_id r) in
  let existing := JsMap.get String.eqb key newLinksMap in
  if JsMap.has str_eqb (Relationship.source_id r) newNodesMap
     && JsMap.has str_eqb (Relationship.target_id r) newNodesMap
  then
    match existing with
    | Some existing =>
        JsMap.set String.eqb key
          (GraphLink.with_value existing
             (Math_min 10
                (GraphLink.value existing + Relationship.strength r * 0.5)))
          newLinksMap
    | None =>
        JsMap.set String.eqb key
          (GraphLink.mk (GraphLink.Id (Relationship.source_id r))
             (GraphLink.Id (Relationship.target_id r))
             (Relationship.strength r))
          newLinksMap
    end
  else newLinksMap.

(** The updater passed to [setGraphData]: [currentFocus] is
    [focusedNodeIdRef.current]. *)
Definition handleGraphUpdate (currentFocus : Str) (update : Update.t)
    (prev : GraphData.t) : GraphData.t :=
  let st0 := (nodesMapOf prev, linksMapOf prev) in
  let st1 :=
    match Update.concepts update with
    | Some cs => fold_left (conceptStep currentFocus) cs st0
    | None => st0
    end in
  let newLinksMap :=
    match Update.relationships update with
    | Some rs => fold_left (relationshipStep (fst st1)) rs (snd st1)
    | None => snd st1
    end in
  GraphData.mk (JsMap.values (fst st1)) (JsMap.values newLinksMap).

(** [applyUpdate(event, context)] of the specification. *)
Definition applyUpdate (g : GraphData.t) (focusedNodeId : Str)
    (event : Update.t) : GraphData.t :=
  handleGraphUpdate focusedNodeId event g.

(** A run of calls, each with its focus: all the graphs it goes through,
    the starting one first. *)
Fixpoint graphsOf (g : GraphData.t) (calls : list (Str * Update.t))
  : list GraphData.t :=
  match calls with
  | [] => [g]
  | (f, u) :: calls' => g :: graphsOf (applyUpdate g f u) calls'
  end.

Definition hasNode (i : Str) (g : GraphData.t) : bool :=
  existsb (fun n => str_eqb (GraphNode.id n) i) (GraphData.nodes g).

(** The focus of a call, if set, is a node of the graph it is applied to. *)
Definition focusOk (g : GraphData.t) (f : Str) : bool :=
  if truthy f then hasNode f g else true.

Fixpoint callsOk (g : GraphData.t) (calls : list (Str * Update.t)) : bool :=
  match calls with
  | [] => true
  | (f, u) :: calls' => focusOk g f && callsOk (applyUpdate g f u) calls'
  end.

(** The node filed under an id, if there is one. *)
Definition getNode (i : Str) (g : GraphData.t) : option GraphNode.t :=
  find (fun n => str_eqb (GraphNode.id n) i) (GraphData.nodes g).

(** A link of the graph is filed under [key]: what [newLinksMap.has(key)]
    tests at the start of a call. *)
Definition keyStored (key : string) (g : GraphData.t) : bool :=
  existsb (fun l => String.eqb (keyOfLink l) key) (GraphData.links g).

(** A link of the graph is filed under the key of the pair [(a, b)]. *)
Definition linkStored (a b : Str) (g : GraphData.t) : bool :=
  keyStored (pairKey a b) g.

(** An id in the format the tool declares for it (lowercase snake case): a
    string, here one without hyphen. *)
Fixpoint hyphenFree (s : string) : bool :=
  match s with
  | EmptyString => true
  | String ch s' => negb (Ascii.eqb ch "-") && hyphenFree s'
  end.

Definition plainId (i : Str) : bool :=
  match i with
  | Some s => hyphenFree s
  | None => false
  end.

(** Both ends of every link are ids in that format. *)
Definition plainLinks (g : GraphData.t) : bool :=
  forallb (fun l => plainId (GraphLink.id_of (GraphLink.source l))
                    && plainId (GraphLink.id_of (GraphLink.target l)))
          (GraphData.links g).

(** The link joins [a] and [b], in one direction or the other. *)
Definition between (a b : Str) (l : GraphLink.t) : bool :=
  let s := GraphLink.id_of (GraphLink.source l) in
  let t := GraphLink.id_of (GraphLink.target l) in
  (str_eqb s a && str_eqb t b) || (str_eqb s b && str_eqb t a).

(** An event that carries one concept and no relationship. *)
Definition conceptEvent (c : Concept.t) : Update.t :=
  Update.mk (Some [c]) (Some []).



(** Both ends of every link are nodes of the graph. *)
Definition noDangling (g : GraphData.t) : Prop :=
  forall l, In l (GraphData.links g) ->
    hasNode (GraphLink.id_of (GraphLink.source l)) g = true /\
    hasNode (GraphLink.id_of (GraphLink.target l)) g = true.

(** ** The invariants of the two maps inside one call *)

(** Every entry of the node map is filed under the id of its node. *)
Definition keysOk (nm : NodesMap) : Prop :=
  forall k n, In (k, n) nm -> GraphNode.id n = k.

(** Both ends of every link of the link map are keys of the node map. *)
Definition linksOk (nm : NodesMap) (lm : LinksMap) : Prop :=
  forall k l, In (k, l) lm ->
    JsMap.has str_eqb (GraphLink.id_of (GraphLink.source l)) nm = true /\
    JsMap.has str_eqb (GraphLink.id_of (GraphLink.target l)) nm = true.

(** The state [conceptStep] and [relationshipStep] keep: the node map only
    grows, and no link of the link map dangles. *)
Record stepInv (base : NodesMap) (st : NodesMap * LinksMap) : Prop := {
  inv_keys : keysOk (fst st);
  inv_grow : forall i, JsMap.has str_eqb i base = true ->
                       JsMap.has str_eqb i (fst st) = true;
  inv_links : linksOk (fst st) (snd st)
}.

(** The node [conceptStep] files under the id of the concept. *)
Definition mergedNode (nm : NodesMap) (c : Concept.t) : GraphNode.t :=
  match JsMap.get str_eqb (Concept.id c) nm with
  | Some existing =>
      GraphNode.with_val existing
        (Math_min 20 (GraphNode.val existing + Concept.importance c * 0.5))
  | None =>
      GraphNode.mk (Concept.id c) (Concept.label c) (Concept.importance c)
        None None
  end.

(** The entries [prev.nodes.map(n => [n.id, n])]. *)
Definition entriesOf (ns : list GraphNode.t) : NodesMap :=
  map (fun n => (GraphNode.id n, n)) ns.

(** Every entry of the link map is filed under the key of its link. *)
Definition linkKeysOk (lm : LinksMap) : Prop :=
  forall k l, In (k, l) lm -> k = keyOfLink l.

(** The link from the focus to a new node. *)
Definition contextualLink (f : Str) (c : Concept.t) : GraphLink.t :=
  GraphLink.mk (GraphLink.Id f) (GraphLink.Id (Concept.id c)) 3.

(** ** Sample graphs and events *)

Definition node (i : string) (v : float) : GraphNode.t :=
  GraphNode.mk (Some i) (Some i) v None None.

Definition link (s t : string) (v : float) : GraphLink.t :=
  GraphLink.mk (GraphLink.Id (Some s)) (GraphLink.Id (Some t)) v.

Definition concept (i : string) (w : float) : Concept.t :=
  Concept.mk (Some i) (Some i) w.

(** Two nodes and the link [a -> b]. *)
Definition graphAB : GraphData.t :=
  GraphData.mk [node "a" 10; node "b" 4] [link "a" "b" 2].

(** The relationship [b -> a], the other way round. *)
Definition eventBA : Update.t :=
  Update.mk (Some []) (Some [Relationship.mk (Some "b") (Some "a") 4]).

(** Three nodes, one of them with a hyphen in its id, and the link
    [a-b -> c], whose key is [a-b-c]. *)
Definition graphHyphen : GraphData.t :=
  GraphData.mk [node "a" 10; node "a-b" 5; node "c" 5] [link "a-b" "c" 2].

(** A run of three calls: a first concept, a second one under the focus of
    the first, and a relationship one of whose ends is unknown. *)
Definition sampleCalls : list (Str * Update.t) :=
  [ (None, conceptEvent (concept "a" 10));
    (Some "a", conceptEvent (concept "b" 4));
    (Some "b",
     Update.mk (Some [concept "c" 1])
       (Some [Relationship.mk (Some "c") (Some "a") 2;
              Relationship.mk (Some "x") (Some "a") 4])) ].


End GraphStore.

(* ================================================================== *)
(** * The gesture branch of [predictWebcam] ([App.tsx]) *)
(* ================================================================== *)

Module HandCursor.
Record t := mk {
  x : float;
  y : float;
  isPinching : bool
}.
End HandCursor.

(** A normalized landmark of the recognizer. *)
Module Landmark.
Record t := mk {
  x : float;
  y : float;
  z : float
}.
End Landmark.

Module Gesture.

Import Js.

(** The recognizer gives a hand as its 21 landmarks; the code reads
    [hand[4]], the tip of the thumb, and [hand[8]], the tip of the index,
    the two that are kept here. *)
Record Hand := mkHand {
  thumbTip : Landmark.t;
  indexTip : Landmark.t
}.

(** What one animation frame reads: [results.landmarks] of the recognizer,
    and the [hoveredNodeId] and [focusedNodeId] its closure holds. *)
Record Frame := mkFrame {
  landmarks : option (list Hand);
  hoveredNodeId : Str;
  focusedNodeId : Str
}.

(** The three refs: [pinchDurationRef], [spreadDurationRef] and
    [hasTriggeredRef]. *)
Record State := mkState {
  pinchDuration : float;
  spreadDuration : float;
  hasTriggered : bool
}.

Definition initial : State := mkState 0 0 false.

(** [Select i] is the call [enterNode(i)], [Deselect] the call
    [exitNode()]. *)
Inductive Event :=
| Select (nodeId : Str)
| Deselect.

Definition pinchDistance (hand : Hand) : float :=
  Math_sqrt
    (Math_pow2 (Landmark.x (thumbTip hand) - Landmark.x (indexTip hand))
     + Math_pow2 (Landmark.y (thumbTip hand) - Landmark.y (indexTip hand))).

(** One animation frame, from the point where [recognizeForVideo] has
    returned its results: the new refs, the event fired, and the argument of
    [setCursor]. (Before that point the function returns without touching
    the refs when the recognizer or the video is not ready.) *)
Definition predictWebcam (st : State) (fr : Frame)
  : State * option Event * option HandCursor.t :=
  match landmarks fr with
  | Some (hand :: _) =>
      let cursorX := 1 - Landmark.x (indexTip hand) in
      let cursorY := Landmark.y (indexTip hand) in
      let dist := pinchDistance hand in
      let isPinching := dist <? 0.05 in
      let isOpen := 0.20 <? dist in
      let cursor := Some (HandCursor.mk cursorX cursorY isPinching) in
      if isPinching then
        let pinch := pinchDuration st + 1 in
        if (5 <? pinch) && negb (hasTriggered st) then
          if truthy (hoveredNodeId fr) then
            (mkState pinch 0 true,
             if negb (str_eqb (focusedNodeId fr) (hoveredNodeId fr))
             then Some (Select (hoveredNodeId fr)) else None,
             cursor)
          else (mkState pinch 0 (hasTriggered st), None, cursor)
        else (mkState pinch 0 (hasTriggered st), None, cursor)
      else if isOpen then
        let spread := spreadDuration st + 1 in
        if (8 <? spread) && negb (hasTriggered st) then
          (mkState 0 spread true,
           if truthy (focusedNodeId fr) then Some Deselect else None,
           cursor)
        else (mkState 0 spread (hasTriggered st), None, cursor)
      else (mkState 0 0 false, None, cursor)
  | _ => (mkState 0 0 (hasTriggered st), None, None)
  end.

(** The three zones of the classifier, and the frame without a hand. *)
Inductive Class := Pinching | Open | Neutral | NoHand.

Definition classify (fr : Frame) : Class :=
  match landmarks fr with
  | Some (hand :: _) =>
      if pinchDistance hand <? 0.05 then Pinching
      else if 0.20 <? pinchDistance hand then Open
      else Neutral
  | _ => NoHand
  end.

(** The events of a run of frames, in order, and the refs it ends with. *)
Fixpoint run (st : State) (frames : list Frame) : State * list Event :=
  match frames with
  | [] => (st, [])
  | fr :: frames' =>
      let '(st', ev, _) := predictWebcam st fr in
      let (st'', evs) := run st' frames' in
      (st'', match ev with Some e => e :: evs | None => evs end)
  end.

Definition events (st : State) (frames : list Frame) : list Event :=
  snd (run st frames).

Definition stateAfter (st : State) (frames : list Frame) : State :=
  fst (run st frames).

(** The refs and the event of a frame. *)
Definition stateOf (r : State * option Event * option HandCursor.t) : State :=
  fst (fst r).

Definition eventOf (r : State * option Event * option HandCursor.t)
  : option Event :=
  snd (fst r).

(** What a frame of a given class does to the refs and which event it
    fires: the branches of [predictWebcam], by class. *)
Definition stepOf (cl : Class) (st : State) (hovered focused : Str)
  : State * option Event :=
  match cl with
  | Pinching =>
      let pinch := pinchDuration st + 1 in
      if (5 <? pinch) && negb (hasTriggered st) then
        if truthy hovered then
          (mkState pinch 0 true,
           if negb (str_eqb focused hovered) then Some (Select hovered)
           else None)
        else (mkState pinch 0 (hasTriggered st), None)
      else (mkState pinch 0 (hasTriggered st), None)
  | Open =>
      let spread := spreadDuration st + 1 in
      if (8 <? spread) && negb (hasTriggered st) then
        (mkState 0 spread true,
         if truthy focused then Some Deselect else None)
      else (mkState 0 spread (hasTriggered st), None)
  | Neutral => (mkState 0 0 false, None)
  | NoHand => (mkState 0 0 (hasTriggered st), None)
  end.

(** A pinching frame over the node [h], which is not the focused one. *)
Definition pinchOver (h : string) (fr : Frame) : Prop :=
  classify fr = Pinching /\ hoveredNodeId fr = Some h
  /\ focusedNodeId fr <> Some h.

(** ** Sample frames *)

(** A hand whose thumb tip is at [(0.5, 0.5)] and whose index tip is [d] to
    its right. *)
Definition handAt (d : float) : Hand :=
  mkHand (Landmark.mk 0.5 0.5 0) (Landmark.mk (0.5 + d) 0.5 0).

Definition pinchFrame (hovered focused : Str) : Frame :=
  mkFrame (Some [handAt 0.01]) hovered focused.

Definition neutralFrame (hovered focused : Str) : Frame :=
  mkFrame (Some [handAt 0.1]) hovered focused.

Definition openFrame (hovered focused : Str) : Frame :=
  mkFrame (Some [handAt 0.3]) hovered focused.

(** The refs after five pinching frames away from every node. *)
Definition fivePinches : State := mkState 5 0 false.

End Gesture.

(* ================================================================== *)
(** * The hit test and the view transform ([ThinkingGraph.tsx]) *)
(* ================================================================== *)

Module ThinkingGraph.

Import Js.

(** The props and the window the two effects read. *)
Record View := mkView {
  width : float;
  height : float;
  zoomLevel : float;
  focusedNodeId : Str
}.

(** [translate(tx, ty) scale(k)] *)
Record Transform := mkTransform {
  tx : float;
  ty : float;
  k : float
}.

(** [data.nodes.find(n => n.id === focusedNodeId)] *)
Definition findNode (nodes : list GraphNode.t) (i : Str)
  : option GraphNode.t :=
  find (fun n => str_eqb (GraphNode.id n) i) nodes.

(** The transform the hit test projects a node with (inside the loop). *)
Definition hitTransform (nodes : list GraphNode.t) (v : View) : Transform :=
  let tx := width v / 2 in
  let ty := height v / 2 in
  let k := zoomLevel v in
  if truthy (focusedNodeId v) then
    match findNode nodes (focusedNodeId v) with
    | Some focusedNode =>
        match GraphNode.x focusedNode, GraphNode.y focusedNode with
        | Some fx, Some fy =>
            let focusK := 1.2 in
            mkTransform (width v / 2 - fx * focusK)
                        (height v / 2 - fy * focusK) focusK
        | _, _ => mkTransform tx ty k
        end
    | None => mkTransform tx ty k
    end
  else mkTransform tx ty k.

(** The transform the zoom and focus effect gives the graph container. *)
Definition viewTransform (nodes : list GraphNode.t) (v : View) : Transform :=
  if truthy (focusedNodeId v) then
    match findNode nodes (focusedNodeId v) with
    | Some node =>
        match GraphNode.x node, GraphNode.y node with
        | Some nx, Some ny =>
            let k := 1.2 in
            let tx := width v / 2 - nx * k in
            let ty := height v / 2 - ny * k in
            mkTransform tx ty k
        | _, _ => mkTransform (width v / 2) (height v / 2) (zoomLevel v)
        end
    | None => mkTransform (width v / 2) (height v / 2) (zoomLevel v)
    end
  else mkTransform (width v / 2) (height v / 2) (zoomLevel v).

(** The screen position of a point of the graph under a transform. *)
Definition project (t : Transform) (p : float * float) : float * float :=
  (fst p * k t + tx t, snd p * k t + ty t).

(** The distance in pixels from a projected point to the cursor. *)
Definition screenDist (s c : float * float) : float :=
  Math_sqrt (Math_pow2 (fst s - fst c) + Math_pow2 (snd s - snd c)).

(** The cursor in pixels. *)
Definition cursorPx (v : View) (cursor : HandCursor.t) : float * float :=
  (HandCursor.x cursor * width v, HandCursor.y cursor * height v).

(** The distance of a node to the cursor, for a node that has a position. *)
Definition nodeDist (nodes : list GraphNode.t) (v : View)
    (cursor : HandCursor.t) (node : GraphNode.t) : option float :=
  match GraphNode.x node, GraphNode.y node with
  | Some nx, Some ny =>
      Some (screenDist (project (hitTransform nodes v) (nx, ny))
                       (cursorPx v cursor))
  | _, _ => None
  end.

(** The body of [data.nodes.forEach]: [acc] is [(hitNode, minDist)]. *)
Definition hitStep (nodes : list GraphNode.t) (v : View)
    (cursor : HandCursor.t) (acc : option Str * float) (node : GraphNode.t)
  : option Str * float :=
  match nodeDist nodes v cursor node with
  | Some dist =>
      if dist <? snd acc then (Some (GraphNode.id node), dist) else acc
  | None => acc
  end.

(** The node under the cursor: [hitNode] after the loop. *)
Definition hitTest (nodes : list GraphNode.t) (v : View)
    (cursor : HandCursor.t) : option Str :=
  fst (fold_left (hitStep nodes v cursor) nodes (None, 70)).

(** [if (v)] for a hover state that is [null] ([None]) or an id. *)
Definition hoverSet (h : option Str) : bool :=
  match h with
  | Some i => truthy i
  | None => false
  end.

Definition hover_eqb (a b : option Str) : bool :=
  match a, b with
  | None, None => true
  | Some i, Some j =>
      match i, j with
      | None, None => true
      | Some s, Some t => String.eqb s t
      | _, _ => false
      end
  | _, _ => false
  end.

(** The hit-test effect: the new [activeHoverId], and the argument of
    [onNodeHover] when it is called. *)
Definition hitTestEffect (cursor : option HandCursor.t) (svgMounted : bool)
    (nodes : list GraphNode.t) (v : View) (activeHoverId : option Str)
  : option Str * option (option Str) :=
  match cursor with
  | Some c =>
      if negb svgMounted || (List.length nodes =? 0)%nat then
        if hoverSet activeHoverId then (None, Some None)
        else (activeHoverId, None)
      else
        let hitNode := hitTest nodes v c in
        if negb (hover_eqb hitNode activeHoverId) then (hitNode, Some hitNode)
        else (activeHoverId, None)
  | None =>
      if hoverSet activeHoverId then (None, Some None)
      else (activeHoverId, None)
  end.

(** What the loop of the hit test keeps, [ms] being the nodes it has gone
    through and [acc] the pair [(hitNode, minDist)]: no node gone through is
    nearer than [minDist]; and either nothing is hit and [minDist] is the
    radius, or the hit is a node gone through, at distance [minDist], inside
    the radius. *)
Definition hitInv (nodes : list GraphNode.t) (v : View)
    (cursor : HandCursor.t) (ms : list GraphNode.t)
    (acc : option Str * float) : Prop :=
  (forall m d, In m ms -> nodeDist nodes v cursor m = Some d ->
               (d <? snd acc) = false)
  /\ ((fst acc = None /\ snd acc = 70)
      \/ (exists n, In n ms /\ fst acc = Some (GraphNode.id n)
                    /\ nodeDist nodes v cursor n = Some (snd acc)
                    /\ (snd acc <? 70) = true)).

(** ** Sample views and nodes *)

Definition placed (i : string) (px py : float) : GraphNode.t :=
  GraphNode.mk (Some i) (Some i) 5 (Some px) (Some py).


(** Three placed nodes; under [sampleView] they are drawn at [(500, 400)],
    [(540, 400)] and [(800, 400)]. *)
Definition sampleNodes : list GraphNode.t :=
  [placed "far" 300 0; placed "near" 40 0; placed "origin" 0 0].

(** A window of 1000 by 800 pixels, zoom 1, no focus. *)
Definition sampleView : View := mkView 1000 800 1 None.



End ThinkingGraph.

(* ================================================================== *)
(** * [Math.max], and more on the graph of [handleGraphUpdate] *)
(* ================================================================== *)

Module JsMath.

(** [Math.max(a, b)]: NaN if either is NaN, and [+0] is above [-0]. *)
Definition Math_max (a b : float) : float :=
  if is_nan a || is_nan b then nan
  else if a <? b then b
  else if b <? a then a
  else if is_zero a && get_sign a then b else a.

(** A number that is NaN, or at most [c]. *)
Definition atMost (c d : float) : Prop :=
  is_nan d = true \/ (d <=? c) = true.

(** A number that is NaN, or at least [c]. *)
Definition atLeast (c d : float) : Prop :=
  is_nan d = true \/ (c <=? d) = true.

End JsMath.

(** More on [handleGraphUpdate]. *)
Module GraphStoreMore.

Import Js GraphStore.

(** The link filed under a key, if there is one. *)
Definition getLink (key : string) (g : GraphData.t) : option GraphLink.t :=
  find (fun l => String.eqb (keyOfLink l) key) (GraphData.links g).

(** An update that carries no concept and no relationship: each of the two
    fields is missing or an empty array. *)
Definition isEmptyUpdate (u : Update.t) : bool :=
  match Update.concepts u, Update.relationships u with
  | (None | Some []), (None | Some []) => true
  | _, _ => false
  end.

(** Two nodes that differ in their importance at most. *)
Definition sameNodeButVal (n n' : GraphNode.t) : Prop :=
  GraphNode.id n' = GraphNode.id n /\ GraphNode.label n' = GraphNode.label n
  /\ GraphNode.x n' = GraphNode.x n /\ GraphNode.y n' = GraphNode.y n.

(** What the code reads of a link: the ids of its two ends and its
    strength. Of an end that d3 has bound - the node object - it reads the
    id and nothing else. *)
Definition linkData (l : GraphLink.t) : Str * Str * float :=
  (GraphLink.id_of (GraphLink.source l),
   GraphLink.id_of (GraphLink.target l),
   GraphLink.value l).

(** Two links between the same ids, in the same direction: they differ in
    their strength at most. *)
Definition sameEnds (l l' : GraphLink.t) : Prop :=
  GraphLink.id_of (GraphLink.source l') = GraphLink.id_of (GraphLink.source l)
  /\ GraphLink.id_of (GraphLink.target l')
     = GraphLink.id_of (GraphLink.target l).





(** The graph is as a call returns it: its node ids are distinct and so are
    the keys of its links. *)
Definition normal (g : GraphData.t) : Prop :=
  NoDup (map GraphNode.id (GraphData.nodes g))
  /\ NoDup (map keyOfLink (GraphData.links g)).

(** A sample graph with positions: two placed nodes and a link. *)
Definition graphPlaced : GraphData.t :=
  GraphData.mk
    [GraphNode.mk (Some "a") (Some "Alpha") 19 (Some 12) (Some (-7));
     GraphNode.mk (Some "b") (Some "Beta") 4 (Some 0) (Some 30)]
    [link "a" "b" 9].

(** The link of that graph once d3 has bound its ends to the two nodes,
    and the graph with it. *)
Definition boundAB : GraphLink.t :=
  GraphLink.mk
    (GraphLink.Node
       (GraphNode.mk (Some "a") (Some "Alpha") 19 (Some 12) (Some (-7))))
    (GraphLink.Node
       (GraphNode.mk (Some "b") (Some "Beta") 4 (Some 0) (Some 30)))
    9.

Definition graphBound : GraphData.t :=
  GraphData.mk
    [GraphNode.mk (Some "a") (Some "Alpha") 19 (Some 12) (Some (-7));
     GraphNode.mk (Some "b") (Some "Beta") 4 (Some 0) (Some 30)]
    [boundAB].

End GraphStoreMore.

(* ================================================================== *)
(** * The session state of [App.tsx] *)
(* ================================================================== *)

Module JsString.

(** [s.slice(-n)] for a count [n]: the start is [Math.max(length - n, 0)]
    and the end the length, so it is the last [n] characters of [s], and all
    of [s] when it has fewer. A character of a string stands for one code
    unit of the JavaScript string, which is what [slice] and [length]
    count. *)
Definition slice_last (n : nat) (s : string) : string :=
  let len := String.length s in
  let start := (len - n)%nat in
  substring start (len - start) s.

End JsString.

Module VisMode.
Inductive t := network | stream | layers | cluster.
End VisMode.

Module SessionRecord.
(** The transcript of a record read back from the storage may be missing;
    the one [saveSession] writes is a string. *)
Record t := mk {
  id : string;
  timestamp : Z;
  transcript : Js.Str;
  graphData : GraphData.t
}.
End SessionRecord.

Module App.

Import Js JsMath GraphStore.

(** The state the session functions read and set. *)
Record State := mkState {
  graphData : GraphData.t;
  transcript : string;
  zoomLevel : float;
  visMode : VisMode.t;
  focusedNodeId : Str;
  history : list SessionRecord.t;
  isHistoryOpen : bool
}.

Definition initial : State :=
  mkState GraphData.empty EmptyString 1 VisMode.network None [] false.

(** [setGraphData(prev => ...)] of [handleGraphUpdate], the focus being the
    one the ref holds. *)
Definition handleGraphUpdate (u : Update.t) (st : State) : State :=
  mkState (applyUpdate (graphData st) (focusedNodeId st) u)
    (transcript st) (zoomLevel st) (visMode st) (focusedNodeId st)
    (history st) (isHistoryOpen st).

Definition handleTranscriptUpdate (text : string) (st : State) : State :=
  let combined := (transcript st ++ " " ++ text)%string in
  mkState (graphData st) (JsString.slice_last 250 combined)
    (zoomLevel st) (visMode st) (focusedNodeId st)
    (history st) (isHistoryOpen st).

(** [{ id: n.id, label: n.label, val: n.val }] *)
Definition cleanNode (n : GraphNode.t) : GraphNode.t :=
  GraphNode.mk (GraphNode.id n) (GraphNode.label n) (GraphNode.val n)
    None None.

Definition cleanLink (l : GraphLink.t) : GraphLink.t :=
  GraphLink.mk (GraphLink.Id (GraphLink.id_of (GraphLink.source l)))
               (GraphLink.Id (GraphLink.id_of (GraphLink.target l)))
               (GraphLink.value l).

Definition cleanGraph (g : GraphData.t) : GraphData.t :=
  GraphData.mk (map cleanNode (GraphData.nodes g))
               (map cleanLink (GraphData.links g)).

(** [saveSession]: [uuid] is what [crypto.randomUUID()] returns and [now]
    what [Date.now()] returns. *)
Definition saveSession (uuid : string) (now : Z) (st : State) : State :=
  if (List.length (GraphData.nodes (graphData st)) =? 0)%nat
     && negb (truthy (Some (transcript st)))
  then st
  else
    let newRecord :=
      SessionRecord.mk uuid now (Some (transcript st))
        (cleanGraph (graphData st)) in
    mkState (graphData st) (transcript st) (zoomLevel st) (visMode st)
      (focusedNodeId st) (newRecord :: history st) (isHistoryOpen st).

Definition clearGraph (uuid : string) (now : Z) (st : State) : State :=
  let saved := saveSession uuid now st in
  mkState GraphData.empty EmptyString 1 VisMode.network None
    (history saved) (isHistoryOpen saved).

Definition deleteHistoryItem (id : string) (st : State) : State :=
  mkState (graphData st) (transcript st) (zoomLevel st) (visMode st)
    (focusedNodeId st)
    (filter (fun item => negb (String.eqb (SessionRecord.id item) id))
       (history st))
    (isHistoryOpen st).

(** [loadSession]: the copies [{ ...n }] and [{ ...l }] have the fields of
    the originals. *)
Definition loadSession (item : SessionRecord.t) (st : State) : State :=
  let nodes :=
    map (fun n => n) (GraphData.nodes (SessionRecord.graphData item)) in
  let links :=
    map (fun l => l) (GraphData.links (SessionRecord.graphData item)) in
  mkState (GraphData.mk nodes links)
    (if truthy (SessionRecord.transcript item)
     then show (SessionRecord.transcript item) else EmptyString)
    1 (visMode st) None (history st) false.

Definition enterNode (nodeId : Str) (st : State) : State :=
  mkState (graphData st) (transcript st) (zoomLevel st) (visMode st)
    nodeId (history st) (isHistoryOpen st).

Definition exitNode (st : State) : State :=
  mkState (graphData st) (transcript st) (zoomLevel st) (visMode st)
    None (history st) (isHistoryOpen st).

(** The two zoom buttons: [z => Math.min(3, z + 0.1)] and
    [z => Math.max(0.2, z - 0.1)]. *)
Definition zoomIn (z : float) : float := Math_min 3 (z + 0.1).

Definition zoomOut (z : float) : float := Math_max 0.2 (z - 0.1).

(** The calls that change the session state, as the interface and the live
    service make them. *)
Inductive Action :=
| GraphUpdate (u : Update.t)
| TranscriptUpdate (text : string)
| EnterNode (nodeId : Str)
| ExitNode
| SaveSession (uuid : string) (now : Z)
| ClearGraph (uuid : string) (now : Z)
| DeleteHistoryItem (id : string)
| LoadSession (item : SessionRecord.t).

Definition step (st : State) (a : Action) : State :=
  match a with
  | GraphUpdate u => handleGraphUpdate u st
  | TranscriptUpdate text => handleTranscriptUpdate text st
  | EnterNode i => enterNode i st
  | ExitNode => exitNode st
  | SaveSession uuid now => saveSession uuid now st
  | ClearGraph uuid now => clearGraph uuid now st
  | DeleteHistoryItem id => deleteHistoryItem id st
  | LoadSession item => loadSession item st
  end.

(** A call the interface can make in a state: a node is entered from the
    graph on the screen, and a session is loaded from the history panel. *)
Definition offered (st : State) (a : Action) : Prop :=
  match a with
  | EnterNode i => hasNode i (graphData st) = true
  | LoadSession item => In item (history st)
  | _ => True
  end.

Fixpoint offeredAll (st : State) (acts : list Action) : Prop :=
  match acts with
  | [] => True
  | a :: acts' => offered st a /\ offeredAll (step st a) acts'
  end.

(** Every graph of the state is closed: the links of the graph on the
    screen and of every record of the history end at nodes of their graph,
    and the focus, if set, is a node of the graph on the screen. *)
Definition closed (st : State) : Prop :=
  noDangling (graphData st)
  /\ focusOk (graphData st) (focusedNodeId st) = true
  /\ Forall (fun item => noDangling (SessionRecord.graphData item))
       (history st).

(** A graph as it is stored: no node has a position and every end of a link
    is an id. *)
Definition isClean (g : GraphData.t) : Prop :=
  Forall (fun n => GraphNode.x n = None /\ GraphNode.y n = None)
    (GraphData.nodes g)
  /\ Forall (fun l => exists s t,
                 GraphLink.source l = GraphLink.Id s
                 /\ GraphLink.target l = GraphLink.Id t)
       (GraphData.links g).

(** A sample state: the placed graph on the screen, with a transcript. *)
Definition sampleState : State :=
  mkState GraphStoreMore.graphPlaced "so far" 1.5 VisMode.layers (Some "a")
    [] true.

(** A text of 300 characters. *)
Definition longText : string :=
  string_of_list_ascii (repeat "x"%char 300).

(** A record as [saveSession] stores the sample state. *)
Definition sampleRecord : SessionRecord.t :=
  SessionRecord.mk "r1" 1700000000000 (Some "so far")
    (cleanGraph GraphStoreMore.graphPlaced).

(** A short session: a concept, the focus on it, a second concept, a word of
    transcript, and the graph cleared. *)
Definition sampleSession : list Action :=
  [GraphUpdate (conceptEvent (concept "a" 4));
   EnterNode (Some "a");
   GraphUpdate (conceptEvent (concept "b" 2));
   TranscriptUpdate "hello";
   ClearGraph "r1" 1700000000000].

End App.

(* ================================================================== *)
(** * More of [predictWebcam] and of [ThinkingGraph.tsx] *)
(* ================================================================== *)

Module GestureMore.

Import Js Gesture.

Definition Class_eqb (a b : Class) : bool :=
  match a, b with
  | Pinching, Pinching | Open, Open | Neutral, Neutral | NoHand, NoHand => true
  | _, _ => false
  end.

(** The number of frames of class [cl] the run has just seen in a row:
    [past] is the run, the latest frame first. *)
Fixpoint streak (cl : Class) (past : list Frame) : nat :=
  match past with
  | fr :: past' =>
      if Class_eqb (classify fr) cl then S (streak cl past') else 0%nat
  | [] => 0%nat
  end.

(** What a counter holds after [n] increments [+ 1] from 0. *)
Fixpoint ticks (n : nat) : float :=
  match n with
  | O => 0
  | S m => ticks m + 1
  end.

(** The event of the frame that follows the run [frames]. *)
Definition fires (frames : list Frame) (fr : Frame) : option Event :=
  eventOf (predictWebcam (stateAfter initial frames) fr).

Definition openOn (f : string) (fr : Frame) : Prop :=
  classify fr = Open /\ focusedNodeId fr = Some f.

End GestureMore.

Module Layout.

Import Js JsMath ThinkingGraph.

(** The target of the vertical force in the layers mode. *)
Definition layersForceY (height : float) (d : GraphNode.t) : float :=
  let importance := Math_min 10 (Math_max 1 (GraphNode.val d)) in
  if 7 <? importance then (- height) / 3 + 50
  else if 4 <? importance then 0
  else height / 3 - 50.

(** The fill of the circle of a node. *)
Definition nodeFill (mode : VisMode.t) (focusedNodeId : Str)
    (activeHoverId : option Str) (d : GraphNode.t) : string :=
  if truthy focusedNodeId && str_eqb (GraphNode.id d) focusedNodeId
  then "rgba(239, 68, 68, 0.8)"
  else if hover_eqb activeHoverId (Some (GraphNode.id d))
  then "rgba(255, 255, 255, 0.4)"
  else
    match mode with
    | VisMode.cluster => "rgba(255, 255, 255, 0.2)"
    | VisMode.stream => "rgba(255, 255, 255, 0.9)"
    | VisMode.layers =>
        if 7 <? GraphNode.val d then "rgba(239, 68, 68, 0.8)"
        else if 4 <? GraphNode.val d then "rgba(255, 165, 0, 0.5)"
        else "rgba(255, 255, 255, 0.2)"
    | VisMode.network =>
        if 15 <? GraphNode.val d then "rgba(239, 68, 68, 0.4)"
        else "rgba(255, 255, 255, 0.1)"
    end.

(** The radius of the circle of a node. *)
Definition nodeRadius (mode : VisMode.t) (focusedNodeId : Str)
    (activeHoverId : option Str) (d : GraphNode.t) : float :=
  if truthy focusedNodeId then
    if str_eqb (GraphNode.id d) focusedNodeId
    then Math_max 30 (GraphNode.val d * 2.5)
    else Math_max 10 (GraphNode.val d * 1.5)
  else if hover_eqb activeHoverId (Some (GraphNode.id d))
  then Math_max 25 (GraphNode.val d * 3 + 10)
  else
    match mode with
    | VisMode.cluster => Math_max 20 (GraphNode.val d * 5)
    | VisMode.stream => 8
    | _ => Math_max 15 (GraphNode.val d * 3)
    end.

(** The width of the stroke of a link. *)
Definition linkStrokeWidth (l : GraphLink.t) : float :=
  Math_max 1 (GraphLink.value l).

(** ** The effects of one commit *)








(** The hit-test effect run again on the hover it has just set. *)
Definition hitTestEffectTwice (cursor : option HandCursor.t)
    (svgMounted : bool) (nodes : list GraphNode.t) (v : View)
    (activeHoverId : option Str) : option Str * option (option Str) :=
  hitTestEffect cursor svgMounted nodes v
    (fst (hitTestEffect cursor svgMounted nodes v activeHoverId)).

(** What the loop keeps on the order of the nodes, [ms] being the nodes gone
    through: either nothing is hit and no node gone through is inside the
    radius, or the hit splits the nodes gone through: those before it are
    not as near as it is, and those after it are not nearer. *)
Definition firstInv (nodes : list GraphNode.t) (v : View)
    (cursor : HandCursor.t) (ms : list GraphNode.t)
    (acc : option Str * float) : Prop :=
  (fst acc = None /\ snd acc = 70
   /\ forall m d, In m ms -> nodeDist nodes v cursor m = Some d ->
                  (d <? 70) = false)
  \/ exists pre n post,
       ms = pre ++ n :: post
       /\ fst acc = Some (GraphNode.id n)
       /\ nodeDist nodes v cursor n = Some (snd acc)
       /\ (snd acc <? 70) = true
       /\ (forall m d, In m pre -> nodeDist nodes v cursor m = Some d ->
                       (d <=? snd acc) = false)
       /\ (forall m d, In m post -> nodeDist nodes v cursor m = Some d ->
                       (d <? snd acc) = false).

(** Two nodes at the same place, and a third one farther away. *)
Definition tiedNodes : list GraphNode.t :=
  [placed "away" 60 0; placed "first" 10 0; placed "second" 10 0].

End Layout.
(* ================================================================== *)
(** * Facts on binary64 comparison and subtraction *)
(* ================================================================== *)

Module FloatFacts.

Import Js.

Lemma SFcompare_refl (a : spec_float) :
  SFcompare a a = None \/ SFcompare a a = Some Eq.
Proof.
  destruct a as [s|s| |s m e]; simpl; auto; destruct s; auto;
    rewrite Z.compare_refl; right;
    change (Pos.compare_cont Eq m m) with (Pos.compare m m);
    rewrite Pos.compare_refl; reflexivity.
Qed.

Lemma ltb_irrefl (a : float) : (a <? a) = false.
Proof.
  rewrite ltb_spec. unfold SFltb.
  destruct (SFcompare_refl (Prim2SF a)) as [H|H]; rewrite H; reflexivity.
Qed.

Lemma ltb_leb (a b : float) : (a <? b) = true -> (a <=? b) = true.
Proof.
  rewrite ltb_spec, leb_spec. unfold SFltb, SFleb.
  destruct (SFcompare _ _) as [[| |]|]; congruence.
Qed.

Ltac cmp_cases :=
  repeat match goal with
  | |- context [Z.compare ?a ?b] => destruct (Z.compare_spec a b)
  | H : context [Z.compare ?a ?b] |- _ => destruct (Z.compare_spec a b)
  | |- context [Pos.compare ?a ?b] => destruct (Pos.compare_spec a b)
  | H : context [Pos.compare ?a ?b] |- _ => destruct (Pos.compare_spec a b)
  end.

Lemma SFltb_asym (a b : spec_float) :
  SFltb a b = true -> SFltb b a = false.
Proof.
  unfold SFltb.
  destruct a as [sa|sa| |sa ma ea], b as [sb|sb| |sb mb eb]; simpl;
    try destruct sa; try destruct sb; simpl; try congruence;
    change (Pos.compare_cont Eq) with Pos.compare;
    cmp_cases; simpl in *; try congruence; try lia.
Qed.

Lemma SFltb_trans (a b c : spec_float) :
  SFltb a b = true -> SFltb b c = true -> SFltb a c = true.
Proof.
  unfold SFltb.
  destruct a as [sa|sa| |sa ma ea], b as [sb|sb| |sb mb eb],
           c as [sc|sc| |sc mc ec]; simpl;
    try destruct sa; try destruct sb; try destruct sc; simpl; try congruence;
    change (Pos.compare_cont Eq) with Pos.compare;
    cmp_cases; simpl in *; try congruence; try lia.
Qed.

Lemma ltb_asym (a b : float) : (a <? b) = true -> (b <? a) = false.
Proof. rewrite !ltb_spec. apply SFltb_asym. Qed.

Lemma ltb_trans (a b c : float) :
  (a <? b) = true -> (b <? c) = true -> (a <? c) = true.
Proof. rewrite !ltb_spec. apply SFltb_trans. Qed.

(** A number that is neither NaN nor infinite is a zero or has a mantissa
    and an exponent. *)
Lemma finite_shape (a : float) :
  is_finite a = true ->
  (exists s, Prim2SF a = S754_zero s) \/
  (exists s m e, Prim2SF a = S754_finite s m e).
Proof.
  unfold is_finite. intros H.
  apply negb_true_iff, orb_false_iff in H as [Hn Hi].
  unfold Prim2SF. rewrite Hn, Hi.
  destruct (is_zero a); [left; eauto|].
  destruct (Z.frexp a) as [r ex].
  destruct (shr_fexp _ _ _ _ _) as [sh e'].
  destruct (shr_m sh); [left | right | left]; eauto.
Qed.

Lemma SF64sub_diag (a : spec_float) :
  (exists s, a = S754_zero s) \/ (exists s m e, a = S754_finite s m e) ->
  SF64sub a a = S754_zero false.
Proof.
  intros [[s ->]|[s [m [e ->]]]].
  - now destruct s.
  - unfold SF64sub, SFsub. rewrite Z.min_id.
    rewrite Z.sub_diag. reflexivity.
Qed.

(** [a - a] is [+0] for a number that is neither NaN nor infinite. *)
Lemma sub_diag (a : float) : is_finite a = true -> a - a = 0.
Proof.
  intros H. apply Prim2SF_inj. rewrite sub_spec.
  rewrite (SF64sub_diag _ (finite_shape a H)). reflexivity.
Qed.

(** A number below another one and not below or equal to zero is above
    zero. *)
Lemma ltb_zero_of_not_leb (d b : float) :
  (d <? b) = true -> (d <=? 0) = false -> (0 <? d) = true.
Proof.
  rewrite !ltb_spec, leb_spec. unfold SFltb, SFleb.
  change (Prim2SF 0) with (S754_zero false).
  destruct (Prim2SF d) as [s|s| |s m e]; simpl;
    try destruct s; simpl; congruence.
Qed.

Lemma not_leb_not_ltb (a b : float) : (a <=? b) = false -> (a <? b) = false.
Proof.
  intros H. destruct (a <? b) eqn:E; [|reflexivity].
  apply ltb_leb in E. congruence.
Qed.

End FloatFacts.

(* ================================================================== *)
(** * Facts on the insertion-ordered map *)
(* ================================================================== *)

Module JsMapFacts.

Section WithKey.
Context {K V : Type}.
Variable keqb : K -> K -> bool.
Hypothesis keqb_eq : forall a b, keqb a b = true <-> a = b.

Abbreviation M := (@JsMap.t K V).
Abbreviation get := (JsMap.get keqb).
Abbreviation has := (JsMap.has keqb).
Abbreviation set := (JsMap.set keqb).
Abbreviation of_entries := (JsMap.of_entries keqb).

Lemma keqb_refl (a : K) : keqb a a = true.
Proof. apply keqb_eq. reflexivity. Qed.

Lemma keqb_neq (a b : K) : keqb a b = false <-> a <> b.
Proof.
  split.
  - intros H E. apply keqb_eq in E. congruence.
  - intros H. destruct (keqb a b) eqn:E; [apply keqb_eq in E; contradiction | reflexivity].
Qed.

Lemma get_In (k : K) (v : V) (m : M) :
  get k m = Some v -> In (k, v) m.
Proof.
  induction m as [|[k' v'] m IH]; simpl; [discriminate|].
  destruct (keqb k' k) eqn:E.
  - intros H. injection H as ->. apply keqb_eq in E. subst. now left.
  - intros H. right. auto.
Qed.

Lemma In_has (k : K) (v : V) (m : M) :
  In (k, v) m -> has k m = true.
Proof.
  unfold JsMap.has.
  induction m as [|[k' v'] m IH]; simpl; [contradiction|].
  intros [H|H].
  - injection H as -> ->. now rewrite keqb_refl.
  - destruct (keqb k' k); [reflexivity | auto].
Qed.

Lemma has_In (k : K) (m : M) :
  has k m = true -> exists v, In (k, v) m.
Proof.
  unfold JsMap.has. destruct (get k m) as [v|] eqn:E; [|discriminate].
  intros _. exists v. now apply get_In.
Qed.

Lemma has_false_In (k : K) (v : V) (m : M) :
  has k m = false -> ~ In (k, v) m.
Proof. intros H Hin. apply In_has in Hin. congruence. Qed.

Lemma get_None_has (k : K) (m : M) :
  get k m = None <-> has k m = false.
Proof. unfold JsMap.has. destruct (get k m); split; congruence. Qed.

Lemma set_In (k k' : K) (v v' : V) (m : M) :
  In (k', v') (set k v m) -> In (k', v') m \/ (k' = k /\ v' = v).
Proof.
  induction m as [|[k0 v0] m IH]; simpl.
  - intros [H|[]]. injection H as <- <-. auto.
  - destruct (keqb k0 k) eqn:E; simpl.
    + intros [H|H]; [|auto]. injection H as <- <-.
      apply keqb_eq in E. auto.
    + intros [H|H]; [auto|]. destruct (IH H); auto.
Qed.

Lemma has_set_same (k : K) (v : V) (m : M) :
  has k (set k v m) = true.
Proof.
  unfold JsMap.has.
  induction m as [|[k0 v0] m IH]; simpl.
  - now rewrite keqb_refl.
  - destruct (keqb k0 k) eqn:E; simpl; rewrite E; auto.
Qed.

Lemma has_set_mono (k k' : K) (v : V) (m : M) :
  has k' m = true -> has k' (set k v m) = true.
Proof.
  unfold JsMap.has.
  induction m as [|[k0 v0] m IH]; simpl; [discriminate|].
  destruct (keqb k0 k) eqn:E; simpl; destruct (keqb k0 k'); auto.
Qed.

Lemma has_set_inv (k k' : K) (v : V) (m : M) :
  has k' (set k v m) = true -> k' = k \/ has k' m = true.
Proof.
  intros H. apply has_In in H as [v' H].
  apply set_In in H as [H|[H _]]; [right|left; assumption].
  eapply In_has; eassumption.
Qed.

(** Setting a key that is absent appends the entry. *)
Lemma set_absent (k : K) (v : V) (m : M) :
  has k m = false -> set k v m = m ++ [(k, v)].
Proof.
  unfold JsMap.has.
  induction m as [|[k0 v0] m IH]; simpl; [reflexivity|].
  destruct (keqb k0 k); [discriminate|]. intros H. now rewrite IH.
Qed.

(** Setting a key that is present keeps the keys and their order. *)
Lemma keys_set_present (k : K) (v : V) (m : M) :
  has k m = true -> JsMap.keys (set k v m) = JsMap.keys m.
Proof.
  unfold JsMap.has, JsMap.keys.
  induction m as [|[k0 v0] m IH]; simpl; [discriminate|].
  destruct (keqb k0 k) eqn:E; simpl; [reflexivity|].
  intros H. now rewrite IH.
Qed.

Lemma has_keys (k : K) (m : M) :
  has k m = true <-> In k (JsMap.keys m).
Proof.
  unfold JsMap.keys. split.
  - intros H. apply has_In in H as [v H].
    apply in_map_iff. now exists (k, v).
  - intros H. apply in_map_iff in H as [[k' v] [E H]]. simpl in E. subst.
    eapply In_has; eassumption.
Qed.

Lemma fold_set_In (es : list (K * V)) (m : M) (k : K) (v : V) :
  In (k, v) (fold_left (fun m e => set (fst e) (snd e) m) es m) ->
  In (k, v) m \/ In (k, v) es.
Proof.
  revert m. induction es as [|[k0 v0] es IH]; simpl; intros m H; [auto|].
  apply IH in H as [H|H]; [|auto].
  apply set_In in H as [H|[-> ->]]; auto.
Qed.

Lemma fold_set_has (es : list (K * V)) (m : M) (k : K) :
  has k m = true \/ In k (map fst es) ->
  has k (fold_left (fun m e => set (fst e) (snd e) m) es m) = true.
Proof.
  revert m. induction es as [|[k0 v0] es IH]; simpl; intros m H.
  - destruct H as [H|[]]; assumption.
  - apply IH. destruct H as [H|[H|H]]; auto.
    + left. now apply has_set_mono.
    + left. subst. apply has_set_same.
Qed.

Lemma of_entries_In (es : list (K * V)) (k : K) (v : V) :
  In (k, v) (of_entries es) -> In (k, v) es.
Proof.
  unfold JsMap.of_entries. intros H.
  apply fold_set_In in H as [[]|H]. assumption.
Qed.

Lemma of_entries_has (es : list (K * V)) (k : K) :
  has k (of_entries es) = true <-> In k (map fst es).
Proof.
  split.
  - intros H. apply has_In in H as [v H]. apply of_entries_In in H.
    apply in_map_iff. now exists (k, v).
  - intros H. unfold JsMap.of_entries. apply fold_set_has. auto.
Qed.

Lemma fold_set_NoDup (es : list (K * V)) (m : M) :
  NoDup (JsMap.keys m ++ map fst es) ->
  fold_left (fun m e => set (fst e) (snd e) m) es m = m ++ es.
Proof.
  revert m. induction es as [|[k0 v0] es IH]; simpl; intros m H.
  - now rewrite app_nil_r.
  - assert (Hk : has k0 m = false).
    { destruct (has k0 m) eqn:E; [|reflexivity].
      apply has_keys in E. apply NoDup_remove_2 in H.
      exfalso. apply H. apply in_or_app. auto. }
    rewrite set_absent by assumption.
    rewrite IH.
    + now rewrite <- app_assoc.
    + unfold JsMap.keys in *. rewrite map_app. simpl.
      rewrite <- app_assoc. simpl. assumption.
Qed.

(** A list of entries with distinct keys is the map it builds. *)
Lemma of_entries_NoDup (es : list (K * V)) :
  NoDup (map fst es) -> of_entries es = es.
Proof. intros H. unfold JsMap.of_entries. now rewrite fold_set_NoDup. Qed.

Lemma set_keys_NoDup (k : K) (v : V) (m : M) :
  NoDup (JsMap.keys m) -> NoDup (JsMap.keys (set k v m)).
Proof.
  intros H. destruct (has k m) eqn:E.
  - now rewrite keys_set_present.
  - rewrite set_absent by assumption. unfold JsMap.keys in *.
    rewrite map_app. simpl.
    apply NoDup_app; [assumption | repeat constructor; simpl; tauto |].
    intros a Ha [Hk|[]]. subst a.
    assert (has k m = true) by (apply has_keys; assumption). congruence.
Qed.

Lemma fold_set_keys_NoDup (es : list (K * V)) (m : M) :
  NoDup (JsMap.keys m) ->
  NoDup (JsMap.keys (fold_left (fun m e => set (fst e) (snd e) m) es m)).
Proof.
  revert m. induction es as [|e es IH]; simpl; intros m H; [assumption|].
  apply IH. now apply set_keys_NoDup.
Qed.

Lemma of_entries_keys_NoDup (es : list (K * V)) :
  NoDup (JsMap.keys (of_entries es)).
Proof. apply fold_set_keys_NoDup. constructor. Qed.

End WithKey.

End JsMapFacts.

(* ================================================================== *)
(** * Facts on [handleGraphUpdate] *)
(* ================================================================== *)

Module GraphStoreFacts.

Import Js GraphStore.

Lemma str_eqb_eq (a b : Str) : str_eqb a b = true <-> a = b.
Proof.
  destruct a as [s|], b as [t|]; simpl; try (split; congruence).
  rewrite String.eqb_eq. split; congruence.
Qed.

Lemma string_eqb_eq (a b : string) : String.eqb a b = true <-> a = b.
Proof. apply String.eqb_eq. Qed.

Lemma str_eqb_refl (a : Str) : str_eqb a a = true.
Proof. now apply str_eqb_eq. Qed.

Lemma hasNode_In (i : Str) (g : GraphData.t) :
  hasNode i g = true <->
  exists n, In n (GraphData.nodes g) /\ GraphNode.id n = i.
Proof.
  unfold hasNode. rewrite existsb_exists.
  split; intros [n [Hn E]]; exists n; split; auto; now apply str_eqb_eq.
Qed.

(** ** The invariant of the two maps inside one call *)

Lemma nodesMapOf_keysOk (g : GraphData.t) : keysOk (nodesMapOf g).
Proof.
  intros k n H. apply (JsMapFacts.of_entries_In _ str_eqb_eq) in H.
  apply in_map_iff in H as [n' [E _]]. now injection E as <- <-.
Qed.

Lemma nodesMapOf_has (g : GraphData.t) (i : Str) :
  JsMap.has str_eqb i (nodesMapOf g) = hasNode i g.
Proof.
  apply eq_true_iff_eq.
  unfold nodesMapOf. rewrite (JsMapFacts.of_entries_has _ str_eqb_eq).
  rewrite map_map. simpl. rewrite hasNode_In, in_map_iff.
  split; intros [n H]; exists n; tauto.
Qed.

Lemma linksMapOf_In (g : GraphData.t) (k : string) (l : GraphLink.t) :
  In (k, l) (linksMapOf g) -> In l (GraphData.links g) /\ k = keyOfLink l.
Proof.
  intros H. apply (JsMapFacts.of_entries_In _ string_eqb_eq) in H.
  apply in_map_iff in H as [l' [E H]]. injection E as <- <-. auto.
Qed.

Lemma linksOk_mono (nm nm' : NodesMap) (lm : LinksMap) :
  (forall i, JsMap.has str_eqb i nm = true -> JsMap.has str_eqb i nm' = true) ->
  linksOk nm lm -> linksOk nm' lm.
Proof. intros Hm H k l Hin. destruct (H k l Hin). split; auto. Qed.

Lemma linksOk_set (nm : NodesMap) (lm : LinksMap) (k : string)
    (l : GraphLink.t) :
  linksOk nm lm ->
  JsMap.has str_eqb (GraphLink.id_of (GraphLink.source l)) nm = true ->
  JsMap.has str_eqb (GraphLink.id_of (GraphLink.target l)) nm = true ->
  linksOk nm (JsMap.set String.eqb k l lm).
Proof.
  intros H Hs Ht k' l' Hin.
  apply (JsMapFacts.set_In _ string_eqb_eq) in Hin as [Hin|[_ ->]]; eauto.
Qed.

Lemma keysOk_set (nm : NodesMap) (n : GraphNode.t) :
  keysOk nm -> keysOk (JsMap.set str_eqb (GraphNode.id n) n nm).
Proof.
  intros H k n' Hin.
  apply (JsMapFacts.set_In _ str_eqb_eq) in Hin as [Hin|[-> ->]]; eauto.
Qed.

Lemma conceptStep_inv (base : NodesMap) (f : Str)
    (st : NodesMap * LinksMap) (c : Concept.t) :
  (truthy f = true -> JsMap.has str_eqb f base = true) ->
  stepInv base st -> stepInv base (conceptStep f st c).
Proof.
  intros Hf [Hk Hg Hl]. destruct st as [nm lm]. simpl in *.
  unfold conceptStep.
  destruct (JsMap.get str_eqb (Concept.id c) nm) as [existing|] eqn:E.
  - (* the node is there: its importance grows *)
    assert (Hid : GraphNode.id existing = Concept.id c).
    { apply Hk. now apply (JsMapFacts.get_In _ str_eqb_eq). }
    split; simpl.
    + rewrite <- Hid.
      apply (keysOk_set nm (GraphNode.with_val existing _)). assumption.
    + intros i Hi. apply JsMapFacts.has_set_mono; auto.
    + eapply linksOk_mono; [|eassumption].
      intros i Hi. now apply JsMapFacts.has_set_mono.
  - (* a new node, and maybe a link from the focus *)
    set (node := GraphNode.mk (Concept.id c) (Concept.label c)
                   (Concept.importance c) None None).
    set (nm' := JsMap.set str_eqb (Concept.id c) node nm).
    assert (Hk' : keysOk nm') by (apply (keysOk_set nm node); assumption).
    assert (Hm : forall i, JsMap.has str_eqb i nm = true ->
                           JsMap.has str_eqb i nm' = true).
    { intros i Hi. now apply JsMapFacts.has_set_mono. }
    assert (Hl' : linksOk nm' lm) by (eapply linksOk_mono; eassumption).
    destruct (truthy f && negb (str_eqb f (Concept.id c))) eqn:Efocus;
      [|split; simpl; auto].
    destruct (negb (JsMap.has String.eqb (pairKey f (Concept.id c)) lm)
              && negb (JsMap.has String.eqb (pairKey (Concept.id c) f) lm));
      [|split; simpl; auto].
    apply andb_true_iff in Efocus as [Ht _].
    split; simpl; auto.
    apply linksOk_set; simpl; auto.
    apply (JsMapFacts.has_set_same _ str_eqb_eq).
Qed.

Lemma conceptSteps_inv (base : NodesMap) (f : Str) (cs : list Concept.t)
    (st : NodesMap * LinksMap) :
  (truthy f = true -> JsMap.has str_eqb f base = true) ->
  stepInv base st -> stepInv base (fold_left (conceptStep f) cs st).
Proof.
  intros Hf. revert st.
  induction cs as [|c cs IH]; simpl; intros st H; [assumption|].
  apply IH. now apply conceptStep_inv.
Qed.

Lemma relationshipStep_linksOk (nm : NodesMap) (lm : LinksMap)
    (r : Relationship.t) :
  linksOk nm lm -> linksOk nm (relationshipStep nm lm r).
Proof.
  intros H. unfold relationshipStep.
  destruct (JsMap.has str_eqb (Relationship.source_id r) nm) eqn:Es;
    [|assumption].
  destruct (JsMap.has str_eqb (Relationship.target_id r) nm) eqn:Et;
    [|assumption].
  simpl.
  destruct (JsMap.get String.eqb _ lm) as [existing|] eqn:E.
  - apply (JsMapFacts.get_In _ string_eqb_eq) in E. apply H in E.
    apply linksOk_set; simpl; tauto.
  - apply linksOk_set; simpl; auto.
Qed.

Lemma relationshipSteps_linksOk (nm : NodesMap) (rs : list Relationship.t)
    (lm : LinksMap) :
  linksOk nm lm -> linksOk nm (fold_left (relationshipStep nm) rs lm).
Proof.
  revert lm. induction rs as [|r rs IH]; simpl; intros lm H; [assumption|].
  apply IH. now apply relationshipStep_linksOk.
Qed.

(** One call keeps the graph free of dangling links when its focus, if set,
    is a node of the graph. *)
Lemma applyUpdate_noDangling (g : GraphData.t) (f : Str) (u : Update.t) :
  focusOk g f = true -> noDangling g -> noDangling (applyUpdate g f u).
Proof.
  intros Hf Hg.
  assert (Hfocus : truthy f = true ->
                   JsMap.has str_eqb f (nodesMapOf g) = true).
  { intros Ht. unfold focusOk in Hf. rewrite Ht in Hf.
    now rewrite nodesMapOf_has. }
  assert (H0 : stepInv (nodesMapOf g) (nodesMapOf g, linksMapOf g)).
  { split; simpl; auto using nodesMapOf_keysOk.
    intros k l Hin. apply linksMapOf_In in Hin as [Hin _].
    rewrite !nodesMapOf_has. now apply Hg. }
  unfold applyUpdate, handleGraphUpdate.
  set (st1 := match Update.concepts u with
              | Some cs => fold_left (conceptStep f) cs
                             (nodesMapOf g, linksMapOf g)
              | None => (nodesMapOf g, linksMapOf g)
              end).
  assert (H1 : stepInv (nodesMapOf g) st1).
  { subst st1. destruct (Update.concepts u); [|assumption].
    now apply conceptSteps_inv. }
  destruct H1 as [Hk _ Hl].
  set (lm2 := match Update.relationships u with
              | Some rs => fold_left (relationshipStep (fst st1)) rs (snd st1)
              | None => snd st1
              end).
  assert (H2 : linksOk (fst st1) lm2).
  { subst lm2. destruct (Update.relationships u); [|assumption].
    now apply relationshipSteps_linksOk. }
  intros l Hin. simpl in Hin. unfold JsMap.values in Hin.
  apply in_map_iff in Hin as [[k l'] [E Hin]]. simpl in E. subst l'.
  assert (Hn : forall i, JsMap.has str_eqb i (fst st1) = true ->
               hasNode i (GraphData.mk (JsMap.values (fst st1))
                                       (JsMap.values lm2)) = true).
  { intros i Hi. apply (JsMapFacts.has_In _ str_eqb_eq) in Hi as [n Hi].
    apply hasNode_In. exists n. split; [|now apply Hk].
    simpl. unfold JsMap.values. apply in_map_iff. now exists (i, n). }
  destruct (H2 k l Hin). split; now apply Hn.
Qed.

Lemma noDangling_empty : noDangling GraphData.empty.
Proof. intros l []. Qed.

Lemma graphsOf_noDangling (calls : list (Str * Update.t)) (g : GraphData.t) :
  callsOk g calls = true -> noDangling g ->
  Forall noDangling (graphsOf g calls).
Proof.
  revert g. induction calls as [|[f u] calls IH]; simpl; intros g Hc Hg.
  - constructor; [assumption | constructor].
  - apply andb_true_iff in Hc as [Hf Hc].
    constructor; [assumption|].
    apply IH; [assumption|]. now apply applyUpdate_noDangling.
Qed.


(** ** What a call does to the node map *)

Lemma conceptStep_fst (f : Str) (st : NodesMap * LinksMap) (c : Concept.t) :
  fst (conceptStep f st c)
  = JsMap.set str_eqb (Concept.id c) (mergedNode (fst st) c) (fst st).
Proof.
  destruct st as [nm lm]. unfold conceptStep, mergedNode. simpl.
  destruct (JsMap.get str_eqb (Concept.id c) nm); [reflexivity|].
  destruct (truthy f && _); [|reflexivity].
  destruct (negb _ && _); reflexivity.
Qed.

Lemma conceptStep_has_mono (f : Str) (st : NodesMap * LinksMap)
    (c : Concept.t) (i : Str) :
  JsMap.has str_eqb i (fst st) = true ->
  JsMap.has str_eqb i (fst (conceptStep f st c)) = true.
Proof. rewrite conceptStep_fst. apply JsMapFacts.has_set_mono. Qed.

Lemma conceptSteps_has_mono (f : Str) (cs : list Concept.t)
    (st : NodesMap * LinksMap) (i : Str) :
  JsMap.has str_eqb i (fst st) = true ->
  JsMap.has str_eqb i (fst (fold_left (conceptStep f) cs st)) = true.
Proof.
  revert st. induction cs as [|c cs IH]; simpl; intros st H; [assumption|].
  apply IH. now apply conceptStep_has_mono.
Qed.


Lemma mergedNode_id (nm : NodesMap) (c : Concept.t) :
  keysOk nm -> GraphNode.id (mergedNode nm c) = Concept.id c.
Proof.
  intros Hk. unfold mergedNode.
  destruct (JsMap.get str_eqb (Concept.id c) nm) as [e|] eqn:E; [|reflexivity].
  simpl. apply Hk. now apply (JsMapFacts.get_In _ str_eqb_eq).
Qed.

Lemma conceptSteps_keysOk (f : Str) (cs : list Concept.t)
    (st : NodesMap * LinksMap) :
  keysOk (fst st) -> keysOk (fst (fold_left (conceptStep f) cs st)).
Proof.
  revert st. induction cs as [|c cs IH]; simpl; intros st H; [assumption|].
  apply IH. rewrite conceptStep_fst.
  rewrite <- (mergedNode_id (fst st) c H) at 1.
  now apply keysOk_set.
Qed.

(** The nodes a call returns are the values of the node map after the
    concepts: the relationships add none. *)
Lemma applyUpdate_nodes (g : GraphData.t) (f : Str) (u : Update.t) :
  GraphData.nodes (applyUpdate g f u)
  = JsMap.values
      (fst match Update.concepts u with
           | Some cs => fold_left (conceptStep f) cs
                          (nodesMapOf g, linksMapOf g)
           | None => (nodesMapOf g, linksMapOf g)
           end).
Proof. reflexivity. Qed.

Lemma keysOk_hasNode (nm : NodesMap) (ls : list GraphLink.t) (i : Str) :
  keysOk nm ->
  JsMap.has str_eqb i nm = hasNode i (GraphData.mk (JsMap.values nm) ls).
Proof.
  intros Hk. apply eq_true_iff_eq. rewrite hasNode_In. simpl. split.
  - intros H. apply (JsMapFacts.has_In _ str_eqb_eq) in H as [n H].
    exists n. split; [|now apply Hk].
    unfold JsMap.values. apply in_map_iff. now exists (i, n).
  - intros [n [H E]]. unfold JsMap.values in H.
    apply in_map_iff in H as [[k n'] [E' H]]. simpl in E'. subst n'.
    rewrite (Hk _ _ H) in E. subst k.
    eapply (JsMapFacts.In_has _ str_eqb_eq); eassumption.
Qed.

Lemma conceptSteps_keys_NoDup (f : Str) (cs : list Concept.t)
    (st : NodesMap * LinksMap) :
  NoDup (JsMap.keys (fst st)) ->
  NoDup (JsMap.keys (fst (fold_left (conceptStep f) cs st))).
Proof.
  revert st. induction cs as [|c cs IH]; simpl; intros st H; [assumption|].
  apply IH. rewrite conceptStep_fst.
  now apply (JsMapFacts.set_keys_NoDup _ str_eqb_eq).
Qed.

Lemma keysOk_ids (nm : NodesMap) :
  keysOk nm -> map GraphNode.id (JsMap.values nm) = JsMap.keys nm.
Proof.
  unfold JsMap.values, JsMap.keys.
  induction nm as [|[k n] nm IH]; simpl; intros H; [reflexivity|].
  rewrite (H k n) by now left.
  f_equal. apply IH. intros k' n' Hin. apply H. now right.
Qed.

(** The ids of the nodes a call returns are distinct, whatever graph it was
    given. *)
Lemma applyUpdate_ids_NoDup (g : GraphData.t) (f : Str) (u : Update.t) :
  NoDup (map GraphNode.id (GraphData.nodes (applyUpdate g f u))).
Proof.
  rewrite applyUpdate_nodes.
  assert (Hk : keysOk (nodesMapOf g)) by apply nodesMapOf_keysOk.
  assert (Hn : NoDup (JsMap.keys (nodesMapOf g)))
    by apply (JsMapFacts.of_entries_keys_NoDup _ str_eqb_eq).
  destruct (Update.concepts u) as [cs|]; rewrite keysOk_ids.
  - now apply conceptSteps_keys_NoDup.
  - now apply conceptSteps_keysOk.
  - assumption.
  - assumption.
Qed.

(** ** A graph whose node ids are distinct *)

Lemma nodesMapOf_NoDup (g : GraphData.t) :
  NoDup (map GraphNode.id (GraphData.nodes g)) ->
  nodesMapOf g = entriesOf (GraphData.nodes g).
Proof.
  intros H. unfold nodesMapOf.
  apply (JsMapFacts.of_entries_NoDup _ str_eqb_eq).
  unfold entriesOf. now rewrite map_map.
Qed.

Lemma get_entriesOf (ns : list GraphNode.t) (i : Str) :
  JsMap.get str_eqb i (entriesOf ns)
  = find (fun n => str_eqb (GraphNode.id n) i) ns.
Proof.
  induction ns as [|n ns IH]; simpl; [reflexivity|].
  destruct (str_eqb (GraphNode.id n) i); auto.
Qed.

Lemma set_entriesOf (ns : list GraphNode.t) (i : Str) (n n' : GraphNode.t) :
  GraphNode.id n' = i ->
  find (fun m => str_eqb (GraphNode.id m) i) ns = Some n ->
  let vs := JsMap.values (JsMap.set str_eqb i n' (entriesOf ns)) in
  map GraphNode.id vs = map GraphNode.id ns /\
  find (fun m => str_eqb (GraphNode.id m) i) vs = Some n'.
Proof.
  intros Hid. induction ns as [|m ns IH]; simpl; [discriminate|].
  destruct (str_eqb (GraphNode.id m) i) eqn:E; simpl.
  - intros _. apply str_eqb_eq in E.
    rewrite Hid, str_eqb_refl. split; [|reflexivity].
    f_equal; [congruence|].
    unfold JsMap.values, entriesOf. rewrite !map_map. reflexivity.
  - intros H. rewrite E. destruct (IH H) as [H1 H2]. split; [|assumption].
    f_equal. assumption.
Qed.

(** ** What a call does to the link map *)

Lemma linksMapOf_keysOk (g : GraphData.t) : linkKeysOk (linksMapOf g).
Proof. intros k l H. now apply linksMapOf_In in H. Qed.

Lemma linksMapOf_has (g : GraphData.t) (key : string) :
  JsMap.has String.eqb key (linksMapOf g) = keyStored key g.
Proof.
  apply eq_true_iff_eq. unfold linksMapOf, keyStored.
  rewrite (JsMapFacts.of_entries_has _ string_eqb_eq).
  rewrite map_map, existsb_exists, in_map_iff. simpl.
  split; intros [l [H1 H2]]; exists l.
  - split; [assumption|]. now apply String.eqb_eq.
  - split; [|assumption]. now apply String.eqb_eq.
Qed.

Lemma linkKeysOk_set (lm : LinksMap) (l : GraphLink.t) :
  linkKeysOk lm -> linkKeysOk (JsMap.set String.eqb (keyOfLink l) l lm).
Proof.
  intros H k l' Hin.
  apply (JsMapFacts.set_In _ string_eqb_eq) in Hin as [Hin|[-> ->]]; auto.
Qed.

Lemma entries_of_values (lm : LinksMap) :
  linkKeysOk lm ->
  map (fun l => (keyOfLink l, l)) (JsMap.values lm) = lm.
Proof.
  induction lm as [|[k l] lm IH]; simpl; intros H; [reflexivity|].
  rewrite <- (H k l) by now left.
  f_equal. apply IH. intros k' l' Hin. apply H. now right.
Qed.

(** The link map rebuilt from the links a call returned is the link map
    the call ended with. *)
Lemma linksMapOf_values (ns : list GraphNode.t) (lm : LinksMap) :
  linkKeysOk lm -> NoDup (JsMap.keys lm) ->
  linksMapOf (GraphData.mk ns (JsMap.values lm)) = lm.
Proof.
  intros Hk Hnd. unfold linksMapOf. simpl.
  rewrite (entries_of_values lm Hk).
  now apply (JsMapFacts.of_entries_NoDup _ string_eqb_eq).
Qed.

Lemma conceptStep_existing (f : Str) (nm : NodesMap) (lm : LinksMap)
    (c : Concept.t) (existing : GraphNode.t) :
  JsMap.get str_eqb (Concept.id c) nm = Some existing ->
  conceptStep f (nm, lm) c
  = (JsMap.set str_eqb (Concept.id c)
       (GraphNode.with_val existing
          (Math_min 20 (GraphNode.val existing + Concept.importance c * 0.5)))
       nm, lm).
Proof. intros H. unfold conceptStep. now rewrite H. Qed.

Lemma conceptStep_contextual (f : Str) (nm : NodesMap) (lm : LinksMap)
    (c : Concept.t) :
  JsMap.get str_eqb (Concept.id c) nm = None ->
  truthy f = true -> f <> Concept.id c ->
  JsMap.has String.eqb (pairKey f (Concept.id c)) lm = false ->
  JsMap.has String.eqb (pairKey (Concept.id c) f) lm = false ->
  conceptStep f (nm, lm) c
  = (JsMap.set str_eqb (Concept.id c)
       (GraphNode.mk (Concept.id c) (Concept.label c)
          (Concept.importance c) None None) nm,
     lm ++ [(pairKey f (Concept.id c), contextualLink f c)]).
Proof.
  intros Hget Ht Hne H1 H2. unfold conceptStep. rewrite Hget, Ht, H1, H2.
  assert (E : str_eqb f (Concept.id c) = false).
  { destruct (str_eqb f (Concept.id c)) eqn:E; [|reflexivity].
    apply str_eqb_eq in E. contradiction. }
  rewrite E. cbn [truthy negb andb].
  rewrite (JsMapFacts.set_absent String.eqb (pairKey f (Concept.id c)))
    by exact H1.
  reflexivity.
Qed.

Lemma between_key (a b : Str) (l : GraphLink.t) :
  between a b l = true ->
  keyOfLink l = pairKey a b \/ keyOfLink l = pairKey b a.
Proof.
  unfold between, keyOfLink. intros H.
  apply orb_true_iff in H as [H|H]; apply andb_true_iff in H as [H1 H2];
    apply str_eqb_eq in H1, H2; rewrite H1, H2; auto.
Qed.

Lemma filter_between_nil (a b : Str) (g : GraphData.t) :
  linkStored a b g = false -> linkStored b a g = false ->
  filter (between a b) (JsMap.values (linksMapOf g)) = [].
Proof.
  intros H1 H2.
  assert (Hall : forall l, In l (JsMap.values (linksMapOf g)) ->
                           between a b l = false).
  { intros l Hin. unfold JsMap.values in Hin.
    apply in_map_iff in Hin as [[k l'] [E Hin]]. simpl in E. subst l'.
    apply linksMapOf_In in Hin as [Hin _].
    destruct (between a b l) eqn:Hb; [|reflexivity].
    assert (Hs : forall key, keyOfLink l = key -> keyStored key g = true).
    { intros key <-. unfold keyStored. apply existsb_exists.
      exists l. split; [assumption | apply String.eqb_refl]. }
    unfold linkStored in *.
    apply between_key in Hb as [Hb|Hb]; apply Hs in Hb; congruence. }
  induction (JsMap.values (linksMapOf g)) as [|l ls IH]; [reflexivity|].
  simpl. rewrite (Hall l) by now left.
  apply IH. intros l' Hin. apply Hall. now right.
Qed.


Lemma conceptStep_linkKeys (f : Str) (st : NodesMap * LinksMap)
    (c : Concept.t) :
  linkKeysOk (snd st) /\ NoDup (JsMap.keys (snd st)) ->
  linkKeysOk (snd (conceptStep f st c))
  /\ NoDup (JsMap.keys (snd (conceptStep f st c))).
Proof.
  destruct st as [nm lm]. unfold conceptStep. simpl. intros [Hk Hn].
  destruct (JsMap.get str_eqb (Concept.id c) nm); [auto|].
  destruct (truthy f && _); [|auto].
  destruct (negb _ && _); [|auto]. simpl. split.
  - apply (linkKeysOk_set lm (contextualLink f c) Hk).
  - now apply (JsMapFacts.set_keys_NoDup _ string_eqb_eq).
Qed.

Lemma relationshipStep_linkKeys (nm : NodesMap) (lm : LinksMap)
    (r : Relationship.t) :
  linkKeysOk lm /\ NoDup (JsMap.keys lm) ->
  linkKeysOk (relationshipStep nm lm r)
  /\ NoDup (JsMap.keys (relationshipStep nm lm r)).
Proof.
  intros [Hk Hn]. unfold relationshipStep.
  destruct (JsMap.has str_eqb _ nm && JsMap.has str_eqb _ nm); [|auto].
  destruct (JsMap.get String.eqb _ lm) as [e|] eqn:E.
  - split; [|now apply (JsMapFacts.set_keys_NoDup _ string_eqb_eq)].
    apply (JsMapFacts.get_In _ string_eqb_eq) in E. rewrite (Hk _ _ E).
    apply (linkKeysOk_set lm (GraphLink.with_value e _) Hk).
  - split; [|now apply (JsMapFacts.set_keys_NoDup _ string_eqb_eq)].
    apply (linkKeysOk_set lm
             (GraphLink.mk (GraphLink.Id (Relationship.source_id r))
                (GraphLink.Id (Relationship.target_id r))
                (Relationship.strength r)) Hk).
Qed.

Lemma linkKeysOk_keys (lm : LinksMap) :
  linkKeysOk lm -> map keyOfLink (JsMap.values lm) = JsMap.keys lm.
Proof.
  unfold JsMap.values, JsMap.keys.
  induction lm as [|[k l] lm IH]; simpl; intros H; [reflexivity|].
  rewrite <- (H k l) by now left.
  f_equal. apply IH. intros k' l' Hin. apply H. now right.
Qed.

(** The keys of the links a call returns are distinct, whatever graph it
    was given. *)
Lemma applyUpdate_linkKeys_NoDup (g : GraphData.t) (f : Str) (u : Update.t) :
  NoDup (map keyOfLink (GraphData.links (applyUpdate g f u))).
Proof.
  unfold applyUpdate, handleGraphUpdate. cbn [GraphData.links].
  set (st0 := (nodesMapOf g, linksMapOf g)).
  assert (H0 : linkKeysOk (snd st0) /\ NoDup (JsMap.keys (snd st0))).
  { split; [apply linksMapOf_keysOk|].
    apply (JsMapFacts.of_entries_keys_NoDup _ string_eqb_eq). }
  assert (H1 : forall cs st,
             linkKeysOk (snd st) /\ NoDup (JsMap.keys (snd st)) ->
             linkKeysOk (snd (fold_left (conceptStep f) cs st))
             /\ NoDup (JsMap.keys (snd (fold_left (conceptStep f) cs st)))).
  { induction cs as [|c cs IH]; simpl; intros st H; [assumption|].
    apply IH. now apply conceptStep_linkKeys. }
  assert (H2 : forall nm rs lm,
             linkKeysOk lm /\ NoDup (JsMap.keys lm) ->
             linkKeysOk (fold_left (relationshipStep nm) rs lm)
             /\ NoDup (JsMap.keys (fold_left (relationshipStep nm) rs lm))).
  { intros nm. induction rs as [|r rs IH]; simpl; intros lm H; [assumption|].
    apply IH. now apply relationshipStep_linkKeys. }
  set (st1 := match Update.concepts u with
              | Some cs => fold_left (conceptStep f) cs st0
              | None => st0
              end).
  assert (Hst1 : linkKeysOk (snd st1) /\ NoDup (JsMap.keys (snd st1))).
  { subst st1. destruct (Update.concepts u); auto. }
  destruct (Update.relationships u) as [rs|].
  - destruct (H2 (fst st1) rs (snd st1) Hst1) as [Hk Hn].
    now rewrite linkKeysOk_keys.
  - destruct Hst1 as [Hk Hn]. now rewrite linkKeysOk_keys.
Qed.

(** ** Keys and pairs of ids *)

Lemma hyphen_split (a c b d : string) :
  hyphenFree a = true -> hyphenFree c = true ->
  (a ++ "-" ++ b = c ++ "-" ++ d)%string -> a = c /\ b = d.
Proof.
  revert c. induction a as [|x a IH]; intros [|y c]; simpl; intros Ha Hc E.
  - injection E as E. auto.
  - injection E as E _. subst y. discriminate.
  - injection E as E _. subst x. discriminate.
  - apply andb_true_iff in Ha as [_ Ha]. apply andb_true_iff in Hc as [_ Hc].
    injection E as -> E. destruct (IH c Ha Hc E) as [-> ->]. auto.
Qed.

(** On ids without hyphen the key tells the pair. *)
Lemma pairKey_inj (a b c d : Str) :
  plainId a = true -> plainId b = true ->
  plainId c = true -> plainId d = true ->
  pairKey a b = pairKey c d -> a = c /\ b = d.
Proof.
  destruct a as [a|], b as [b|], c as [c|], d as [d|]; try discriminate.
  unfold pairKey. simpl. intros Ha _ Hc _ E.
  destruct (hyphen_split a c b d Ha Hc E) as [-> ->]. auto.
Qed.

(** On a graph whose links join ids without hyphen, the test of the code for
    a link between [a] and [b] finds nothing when no link joins them. *)
Lemma linkStored_between (g : GraphData.t) (a b : Str) :
  plainLinks g = true -> plainId a = true -> plainId b = true ->
  filter (between a b) (GraphData.links g) = [] ->
  linkStored a b g = false /\ linkStored b a g = false.
Proof.
  intros Hg Ha Hb Hnone.
  assert (H : forall x y, (x = a /\ y = b) \/ (x = b /\ y = a) ->
                          plainId x = true -> plainId y = true ->
                          linkStored x y g = false).
  { intros x y Hxy Hx Hy.
    destruct (linkStored x y g) eqn:E; [|reflexivity].
    unfold linkStored, keyStored in E.
    apply existsb_exists in E as [l [Hin E]]. apply String.eqb_eq in E.
    unfold plainLinks in Hg. rewrite forallb_forall in Hg.
    specialize (Hg l Hin). apply andb_true_iff in Hg as [Hs Ht].
    destruct (pairKey_inj _ _ _ _ Hs Ht Hx Hy E) as [Es Et].
    assert (Hb' : between a b l = true).
    { unfold between. rewrite Es, Et.
      destruct Hxy as [[-> ->]|[-> ->]]; rewrite !str_eqb_refl; simpl;
        auto using orb_true_r. }
    assert (Hf : In l (filter (between a b) (GraphData.links g)))
      by (apply filter_In; auto).
    rewrite Hnone in Hf. destruct Hf. }
  split; apply H; auto.
Qed.

(** The keys of two pairs of ids can be one string when an id has a hyphen.
    In a graph that holds the link [a-b -> c], with the focus on [a] and the
    new concept [b-c]: no link joins [a] and [b-c], yet the key [a-b-c] is
    taken, and no link from [a] to [b-c] is added. *)
Remark pairKey_collision :
  pairKey (Some "a-b") (Some "c") = pairKey (Some "a") (Some "b-c")
  /\ linkStored (Some "a") (Some "b-c") graphHyphen = true
  /\ filter (between (Some "a") (Some "b-c")) (GraphData.links graphHyphen)
     = []
  /\ filter (between (Some "a") (Some "b-c"))
       (GraphData.links
          (applyUpdate graphHyphen (Some "a") (conceptEvent (concept "b-c" 4))))
     = [].
Proof. repeat split. Qed.

(** ** The claims on the merge *)

(** C1. In a run of calls from the empty graph in which the focus of each
    call, if set, is a node of the graph the call is applied to, no graph the
    run goes through - the last one included - has a link whose source or
    target is not a node of that graph. *)
Theorem C1_no_dangling_links (calls : list (Str * Update.t)) :
  callsOk GraphData.empty calls = true ->
  Forall noDangling (graphsOf GraphData.empty calls).
Proof.
  intros H. apply graphsOf_noDangling; [assumption|].
  apply noDangling_empty.
Qed.

Lemma C1_no_dangling_links_witness :
  callsOk GraphData.empty sampleCalls = true /\
  Forall noDangling (graphsOf GraphData.empty sampleCalls).
Proof.
  split; [reflexivity|].
  apply (C1_no_dangling_links sampleCalls). reflexivity.
Defined.

(** C2, what the code does. In a graph whose links have distinct keys, a
    relationship between two nodes of the graph under whose own key
    [`${source_id}-${target_id}`] no link is filed adds a link with the raw
    strength and leaves every link of the graph as it is - also when a link
    is filed for the same pair the other way round: that link is not
    strengthened, and the pair then has two links. *)
Theorem C2_relationship_ignores_reverse_link
    (g : GraphData.t) (f : Str) (r : Relationship.t) :
  NoDup (map keyOfLink (GraphData.links g)) ->
  hasNode (Relationship.source_id r) g = true ->
  hasNode (Relationship.target_id r) g = true ->
  linkStored (Relationship.source_id r) (Relationship.target_id r) g = false ->
  GraphData.links (applyUpdate g f (Update.mk (Some []) (Some [r])))
  = GraphData.links g
    ++ [GraphLink.mk (GraphLink.Id (Relationship.source_id r))
          (GraphLink.Id (Relationship.target_id r))
          (Relationship.strength r)].
Proof.
  intros Hnd Hs Ht Hkey.
  assert (Hlm : linksMapOf g
                = map (fun l => (keyOfLink l, l)) (GraphData.links g)).
  { apply (JsMapFacts.of_entries_NoDup _ string_eqb_eq).
    now rewrite map_map. }
  assert (Hvals : JsMap.values (linksMapOf g) = GraphData.links g).
  { rewrite Hlm. unfold JsMap.values. rewrite map_map. apply map_id. }
  unfold applyUpdate, handleGraphUpdate.
  cbn [Update.concepts Update.relationships fold_left fst snd].
  unfold relationshipStep.
  rewrite !nodesMapOf_has, Hs, Ht.
  assert (Hhas : JsMap.has String.eqb
                   (pairKey (Relationship.source_id r)
                            (Relationship.target_id r))
                   (linksMapOf g) = false)
    by now rewrite linksMapOf_has.
  apply JsMapFacts.get_None_has in Hhas as Hget. rewrite Hget.
  cbn [andb GraphData.links].
  rewrite JsMapFacts.set_absent by exact Hhas.
  unfold JsMap.values in *. rewrite map_app, Hvals. reflexivity.
Qed.

Lemma C2_relationship_ignores_reverse_link_witness :
  GraphData.links (applyUpdate graphAB None eventBA)
  = [link "a" "b" 2; link "b" "a" 4].
Proof.
  apply (C2_relationship_ignores_reverse_link graphAB None
           (Relationship.mk (Some "b") (Some "a") 4)).
  - repeat constructor. simpl. tauto.
  - reflexivity.
  - reflexivity.
  - reflexivity.
Defined.

(** C3. In a graph whose node ids are distinct and that holds a node with
    id [i] and importance [v], a call whose event has the one concept
    [{id: i, importance: w}] returns as many nodes, under the same ids in the
    same order (no duplicate of [i] is made), and the node under [i] is the
    old one with its importance set to [Math.min(20, v + w * 0.5)]; with
    [v = 10] and [w = 10] that importance is 15. The focus and the
    relationships of the event make no difference. *)
Theorem C3_existing_concept_grows_importance
    (g : GraphData.t) (f : Str) (rs : option (list Relationship.t))
    (n : GraphNode.t) (c : Concept.t) :
  NoDup (map GraphNode.id (GraphData.nodes g)) ->
  getNode (Concept.id c) g = Some n ->
  let g' := applyUpdate g f (Update.mk (Some [c]) rs) in
  List.length (GraphData.nodes g') = List.length (GraphData.nodes g)
  /\ map GraphNode.id (GraphData.nodes g')
     = map GraphNode.id (GraphData.nodes g)
  /\ getNode (Concept.id c) g'
     = Some (GraphNode.with_val n
               (Math_min 20 (GraphNode.val n + Concept.importance c * 0.5)))
  /\ (GraphNode.val n = 10 -> Concept.importance c = 10 ->
      option_map GraphNode.val (getNode (Concept.id c) g') = Some 15).
Proof.
  intros Hnd Hn g'.
  assert (Hnodes : GraphData.nodes g'
    = JsMap.values
        (JsMap.set str_eqb (Concept.id c)
           (GraphNode.with_val n
              (Math_min 20 (GraphNode.val n + Concept.importance c * 0.5)))
           (entriesOf (GraphData.nodes g)))).
  { subst g'. rewrite applyUpdate_nodes.
    cbn [Update.concepts fold_left]. rewrite conceptStep_fst.
    cbn [fst]. unfold mergedNode.
    rewrite (nodesMapOf_NoDup g Hnd), get_entriesOf.
    unfold getNode in Hn. rewrite Hn. reflexivity. }
  assert (Hid : GraphNode.id
                  (GraphNode.with_val n
                     (Math_min 20
                        (GraphNode.val n + Concept.importance c * 0.5)))
                = Concept.id c).
  { simpl. unfold getNode in Hn. apply find_some in Hn as [_ Hn].
    now apply str_eqb_eq. }
  destruct (set_entriesOf (GraphData.nodes g) (Concept.id c) n _ Hid Hn)
    as [Hids Hfind].
  rewrite <- Hnodes in Hids, Hfind.
  assert (Hget : getNode (Concept.id c) g'
                 = Some (GraphNode.with_val n
                           (Math_min 20 (GraphNode.val n
                                         + Concept.importance c * 0.5))))
    by exact Hfind.
  repeat split.
  - rewrite <- (length_map GraphNode.id), Hids. apply length_map.
  - assumption.
  - assumption.
  - intros Hv Hw. rewrite Hget. simpl. rewrite Hv, Hw. reflexivity.
Qed.

Lemma C3_existing_concept_grows_importance_witness :
  option_map GraphNode.val
    (getNode (Some "a")
       (applyUpdate graphAB None (Update.mk (Some [concept "a" 10]) None)))
  = Some 15.
Proof.
  apply (C3_existing_concept_grows_importance graphAB None None
           (node "a" 10) (concept "a" 10)).
  - repeat constructor; simpl; intuition discriminate.
  - reflexivity.
  - reflexivity.
  - reflexivity.
Defined.

(** C4 as the claim has it fails when an id has a hyphen: the graph
    [graphHyphen] has the nodes [a], [a-b] and [c] and the one link
    [a-b -> c]; with the focus on the node [a], the concept [b-c] is new,
    differs from the focus, and no link joins [a] and [b-c] in either
    direction; yet the graph returned has no link between [a] and [b-c],
    where the claim has exactly one: the key [a-b-c] of the pair is the key
    of the link [a-b -> c]. *)
Lemma C4_hyphen_id_blocks_the_link :
  truthy (Some "a") = true
  /\ hasNode (Some "a") graphHyphen = true
  /\ hasNode (Some "b-c") graphHyphen = false
  /\ str_eqb (Some "a") (Some "b-c") = false
  /\ filter (between (Some "a") (Some "b-c")) (GraphData.links graphHyphen)
     = []
  /\ hasNode (Some "b-c")
       (applyUpdate graphHyphen (Some "a") (conceptEvent (concept "b-c" 4)))
     = true
  /\ filter (between (Some "a") (Some "b-c"))
       (GraphData.links
          (applyUpdate graphHyphen (Some "a")
             (conceptEvent (concept "b-c" 4))))
     = [].
Proof. repeat split. Qed.

(** C4, amended. With the focus on [A] and a concept whose id [B] is new to
    the graph and differs from [A]: if no link is filed under the key of
    [(A, B)] or of [(B, A)] - which is so, in particular, when the ids of
    [A], of [B] and of the ends of every link have no hyphen and no link
    joins [A] and [B] in either direction - then the graph returned has
    exactly one link between [A] and [B], it goes from [A] to [B] and has
    strength 3; and the same event applied again, the focus still on [A],
    leaves the links as they are. *)
Theorem C4_contextual_link_once (g : GraphData.t) (A : Str) (c : Concept.t) :
  truthy A = true ->
  hasNode (Concept.id c) g = false ->
  A <> Concept.id c ->
  (linkStored A (Concept.id c) g = false
   /\ linkStored (Concept.id c) A g = false)
  \/ (plainLinks g = true /\ plainId A = true
      /\ plainId (Concept.id c) = true
      /\ filter (between A (Concept.id c)) (GraphData.links g) = []) ->
  let g1 := applyUpdate g A (conceptEvent c) in
  let g2 := applyUpdate g1 A (conceptEvent c) in
  filter (between A (Concept.id c)) (GraphData.links g1)
  = [GraphLink.mk (GraphLink.Id A) (GraphLink.Id (Concept.id c)) 3]
  /\ GraphData.links g2 = GraphData.links g1.
Proof.
  intros Ht Hnew Hne Hfree g1 g2.
  assert (H12 : linkStored A (Concept.id c) g = false
                /\ linkStored (Concept.id c) A g = false).
  { destruct Hfree as [Hkeys|[Hplain [HpA [HpB Hnone]]]]; [exact Hkeys|].
    now apply linkStored_between. }
  destruct H12 as [H1 H2]. clear Hfree.
  set (B := Concept.id c) in *.
  set (node := GraphNode.mk B (Concept.label c) (Concept.importance c)
                 None None).
  set (lm1 := linksMapOf g ++ [(pairKey A B, contextualLink A c)]).
  assert (Hget : JsMap.get str_eqb B (nodesMapOf g) = None).
  { apply JsMapFacts.get_None_has. now rewrite nodesMapOf_has. }
  assert (Hg1 : g1 = GraphData.mk
                       (JsMap.values (JsMap.set str_eqb B node (nodesMapOf g)))
                       (JsMap.values lm1)).
  { subst g1. unfold applyUpdate, handleGraphUpdate, conceptEvent.
    cbn [Update.concepts Update.relationships fold_left].
    rewrite conceptStep_contextual; try assumption;
      try (now rewrite linksMapOf_has).
    reflexivity. }
  assert (Hset : lm1 = JsMap.set String.eqb
                         (keyOfLink (contextualLink A c))
                         (contextualLink A c) (linksMapOf g)).
  { symmetry. apply JsMapFacts.set_absent.
    now rewrite linksMapOf_has. }
  split.
  - rewrite Hg1. simpl. subst lm1. unfold JsMap.values.
    rewrite map_app, filter_app.
    change (map snd (linksMapOf g)) with (JsMap.values (linksMapOf g)).
    rewrite (filter_between_nil A B g H1 H2). simpl.
    unfold between. simpl. now rewrite !str_eqb_refl.
  - assert (Hk1 : linkKeysOk lm1).
    { rewrite Hset. apply linkKeysOk_set, linksMapOf_keysOk. }
    assert (Hnd1 : NoDup (JsMap.keys lm1)).
    { rewrite Hset. apply (JsMapFacts.set_keys_NoDup _ string_eqb_eq).
      apply (JsMapFacts.of_entries_keys_NoDup _ string_eqb_eq). }
    assert (Hhas : JsMap.has str_eqb B (nodesMapOf g1) = true).
    { rewrite nodesMapOf_has, Hg1.
      rewrite <- keysOk_hasNode.
      - apply (JsMapFacts.has_set_same _ str_eqb_eq).
      - apply (keysOk_set (nodesMapOf g) node), nodesMapOf_keysOk. }
    destruct (JsMap.get str_eqb B (nodesMapOf g1)) as [existing|] eqn:E;
      [|apply JsMapFacts.get_None_has in E; congruence].
    subst g2. unfold applyUpdate, handleGraphUpdate, conceptEvent.
    cbn [Update.concepts Update.relationships fold_left].
    rewrite (conceptStep_existing A _ _ c existing E).
    cbn [fst snd GraphData.links].
    rewrite Hg1 at 1. rewrite (linksMapOf_values _ lm1 Hk1 Hnd1).
    now rewrite Hg1.
Qed.

Lemma C4_contextual_link_once_witness :
  filter (between (Some "a") (Some "c"))
    (GraphData.links
       (applyUpdate graphAB (Some "a") (conceptEvent (concept "c" 1))))
  = [link "a" "c" 3]
  /\ GraphData.links
       (applyUpdate
          (applyUpdate graphAB (Some "a") (conceptEvent (concept "c" 1)))
          (Some "a") (conceptEvent (concept "c" 1)))
     = GraphData.links
         (applyUpdate graphAB (Some "a") (conceptEvent (concept "c" 1))).
Proof.
  apply (C4_contextual_link_once graphAB (Some "a") (concept "c" 1));
    try (reflexivity || discriminate).
  right. repeat split.
Defined.


End GraphStoreFacts.

(* ================================================================== *)
(** * Facts on the gesture state machine *)
(* ================================================================== *)

Module GestureFacts.

Import Js Gesture.

(** [predictWebcam] does to the refs what [stepOf] says for the class of
    the frame. *)
Lemma predictWebcam_stepOf (st : State) (fr : Frame) :
  fst (predictWebcam st fr)
  = stepOf (classify fr) st (hoveredNodeId fr) (focusedNodeId fr).
Proof.
  unfold predictWebcam, classify, stepOf.
  destruct (landmarks fr) as [[|hand rest]|]; try reflexivity.
  destruct (pinchDistance hand <? 0.05).
  - destruct ((5 <? pinchDuration st + 1) && negb (hasTriggered st));
      [destruct (truthy (hoveredNodeId fr))|]; reflexivity.
  - destruct (0.20 <? pinchDistance hand); [|reflexivity].
    destruct ((8 <? spreadDuration st + 1) && negb (hasTriggered st));
      reflexivity.
Qed.

Lemma run_cons (st : State) (fr : Frame) (frs : list Frame) :
  run st (fr :: frs)
  = let r := stepOf (classify fr) st (hoveredNodeId fr) (focusedNodeId fr) in
    (fst (run (fst r) frs),
     match snd r with
     | Some e => e :: snd (run (fst r) frs)
     | None => snd (run (fst r) frs)
     end).
Proof.
  simpl. rewrite <- predictWebcam_stepOf.
  destruct (predictWebcam st fr) as [[st' ev] c]. simpl.
  destruct (run st' frs). reflexivity.
Qed.

Lemma run_app (st : State) (a b : list Frame) :
  run st (a ++ b)
  = (fst (run (fst (run st a)) b),
     snd (run st a) ++ snd (run (fst (run st a)) b)).
Proof.
  revert st. induction a as [|fr a IH]; intros st.
  - simpl. now destruct (run st b).
  - rewrite <- app_comm_cons, !run_cons. cbn zeta. rewrite IH. simpl.
    destruct (snd (stepOf _ _ _ _)); reflexivity.
Qed.

Lemma events_app (st : State) (a b : list Frame) :
  events st (a ++ b) = events st a ++ events (stateAfter st a) b.
Proof. unfold events, stateAfter. now rewrite run_app. Qed.

Lemma stateAfter_app (st : State) (a b : list Frame) :
  stateAfter st (a ++ b) = stateAfter (stateAfter st a) b.
Proof. unfold stateAfter. now rewrite run_app. Qed.

(** ** Arming *)

(** A frame that fires an event leaves the trigger armed. *)
Lemma stepOf_event_arms (cl : Class) (st : State) (hov foc : Str) (e : Event) :
  snd (stepOf cl st hov foc) = Some e ->
  hasTriggered (fst (stepOf cl st hov foc)) = true.
Proof.
  destruct cl; simpl; try discriminate.
  - destruct ((5 <? pinchDuration st + 1) && negb (hasTriggered st));
      [|discriminate].
    destruct (truthy hov); [reflexivity | discriminate].
  - destruct ((8 <? spreadDuration st + 1) && negb (hasTriggered st));
      [reflexivity | discriminate].
Qed.

(** While the trigger is armed, a frame that is not neutral fires nothing
    and leaves it armed. *)
Lemma stepOf_armed (cl : Class) (st : State) (hov foc : Str) :
  cl <> Neutral -> hasTriggered st = true ->
  snd (stepOf cl st hov foc) = None /\
  hasTriggered (fst (stepOf cl st hov foc)) = true.
Proof.
  intros Hcl Ha.
  destruct cl; try contradiction; simpl; rewrite ?Ha, ?andb_false_r; auto.
Qed.

Lemma run_armed (frames : list Frame) (st : State) :
  Forall (fun fr => classify fr <> Neutral) frames ->
  hasTriggered st = true ->
  events st frames = [] /\ hasTriggered (stateAfter st frames) = true.
Proof.
  unfold events, stateAfter.
  intros H. revert st. induction H as [|fr frames Hfr _ IH]; intros st Ha.
  - auto.
  - rewrite run_cons. cbn zeta.
    destruct (stepOf_armed (classify fr) st (hoveredNodeId fr)
                (focusedNodeId fr) Hfr Ha) as [He Ha'].
    rewrite He. simpl. now apply IH.
Qed.

Lemma run_at_most_one (frames : list Frame) (st : State) :
  Forall (fun fr => classify fr <> Neutral) frames ->
  (List.length (events st frames) <= 1)%nat.
Proof.
  unfold events.
  intros H. revert st. induction H as [|fr frames Hfr Hrest IH]; intros st.
  - simpl. lia.
  - rewrite run_cons. cbn zeta.
    destruct (snd (stepOf (classify fr) st (hoveredNodeId fr)
                     (focusedNodeId fr))) as [e|] eqn:E.
    + apply stepOf_event_arms in E.
      destruct (run_armed frames _ Hrest E) as [Hev _].
      unfold events in Hev. simpl. rewrite Hev. simpl. lia.
    + simpl. apply IH.
Qed.


(** ** Pinching over a node *)

Lemma pinchOver_not_neutral (h : string) (frames : list Frame) :
  Forall (pinchOver h) frames ->
  Forall (fun fr => classify fr <> Neutral) frames.
Proof.
  apply Forall_impl. intros fr [H _]. rewrite H. discriminate.
Qed.

(** A pinching frame below the threshold, or with the trigger armed, only
    counts. *)
Lemma run_pinch_quiet (h : string) (st : State) (fr : Frame)
    (frs : list Frame) :
  pinchOver h fr ->
  (5 <? pinchDuration st + 1) && negb (hasTriggered st) = false ->
  run st (fr :: frs)
  = run (mkState (pinchDuration st + 1) 0 (hasTriggered st)) frs.
Proof.
  intros [Hc _] Hq. rewrite run_cons, Hc. unfold stepOf. rewrite Hq. simpl.
  now destruct (run _ frs).
Qed.

(** A pinching frame over [h] that crosses the threshold with the trigger
    not armed selects [h] and arms the trigger. *)
Lemma run_pinch_fire (h : string) (st : State) (fr : Frame)
    (frs : list Frame) :
  truthy (Some h) = true -> pinchOver h fr ->
  (5 <? pinchDuration st + 1) = true -> hasTriggered st = false ->
  run st (fr :: frs)
  = (fst (run (mkState (pinchDuration st + 1) 0 true) frs),
     Select (Some h) :: snd (run (mkState (pinchDuration st + 1) 0 true) frs)).
Proof.
  intros Hh [Hc [Hhov Hfoc]] Hp Ha. rewrite run_cons, Hc. unfold stepOf.
  rewrite Hp, Ha, Hhov, Hh.
  assert (E : str_eqb (focusedNodeId fr) (Some h) = false).
  { destruct (focusedNodeId fr) as [s|]; simpl; [|reflexivity].
    apply String.eqb_neq. congruence. }
  rewrite E. reflexivity.
Qed.

(** From the initial refs, six pinching frames over [h] select [h] once, on
    the sixth, and leave the trigger armed. *)
Lemma six_pinches (h : string) (frames : list Frame) :
  truthy (Some h) = true -> List.length frames = 6%nat -> Forall (pinchOver h) frames ->
  events initial frames = [Select (Some h)] /\
  hasTriggered (stateAfter initial frames) = true.
Proof.
  intros Hh Hlen Hall.
  destruct frames as [|f1 [|f2 [|f3 [|f4 [|f5 [|f6 [|f7 rest]]]]]]];
    try discriminate.
  repeat match goal with
         | H : Forall _ (_ :: _) |- _ => apply Forall_cons_iff in H as [? H]
         end.
  unfold events, stateAfter, initial.
  do 5 (rewrite (run_pinch_quiet h) by (assumption || reflexivity)).
  rewrite (run_pinch_fire h) by (assumption || reflexivity).
  simpl. auto.
Qed.

Lemma firstn_skipn_pinchOver (h : string) (k : nat) (frames : list Frame) :
  Forall (pinchOver h) frames ->
  Forall (pinchOver h) (firstn k frames) /\
  Forall (pinchOver h) (skipn k frames).
Proof.
  intros H. rewrite <- (firstn_skipn k frames) in H.
  now apply Forall_app in H.
Qed.

(** From the initial refs, six or more pinching frames over [h] select [h]
    exactly once and leave the trigger armed. *)
Lemma long_pinch (h : string) (frames : list Frame) :
  truthy (Some h) = true -> (6 <= List.length frames)%nat -> Forall (pinchOver h) frames ->
  events initial frames = [Select (Some h)] /\
  hasTriggered (stateAfter initial frames) = true.
Proof.
  intros Hh Hlen Hall.
  destruct (firstn_skipn_pinchOver h 6 frames Hall) as [H6 Hrest].
  assert (Hl6 : List.length (firstn 6 frames) = 6%nat)
    by (rewrite length_firstn; lia).
  destruct (six_pinches h _ Hh Hl6 H6) as [He Ha].
  destruct (run_armed (skipn 6 frames) (stateAfter initial (firstn 6 frames))
              (pinchOver_not_neutral h _ Hrest) Ha) as [He' Ha'].
  rewrite <- (firstn_skipn 6 frames).
  rewrite events_app, stateAfter_app, He, He'. auto.
Qed.

Lemma run_neutral (st : State) (fr : Frame) (frs : list Frame) :
  classify fr = Neutral -> run st (fr :: frs) = run initial frs.
Proof.
  intros H. rewrite run_cons, H. simpl. now destruct (run _ frs).
Qed.

(** ** The claims on the gesture state machine *)

(** C5. From the initial refs (both counters 0, the trigger not armed), with
    the hover on a node [h] (a hover the code takes as set) that is not the
    focus: ten pinching frames fire exactly one [Select h]; a hundred further
    pinching frames - any number of them - fire nothing more; a neutral
    frame and six more pinching frames then fire exactly one more
    [Select h]. *)
Theorem C5_pinch_debounce (h : string) (fs1 fs2 fs3 : list Frame)
    (n : Frame) :
  truthy (Some h) = true ->
  List.length fs1 = 10%nat -> Forall (pinchOver h) fs1 ->
  List.length fs2 = 100%nat -> Forall (pinchOver h) fs2 ->
  classify n = Neutral ->
  List.length fs3 = 6%nat -> Forall (pinchOver h) fs3 ->
  events initial fs1 = [Select (Some h)]
  /\ events initial (fs1 ++ fs2) = [Select (Some h)]
  /\ events initial (fs1 ++ fs2 ++ n :: fs3)
     = [Select (Some h); Select (Some h)].
Proof.
  intros Hh Hl1 H1 _ H2 Hn Hl3 H3.
  assert (H12 : Forall (pinchOver h) (fs1 ++ fs2))
    by (apply Forall_app; auto).
  destruct (long_pinch h fs1 Hh ltac:(lia) H1) as [He1 _].
  destruct (long_pinch h (fs1 ++ fs2) Hh
              ltac:(rewrite length_app; lia) H12) as [He12 _].
  destruct (six_pinches h fs3 Hh Hl3 H3) as [He3 _].
  repeat split; try assumption.
  rewrite app_assoc, events_app, He12.
  unfold events at 1. rewrite run_neutral by assumption.
  fold (events initial fs3). now rewrite He3.
Qed.

Lemma C5_pinch_debounce_witness :
  events initial
    (repeat (pinchFrame (Some "h") None) 10
     ++ repeat (pinchFrame (Some "h") None) 100
     ++ neutralFrame (Some "h") None :: repeat (pinchFrame (Some "h") None) 6)
  = [Select (Some "h"); Select (Some "h")].
Proof.
  apply (C5_pinch_debounce "h"
           (repeat (pinchFrame (Some "h") None) 10)
           (repeat (pinchFrame (Some "h") None) 100)
           (repeat (pinchFrame (Some "h") None) 6)
           (neutralFrame (Some "h") None)).
  - reflexivity.
  - reflexivity.
  - apply Forall_forall. intros fr Hin. apply repeat_spec in Hin. subst fr.
    repeat split; discriminate.
  - reflexivity.
  - apply Forall_forall. intros fr Hin. apply repeat_spec in Hin. subst fr.
    repeat split; discriminate.
  - reflexivity.
  - reflexivity.
  - apply Forall_forall. intros fr Hin. apply repeat_spec in Hin. subst fr.
    repeat split; discriminate.
Defined.


(** C6 as the claim has it fails: with the pinch counter at 5 and the
    trigger not armed, a pinching frame with no hover takes the counter over
    5 and leaves the trigger not armed, and the next pinching frame, now
    over [h], fires [Select h]: the trigger was evaluated again within the
    same pinch. *)
Lemma C6_pinch_without_hover_does_not_arm :
  classify (pinchFrame None None) = Pinching
  /\ (5 <? pinchDuration fivePinches + 1) = true
  /\ hasTriggered fivePinches = false
  /\ hasTriggered (stateOf (predictWebcam fivePinches (pinchFrame None None)))
     = false
  /\ events fivePinches [pinchFrame None None; pinchFrame (Some "h") None]
     = [Select (Some "h")].
Proof. repeat split. Qed.

(** C6, amended. On a pinching frame that takes the pinch counter over 5
    while the trigger is not armed: if there is a hover id, the frame arms
    the trigger, and fires [Select] of the hover unless the hover is the
    focus (then it fires nothing); if there is no hover id, the frame fires
    nothing and leaves the trigger not armed, so that the test is made again
    on the next frame. *)
Theorem C6_pinch_arms_only_with_hover (st : State) (fr : Frame) :
  classify fr = Pinching ->
  (5 <? pinchDuration st + 1) = true ->
  hasTriggered st = false ->
  if truthy (hoveredNodeId fr)
  then hasTriggered (stateOf (predictWebcam st fr)) = true
       /\ eventOf (predictWebcam st fr)
          = (if str_eqb (focusedNodeId fr) (hoveredNodeId fr) then None
             else Some (Select (hoveredNodeId fr)))
  else hasTriggered (stateOf (predictWebcam st fr)) = false
       /\ eventOf (predictWebcam st fr) = None.
Proof.
  intros Hc Hp Ha. unfold stateOf, eventOf.
  rewrite predictWebcam_stepOf, Hc. unfold stepOf. rewrite Hp, Ha. simpl.
  destruct (truthy (hoveredNodeId fr)); simpl; [|auto].
  split; [reflexivity|].
  destruct (str_eqb (focusedNodeId fr) (hoveredNodeId fr)); reflexivity.
Qed.

Lemma C6_pinch_arms_only_with_hover_witness :
  hasTriggered
    (stateOf (predictWebcam fivePinches (pinchFrame (Some "h") (Some "h"))))
  = true
  /\ eventOf (predictWebcam fivePinches (pinchFrame (Some "h") (Some "h")))
     = None.
Proof.
  apply (C6_pinch_arms_only_with_hover fivePinches
           (pinchFrame (Some "h") (Some "h"))); reflexivity.
Defined.

(** C7. From the initial refs, a run of frames none of which is neutral
    fires at most one event, whatever the hover and the focus of each frame;
    and there is a run - pinching frames, one neutral frame, pinching
    frames - that fires two [Select]. *)
Theorem C7_one_event_per_sustained_gesture (frames : list Frame) :
  Forall (fun fr => classify fr <> Neutral) frames ->
  (List.length (events initial frames) <= 1)%nat
  /\ exists (ps qs : list Frame) (n : Frame) (a b : Str),
       Forall (fun fr => classify fr = Pinching) ps
       /\ classify n = Neutral
       /\ Forall (fun fr => classify fr = Pinching) qs
       /\ events initial (ps ++ n :: qs) = [Select a; Select b].
Proof.
  intros H. split; [now apply run_at_most_one|].
  exists (repeat (pinchFrame (Some "a") None) 6),
         (repeat (pinchFrame (Some "b") (Some "a")) 6),
         (neutralFrame (Some "a") (Some "a")), (Some "a"), (Some "b").
  repeat split.
  - apply Forall_forall. intros fr Hin. apply repeat_spec in Hin. now subst.
  - apply Forall_forall. intros fr Hin. apply repeat_spec in Hin. now subst.
Qed.

Lemma C7_one_event_per_sustained_gesture_witness :
  (List.length
     (events initial
        (repeat (pinchFrame (Some "a") None) 20
         ++ repeat (openFrame (Some "a") (Some "a")) 20)) <= 1)%nat.
Proof.
  apply (C7_one_event_per_sustained_gesture
           (repeat (pinchFrame (Some "a") None) 20
            ++ repeat (openFrame (Some "a") (Some "a")) 20)).
  apply Forall_forall. intros fr Hin.
  apply in_app_or in Hin as [Hin|Hin]; apply repeat_spec in Hin; subst fr;
    discriminate.
Defined.

End GestureFacts.

(* ================================================================== *)
(** * Facts on the hit test and the view transform *)
(* ================================================================== *)

Module ThinkingGraphFacts.

Import Js ThinkingGraph FloatFacts.

(** The hit test projects with the transform the view is drawn with. *)
Lemma hitTransform_viewTransform (nodes : list GraphNode.t) (v : View) :
  hitTransform nodes v = viewTransform nodes v.
Proof.
  unfold hitTransform, viewTransform.
  destruct (truthy (focusedNodeId v)); [|reflexivity].
  destruct (findNode nodes (focusedNodeId v)) as [n|]; [|reflexivity].
  destruct (GraphNode.x n), (GraphNode.y n); reflexivity.
Qed.

(** ** The loop of the hit test *)

Section Loop.
Variable nodes : list GraphNode.t.
Variable v : View.
Variable cursor : HandCursor.t.

Lemma hitStep_inv (ms : list GraphNode.t) (acc : option Str * float)
    (m : GraphNode.t) :
  hitInv nodes v cursor ms acc ->
  hitInv nodes v cursor (ms ++ [m]) (hitStep nodes v cursor acc m).
Proof.
  intros [Hmin Hhit]. unfold hitStep.
  destruct (nodeDist nodes v cursor m) as [d|] eqn:Ed.
  - destruct (d <? snd acc) eqn:Elt.
    + (* [m] is nearer: it becomes the hit *)
      split; simpl.
      * intros m' d' Hin Hd'. apply in_app_or in Hin as [Hin|[<-|[]]].
        -- destruct (d' <? d) eqn:E; [|reflexivity].
           rewrite <- (Hmin m' d' Hin Hd'). symmetry.
           eapply ltb_trans; eassumption.
        -- assert (d' = d) by congruence. subst d'. apply ltb_irrefl.
      * right. exists m. repeat split; auto.
        -- apply in_or_app. right. now left.
        -- destruct Hhit as [[_ E]|[n [_ [_ [_ E]]]]].
           ++ now rewrite <- E.
           ++ eapply ltb_trans; eassumption.
    + (* [m] is not nearer *)
      split.
      * intros m' d' Hin Hd'. apply in_app_or in Hin as [Hin|[<-|[]]].
        -- eauto.
        -- assert (d' = d) by congruence. now subst d'.
      * destruct Hhit as [H|[n [Hin H]]]; [now left | right].
        exists n. split; [apply in_or_app; now left | assumption].
  - (* [m] has no position *)
    split.
    + intros m' d' Hin Hd'. apply in_app_or in Hin as [Hin|[<-|[]]].
      * eauto.
      * congruence.
    + destruct Hhit as [H|[n [Hin H]]]; [now left | right].
      exists n. split; [apply in_or_app; now left | assumption].
Qed.

Lemma hitLoop_inv (l ms : list GraphNode.t) (acc : option Str * float) :
  hitInv nodes v cursor ms acc ->
  hitInv nodes v cursor (ms ++ l) (fold_left (hitStep nodes v cursor) l acc).
Proof.
  revert ms acc. induction l as [|m l IH]; simpl; intros ms acc H.
  - now rewrite app_nil_r.
  - replace (ms ++ m :: l) with ((ms ++ [m]) ++ l)
      by (rewrite <- app_assoc; reflexivity).
    apply IH. now apply hitStep_inv.
Qed.

End Loop.

Lemma hitTest_inv (nodes : list GraphNode.t) (v : View)
    (cursor : HandCursor.t) :
  hitInv nodes v cursor nodes
    (fold_left (hitStep nodes v cursor) nodes (None, 70)).
Proof.
  apply (hitLoop_inv nodes v cursor nodes [] (None, 70)).
  split; [intros m d []|]. left. split; reflexivity.
Qed.

(** The hit is the nearest of the nodes inside the radius, when there is
    one. *)
Lemma hitTest_nearest (nodes : list GraphNode.t) (v : View)
    (cursor : HandCursor.t) (n0 : GraphNode.t) (d0 : float) :
  In n0 nodes -> nodeDist nodes v cursor n0 = Some d0 -> (d0 <? 70) = true ->
  exists n d,
    In n nodes /\ hitTest nodes v cursor = Some (GraphNode.id n)
    /\ nodeDist nodes v cursor n = Some d /\ (d <? 70) = true
    /\ forall m d', In m nodes -> nodeDist nodes v cursor m = Some d' ->
                    (d' <? d) = false.
Proof.
  intros Hin0 Hd0 Hlt0. unfold hitTest.
  destruct (hitTest_inv nodes v cursor) as [Hmin Hhit].
  destruct (fold_left _ nodes _) as [hit md]. simpl in *.
  destruct Hhit as [[_ ->]|[n [Hin [-> [Hd Hlt]]]]].
  - rewrite (Hmin n0 d0 Hin0 Hd0) in Hlt0. discriminate.
  - exists n, md. auto.
Qed.

(** Nothing is hit when every node is farther than the radius. *)
Lemma hitTest_far (nodes : list GraphNode.t) (v : View)
    (cursor : HandCursor.t) :
  (forall m d, In m nodes -> nodeDist nodes v cursor m = Some d ->
               (70 <? d) = true) ->
  hitTest nodes v cursor = None.
Proof.
  intros Hfar. unfold hitTest.
  destruct (hitTest_inv nodes v cursor) as [_ Hhit].
  destruct (fold_left _ nodes _) as [hit md]. simpl in *.
  destruct Hhit as [[-> _]|[n [Hin [_ [Hd Hlt]]]]]; [reflexivity|].
  apply Hfar in Hd; [|assumption]. apply ltb_asym in Hd. congruence.
Qed.

(** A point is at distance [+0] from itself when its coordinates are
    neither NaN nor infinite. *)
Lemma screenDist_same (p : float * float) :
  is_finite (fst p) = true -> is_finite (snd p) = true ->
  screenDist p p = 0.
Proof.
  intros Hx Hy. unfold screenDist, Math_sqrt, Math_pow2.
  rewrite (sub_diag _ Hx), (sub_diag _ Hy). reflexivity.
Qed.

(** The node the cursor is exactly on is the hit, when every other node is
    at a distance that is not below or equal to zero. *)
Lemma hitTest_exact (pre post : list GraphNode.t) (n : GraphNode.t)
    (nx ny : float) (v : View) (cursor : HandCursor.t) :
  let nodes := pre ++ n :: post in
  let P := project (hitTransform nodes v) (nx, ny) in
  GraphNode.x n = Some nx -> GraphNode.y n = Some ny ->
  is_finite (fst P) = true -> is_finite (snd P) = true ->
  cursorPx v cursor = P ->
  (forall m d, In m (pre ++ post) -> nodeDist nodes v cursor m = Some d ->
               (d <=? 0) = false) ->
  nodeDist nodes v cursor n = Some 0
  /\ hitTest nodes v cursor = Some (GraphNode.id n).
Proof.
  intros nodes P Hx Hy HPx HPy Hcur Hothers.
  assert (Hdn : nodeDist nodes v cursor n = Some 0).
  { unfold nodeDist. rewrite Hx, Hy, Hcur. fold P.
    now rewrite screenDist_same. }
  split; [assumption|].
  assert (Hin : In n nodes) by (apply in_or_app; right; now left).
  destruct (hitTest_nearest nodes v cursor n 0 Hin Hdn eq_refl)
    as [n' [d [Hin' [Hhit [Hd [Hlt Hmin]]]]]].
  rewrite Hhit.
  apply in_app_or in Hin' as [Hin'|[<-|Hin']]; [|reflexivity|].
  - assert (Hd0 : (d <=? 0) = false)
      by (apply (Hothers n' d); [apply in_or_app; now left | assumption]).
    specialize (Hmin n 0 Hin Hdn).
    rewrite (ltb_zero_of_not_leb d 70 Hlt Hd0) in Hmin. discriminate.
  - assert (Hd0 : (d <=? 0) = false)
      by (apply (Hothers n' d); [apply in_or_app; now right | assumption]).
    specialize (Hmin n 0 Hin Hdn).
    rewrite (ltb_zero_of_not_leb d 70 Hlt Hd0) in Hmin. discriminate.
Qed.


Lemma hover_eqb_eq (a b : option Str) : hover_eqb a b = true -> a = b.
Proof.
  destruct a as [[s|]|], b as [[t|]|]; simpl; try discriminate; auto.
  intros H. apply String.eqb_eq in H. now subst.
Qed.

(** With a cursor, a mounted svg and a graph that has nodes, the hover after
    the effect is what the hit test returns. *)
Lemma hitTestEffect_hover (c : HandCursor.t) (nodes : list GraphNode.t)
    (v : View) (activeHoverId : option Str) :
  nodes <> [] ->
  fst (hitTestEffect (Some c) true nodes v activeHoverId)
  = hitTest nodes v c.
Proof.
  intros Hne. unfold hitTestEffect.
  destruct nodes as [|n ns]; [contradiction|]. simpl negb. simpl orb.
  cbv iota.
  destruct (hover_eqb (hitTest (n :: ns) v c) activeHoverId) eqn:E; simpl.
  - symmetry. now apply hover_eqb_eq.
  - reflexivity.
Qed.

(** ** The claims on the hit test and the view transform *)

(** C8. For every list of nodes, view (window, zoom, focus) and cursor:
    - if the cursor in pixels is exactly the projection, under the transform
      of the view, of a node that has a position, that projection being a
      pair of numbers proper (not NaN, not infinite), and no other node is
      at a distance below or equal to that of this node, which is 0, then
      the hit test returns this node;
    - if every node that has a position is farther than 70 pixels from the
      cursor, the hit test returns [null];
    - if some node is nearer than 70 pixels, the hit test returns a node
      nearer than 70 pixels than which no node is nearer. *)
Theorem C8_hit_test_resolves_nearest_within_70
    (nodes : list GraphNode.t) (v : View) (cursor : HandCursor.t) :
  (forall pre n post nx ny,
      nodes = pre ++ n :: post ->
      GraphNode.x n = Some nx -> GraphNode.y n = Some ny ->
      is_finite (fst (project (viewTransform nodes v) (nx, ny))) = true ->
      is_finite (snd (project (viewTransform nodes v) (nx, ny))) = true ->
      cursorPx v cursor = project (viewTransform nodes v) (nx, ny) ->
      (forall m d, In m (pre ++ post) ->
                   nodeDist nodes v cursor m = Some d -> (d <=? 0) = false) ->
      nodeDist nodes v cursor n = Some 0
      /\ hitTest nodes v cursor = Some (GraphNode.id n))
  /\ ((forall m d, In m nodes -> nodeDist nodes v cursor m = Some d ->
                   (70 <? d) = true) ->
      hitTest nodes v cursor = None)
  /\ (forall n0 d0,
        In n0 nodes -> nodeDist nodes v cursor n0 = Some d0 ->
        (d0 <? 70) = true ->
        exists n d,
          In n nodes /\ hitTest nodes v cursor = Some (GraphNode.id n)
          /\ nodeDist nodes v cursor n = Some d /\ (d <? 70) = true
          /\ forall m d', In m nodes -> nodeDist nodes v cursor m = Some d' ->
                          (d' <? d) = false).
Proof.
  repeat split.
  - destruct (hitTest_exact pre post n nx ny v cursor) as [Hd _];
      subst nodes; rewrite <- ?hitTransform_viewTransform in *; auto.
  - destruct (hitTest_exact pre post n nx ny v cursor) as [_ Hh];
      subst nodes; rewrite <- ?hitTransform_viewTransform in *; auto.
  - apply hitTest_far.
  - apply hitTest_nearest.
Qed.

Lemma C8_hit_test_resolves_nearest_within_70_witness :
  hitTest sampleNodes sampleView (HandCursor.mk 0.5 0.5 false)
  = Some (Some "origin")
  /\ hitTest sampleNodes sampleView (HandCursor.mk 0.1 0.1 false) = None
  /\ hitTest sampleNodes sampleView (HandCursor.mk 0.51 0.5 false)
     = Some (Some "origin").
Proof.
  pose proof (C8_hit_test_resolves_nearest_within_70 sampleNodes sampleView
                (HandCursor.mk 0.5 0.5 false)) as [Hexact _].
  pose proof (C8_hit_test_resolves_nearest_within_70 sampleNodes sampleView
                (HandCursor.mk 0.1 0.1 false)) as [_ [Hfar _]].
  pose proof (C8_hit_test_resolves_nearest_within_70 sampleNodes sampleView
                (HandCursor.mk 0.51 0.5 false)) as [_ [_ Hnear]].
  split; [|split].
  - apply (Hexact [placed "far" 300 0; placed "near" 40 0]
                  (placed "origin" 0 0) [] 0 0); try reflexivity.
    intros m d [<-|[<-|[]]] H; vm_compute in H; injection H as <-;
      reflexivity.
  - apply Hfar.
    intros m d [<-|[<-|[<-|[]]]] H; vm_compute in H; injection H as <-;
      reflexivity.
  - destruct (Hnear (placed "near" 40 0) 30)
      as [n [d [Hin [Hhit [Hd [Hlt Hmin]]]]]];
      [simpl; auto | reflexivity | reflexivity |].
    rewrite Hhit.
    destruct Hin as [<-|[<-|[<-|[]]]]; vm_compute in Hd; injection Hd as <-.
    + discriminate.
    + specialize (Hmin (placed "origin" 0 0) 10). simpl in Hmin.
      discriminate Hmin; auto.
    + reflexivity.
Defined.

End ThinkingGraphFacts.

(* ================================================================== *)
(** * More facts on binary64 order, [Math.min] and [Math.max] *)
(* ================================================================== *)

Module FloatOrder.

Import Js JsMath FloatFacts.

Lemma SFcompare_antisym (a b : spec_float) :
  SFcompare b a = option_map CompOpp (SFcompare a b).
Proof.
  destruct a as [sa|sa| |sa ma ea], b as [sb|sb| |sb mb eb]; simpl;
    try destruct sa; try destruct sb; simpl; try reflexivity;
    rewrite (Z.compare_antisym ea eb);
    destruct (Z.compare ea eb) eqn:E; simpl; try reflexivity;
    change (Pos.compare_cont Eq) with Pos.compare;
    rewrite (Pos.compare_antisym ma mb);
    destruct (Pos.compare ma mb); reflexivity.
Qed.

Lemma is_nan_SF (a : float) :
  is_nan a = false -> SFcompare (Prim2SF a) (Prim2SF a) = Some Eq.
Proof.
  unfold is_nan. rewrite eqb_spec. unfold SFeqb. intros H.
  destruct (SFcompare_refl (Prim2SF a)) as [E|E]; rewrite E in *;
    [discriminate | reflexivity].
Qed.

Lemma SFcompare_None (a b : spec_float) :
  SFcompare a b = None -> a = S754_nan \/ b = S754_nan.
Proof.
  destruct a as [sa|sa| |sa ma ea], b as [sb|sb| |sb mb eb]; simpl;
    try destruct sa; try destruct sb; simpl; auto; discriminate.
Qed.

Lemma SFcompare_Some (a b : float) :
  is_nan a = false -> is_nan b = false ->
  exists c, SFcompare (Prim2SF a) (Prim2SF b) = Some c.
Proof.
  intros Ha Hb. apply is_nan_SF in Ha, Hb.
  destruct (SFcompare (Prim2SF a) (Prim2SF b)) as [c|] eqn:E; [eauto|].
  apply SFcompare_None in E as [E|E]; rewrite E in *; discriminate.
Qed.

Lemma leb_refl (a : float) : is_nan a = false -> (a <=? a) = true.
Proof.
  intros H. rewrite leb_spec. unfold SFleb. now rewrite (is_nan_SF a H).
Qed.

(** Of two numbers neither of which is below the other, each is at most the
    other. *)
Lemma leb_of_not_ltb (a b : float) :
  is_nan a = false -> is_nan b = false ->
  (a <? b) = false -> (b <? a) = false ->
  (a <=? b) = true /\ (b <=? a) = true.
Proof.
  intros Ha Hb. rewrite !ltb_spec, !leb_spec. unfold SFltb, SFleb.
  rewrite (SFcompare_antisym (Prim2SF a) (Prim2SF b)).
  destruct (SFcompare_Some a b Ha Hb) as [c E]. rewrite E.
  destruct c; simpl; auto; discriminate.
Qed.

Lemma is_nan_nan : is_nan nan = true.
Proof. reflexivity. Qed.

(** [Math.min] is NaN or at most each of its arguments. *)
Lemma Math_min_le (a b : float) :
  is_nan (Math_min a b) = false ->
  (Math_min a b <=? a) = true /\ (Math_min a b <=? b) = true.
Proof.
  unfold Math_min.
  destruct (is_nan a) eqn:Ha; [simpl; discriminate|].
  destruct (is_nan b) eqn:Hb; [simpl; discriminate|]. simpl.
  destruct (a <? b) eqn:E1.
  - intros _. split; [now apply leb_refl | now apply ltb_leb].
  - destruct (b <? a) eqn:E2.
    + intros _. split; [now apply ltb_leb | now apply leb_refl].
    + destruct (leb_of_not_ltb a b Ha Hb E1 E2) as [H1 H2].
      destruct (is_zero a && get_sign a); intros _;
        split; auto using leb_refl.
Qed.

(** [Math.max] is NaN or at least each of its arguments. *)
Lemma Math_max_ge (a b : float) :
  is_nan (Math_max a b) = false ->
  (a <=? Math_max a b) = true /\ (b <=? Math_max a b) = true.
Proof.
  unfold Math_max.
  destruct (is_nan a) eqn:Ha; [simpl; discriminate|].
  destruct (is_nan b) eqn:Hb; [simpl; discriminate|]. simpl.
  destruct (a <? b) eqn:E1.
  - intros _. split; [now apply ltb_leb | now apply leb_refl].
  - destruct (b <? a) eqn:E2.
    + intros _. split; [now apply leb_refl | now apply ltb_leb].
    + destruct (leb_of_not_ltb a b Ha Hb E1 E2) as [H1 H2].
      destruct (is_zero a && get_sign a); intros _;
        split; auto using leb_refl.
Qed.

Lemma Math_min_atMost (c d : float) : atMost c (Math_min c d).
Proof.
  unfold atMost. destruct (is_nan (Math_min c d)) eqn:E; [now left|].
  right. now apply Math_min_le.
Qed.

Lemma Math_max_atLeast (c d : float) : atLeast c (Math_max c d).
Proof.
  unfold atLeast. destruct (is_nan (Math_max c d)) eqn:E; [now left|].
  right. now apply Math_max_ge.
Qed.

Lemma SFleb_ltb_trans (a b c : spec_float) :
  SFleb a b = true -> SFltb b c = true -> SFltb a c = true.
Proof.
  unfold SFleb, SFltb.
  destruct a as [sa|sa| |sa ma ea], b as [sb|sb| |sb mb eb],
           c as [sc|sc| |sc mc ec]; simpl;
    try destruct sa; try destruct sb; try destruct sc; simpl; try congruence;
    change (Pos.compare_cont Eq) with Pos.compare;
    cmp_cases; simpl in *; try congruence; try lia.
Qed.

Lemma leb_ltb_trans (a b c : float) :
  (a <=? b) = true -> (b <? c) = true -> (a <? c) = true.
Proof. rewrite leb_spec, !ltb_spec. apply SFleb_ltb_trans. Qed.

(** A number below a bound is not reached from above: nothing that is at
    most [a] is at or above a [b] that [a] is below. *)
Lemma not_leb_below (a b d : float) :
  (a <? b) = true -> (d <? b) = false -> (d <=? a) = false.
Proof.
  intros Hab Hdb. destruct (d <=? a) eqn:E; [|reflexivity].
  rewrite (leb_ltb_trans d a b E Hab) in Hdb. discriminate.
Qed.

Lemma not_leb_above (a b d : float) :
  (a <? b) = true -> (d <=? b) = false -> (d <=? a) = false.
Proof.
  intros Hab Hdb. destruct (d <=? a) eqn:E; [|reflexivity].
  pose proof (ltb_leb d b (leb_ltb_trans d a b E Hab)). congruence.
Qed.

Lemma SFleb_trans (a b c : spec_float) :
  SFleb a b = true -> SFleb b c = true -> SFleb a c = true.
Proof.
  unfold SFleb.
  destruct a as [sa|sa| |sa ma ea], b as [sb|sb| |sb mb eb],
           c as [sc|sc| |sc mc ec]; simpl;
    try destruct sa; try destruct sb; try destruct sc; simpl; try congruence;
    change (Pos.compare_cont Eq) with Pos.compare;
    cmp_cases; simpl in *; try congruence; try lia.
Qed.

Lemma leb_trans (a b c : float) :
  (a <=? b) = true -> (b <=? c) = true -> (a <=? c) = true.
Proof. rewrite !leb_spec. apply SFleb_trans. Qed.

(** What is at least a bound is at least every bound below it. *)
Lemma atLeast_weaken (c c' d : float) :
  (c' <=? c) = true -> atLeast c d -> atLeast c' d.
Proof.
  intros Hc [H|H]; [now left|]. right. now apply (leb_trans c' c d).
Qed.

(** Nothing is below NaN. *)
Lemma ltb_nan_r (c v : float) : is_nan v = true -> (c <? v) = false.
Proof.
  unfold is_nan. rewrite eqb_spec, ltb_spec. unfold SFeqb, SFltb.
  intros H.
  destruct (SFcompare (Prim2SF v) (Prim2SF v)) as [[| |]|] eqn:E;
    try discriminate.
  - destruct (SFcompare_refl (Prim2SF v)) as [E'|E']; congruence.
  - destruct (SFcompare_refl (Prim2SF v)) as [E'|E']; congruence.
  - apply SFcompare_None in E.
    assert (Ev : Prim2SF v = S754_nan) by tauto. rewrite Ev.
    now destruct (Prim2SF c) as [[]|[]| |[] m e].
Qed.

(** Clamping a number to the range from 1 to 10 does not move it across a
    threshold that lies inside the range. *)
Lemma clamp_threshold (t v : float) :
  (1 <? t) = true -> (t <? 10) = true ->
  (t <? Math_min 10 (Math_max 1 v)) = (t <? v).
Proof.
  intros H1 H10.
  assert (Hlow : (1 <? v) = false -> (t <? v) = false).
  { intros E. destruct (t <? v) eqn:Et; [|reflexivity].
    rewrite (ltb_trans 1 t v H1 Et) in E. discriminate. }
  assert (Ht1 : (t <? 1) = false) by now apply ltb_asym.
  assert (Hone : Math_min 10 1 = 1) by reflexivity.
  unfold Math_max at 1. change (is_nan 1) with false. cbn [orb].
  destruct (is_nan v) eqn:Hv.
  - change (Math_min 10 nan) with nan.
    now rewrite (ltb_nan_r t v Hv), (ltb_nan_r t nan).
  - destruct (1 <? v) eqn:E1.
    + unfold Math_min. change (is_nan 10) with false. rewrite Hv.
      cbn [orb].
      destruct (10 <? v) eqn:E10;
        [now rewrite H10, (ltb_trans t 10 v H10 E10)|].
      change (is_zero 10) with false. cbn [andb].
      now destruct (v <? 10).
    + change (is_zero 1) with false. cbn [andb].
      destruct (v <? 1); rewrite Hone, Ht1; symmetry; now apply Hlow.
Qed.

End FloatOrder.

(* ================================================================== *)
(** * More facts on the insertion-ordered map *)
(* ================================================================== *)

Module JsMapMore.

Section WithKey.
Context {K V : Type}.
Variable keqb : K -> K -> bool.
Hypothesis keqb_eq : forall a b, keqb a b = true <-> a = b.

Abbreviation M := (@JsMap.t K V).
Abbreviation get := (JsMap.get keqb).
Abbreviation has := (JsMap.has keqb).
Abbreviation set := (JsMap.set keqb).

Lemma get_set_same (k : K) (v : V) (m : M) : get k (set k v m) = Some v.
Proof.
  induction m as [|[k0 v0] m IH]; simpl.
  - now rewrite (JsMapFacts.keqb_refl keqb keqb_eq).
  - destruct (keqb k0 k) eqn:E; simpl; now rewrite E.
Qed.

Lemma get_set_other (k k' : K) (v : V) (m : M) :
  k' <> k -> get k' (set k v m) = get k' m.
Proof.
  intros Hne. induction m as [|[k0 v0] m IH]; simpl.
  - destruct (keqb k k') eqn:E; [|reflexivity].
    apply keqb_eq in E. congruence.
  - destruct (keqb k0 k) eqn:E; simpl.
    + destruct (keqb k0 k') eqn:E'; [|reflexivity].
      apply keqb_eq in E, E'. congruence.
    + now rewrite IH.
Qed.

(** Setting a key keeps the keys in place and at most appends one. *)
Lemma keys_set (k : K) (v : V) (m : M) :
  JsMap.keys (set k v m)
  = JsMap.keys m ++ (if has k m then [] else [k]).
Proof.
  destruct (has k m) eqn:E.
  - rewrite JsMapFacts.keys_set_present by assumption.
    now rewrite app_nil_r.
  - rewrite JsMapFacts.set_absent by assumption.
    unfold JsMap.keys. now rewrite map_app.
Qed.

(** A list of entries with distinct keys, looked up by key. *)
Lemma get_find (key : V -> K) (vs : list V) (k : K) :
  get k (map (fun v => (key v, v)) vs)
  = find (fun v => keqb (key v) k) vs.
Proof.
  induction vs as [|v vs IH]; simpl; [reflexivity|].
  destruct (keqb (key v) k); auto.
Qed.

(** Setting a key that is present changes the value at its place only. *)
Lemma values_set_present (k : K) (v : V) (m : M) :
  NoDup (JsMap.keys m) -> has k m = true ->
  JsMap.values (set k v m)
  = map (fun e => if keqb (fst e) k then v else snd e) m.
Proof.
  unfold JsMap.values, JsMap.keys, JsMap.has.
  induction m as [|[k0 v0] m IH]; simpl; [discriminate|].
  intros Hnd Hhas. apply NoDup_cons_iff in Hnd as [Hnot Hnd].
  destruct (keqb k0 k) eqn:E; simpl.
  - f_equal. apply keqb_eq in E. subst k0.
    clear IH Hhas. induction m as [|[k1 v1] m IH]; simpl; [reflexivity|].
    destruct (keqb k1 k) eqn:E1.
    + apply keqb_eq in E1. subst k1. exfalso. apply Hnot. now left.
    + f_equal. apply IH.
      * intros H. apply Hnot. now right.
      * now apply NoDup_cons_iff in Hnd.
  - f_equal. now apply IH.
Qed.

End WithKey.

(** ** A map whose values go through a function *)

Section Mapped.
Context {K V W : Type}.
Variable keqb : K -> K -> bool.
Variable f : V -> W.

Abbreviation mapped := (map (fun e : K * V => (fst e, f (snd e)))).

Lemma get_mapped (k : K) (m : @JsMap.t K V) :
  JsMap.get keqb k (mapped m) = option_map f (JsMap.get keqb k m).
Proof.
  induction m as [|[k0 v0] m IH]; simpl; [reflexivity|].
  destruct (keqb k0 k); auto.
Qed.

Lemma has_mapped (k : K) (m : @JsMap.t K V) :
  JsMap.has keqb k (mapped m) = JsMap.has keqb k m.
Proof.
  unfold JsMap.has. rewrite get_mapped.
  now destruct (JsMap.get keqb k m).
Qed.

Lemma set_mapped (k : K) (v : V) (m : @JsMap.t K V) :
  JsMap.set keqb k (f v) (mapped m) = mapped (JsMap.set keqb k v m).
Proof.
  induction m as [|[k0 v0] m IH]; simpl; [reflexivity|].
  destruct (keqb k0 k); simpl; [reflexivity | now rewrite IH].
Qed.

Lemma of_entries_mapped (es : list (K * V)) :
  JsMap.of_entries keqb (mapped es) = mapped (JsMap.of_entries keqb es).
Proof.
  unfold JsMap.of_entries.
  change (@nil (K * W)) with (mapped (@nil (K * V))).
  generalize (@nil (K * V)) as acc.
  induction es as [|[k v] es IH]; intros acc; simpl; [reflexivity|].
  rewrite set_mapped. apply IH.
Qed.

Lemma values_mapped (m : @JsMap.t K V) :
  JsMap.values (mapped m) = map f (JsMap.values m).
Proof. unfold JsMap.values. now rewrite !map_map. Qed.

End Mapped.

End JsMapMore.

(* ================================================================== *)
(** * More facts on [handleGraphUpdate] *)
(* ================================================================== *)

Module GraphStoreMoreFacts.

Import Js JsMath GraphStore GraphStoreMore GraphStoreFacts FloatOrder.

(** ** The maps of a graph and the graph of the maps *)

Lemma applyUpdate_links (g : GraphData.t) (f : Str) (u : Update.t) :
  GraphData.links (applyUpdate g f u)
  = let st1 := match Update.concepts u with
               | Some cs => fold_left (conceptStep f) cs
                              (nodesMapOf g, linksMapOf g)
               | None => (nodesMapOf g, linksMapOf g)
               end in
    JsMap.values
      match Update.relationships u with
      | Some rs => fold_left (relationshipStep (fst st1)) rs (snd st1)
      | None => snd st1
      end.
Proof. reflexivity. Qed.

Lemma getNode_values (nm : NodesMap) (ls : list GraphLink.t) (i : Str) :
  keysOk nm ->
  getNode i (GraphData.mk (JsMap.values nm) ls) = JsMap.get str_eqb i nm.
Proof.
  unfold getNode, JsMap.values. simpl.
  induction nm as [|[k n] nm IH]; simpl; intros H; [reflexivity|].
  rewrite (H k n) by now left.
  destruct (str_eqb k i); [reflexivity|].
  apply IH. intros k' n' Hin. apply H. now right.
Qed.

Lemma getLink_values (ns : list GraphNode.t) (lm : LinksMap) (key : string) :
  linkKeysOk lm ->
  getLink key (GraphData.mk ns (JsMap.values lm))
  = JsMap.get String.eqb key lm.
Proof.
  unfold getLink, JsMap.values. simpl.
  induction lm as [|[k l] lm IH]; simpl; intros H; [reflexivity|].
  rewrite <- (H k l) by now left.
  destruct (String.eqb k key); [reflexivity|].
  apply IH. intros k' l' Hin. apply H. now right.
Qed.

Lemma keyStored_values (ns : list GraphNode.t) (lm : LinksMap)
    (key : string) :
  linkKeysOk lm ->
  keyStored key (GraphData.mk ns (JsMap.values lm))
  = JsMap.has String.eqb key lm.
Proof.
  intros H. unfold JsMap.has. rewrite <- (getLink_values ns lm key H).
  unfold keyStored, getLink.
  induction (GraphData.links (GraphData.mk ns (JsMap.values lm)))
    as [|l ls IH]; simpl; [reflexivity|].
  destruct (String.eqb (keyOfLink l) key); auto.
Qed.

Lemma linksMapOf_NoDup (g : GraphData.t) :
  NoDup (map keyOfLink (GraphData.links g)) ->
  linksMapOf g = map (fun l => (keyOfLink l, l)) (GraphData.links g).
Proof.
  intros H. apply (JsMapFacts.of_entries_NoDup _ string_eqb_eq).
  now rewrite map_map.
Qed.

Lemma values_nodesMapOf (g : GraphData.t) :
  NoDup (map GraphNode.id (GraphData.nodes g)) ->
  JsMap.values (nodesMapOf g) = GraphData.nodes g.
Proof.
  intros H. rewrite (nodesMapOf_NoDup g H).
  unfold JsMap.values, entriesOf. rewrite map_map. apply map_id.
Qed.

Lemma values_linksMapOf (g : GraphData.t) :
  NoDup (map keyOfLink (GraphData.links g)) ->
  JsMap.values (linksMapOf g) = GraphData.links g.
Proof.
  intros H. rewrite (linksMapOf_NoDup g H).
  unfold JsMap.values. rewrite map_map. apply map_id.
Qed.

Lemma conceptSteps_linkKeys (f : Str) (cs : list Concept.t)
    (st : NodesMap * LinksMap) :
  linkKeysOk (snd st) /\ NoDup (JsMap.keys (snd st)) ->
  linkKeysOk (snd (fold_left (conceptStep f) cs st))
  /\ NoDup (JsMap.keys (snd (fold_left (conceptStep f) cs st))).
Proof.
  revert st. induction cs as [|c cs IH]; simpl; intros st H; [assumption|].
  apply IH. now apply conceptStep_linkKeys.
Qed.

Lemma relationshipSteps_linkKeys (nm : NodesMap) (rs : list Relationship.t)
    (lm : LinksMap) :
  linkKeysOk lm /\ NoDup (JsMap.keys lm) ->
  linkKeysOk (fold_left (relationshipStep nm) rs lm)
  /\ NoDup (JsMap.keys (fold_left (relationshipStep nm) rs lm)).
Proof.
  revert lm. induction rs as [|r rs IH]; simpl; intros lm H; [assumption|].
  apply IH. now apply relationshipStep_linkKeys.
Qed.

Lemma linksMapOf_linkKeys (g : GraphData.t) :
  linkKeysOk (linksMapOf g) /\ NoDup (JsMap.keys (linksMapOf g)).
Proof.
  split; [apply linksMapOf_keysOk|].
  apply (JsMapFacts.of_entries_keys_NoDup _ string_eqb_eq).
Qed.

(** The state of the two maps after the concepts of an update, and the link
    map after its relationships. *)
Lemma afterConcepts_ok (g : GraphData.t) (f : Str) (u : Update.t) :
  let st1 := match Update.concepts u with
             | Some cs => fold_left (conceptStep f) cs
                            (nodesMapOf g, linksMapOf g)
             | None => (nodesMapOf g, linksMapOf g)
             end in
  keysOk (fst st1)
  /\ linkKeysOk (snd st1) /\ NoDup (JsMap.keys (snd st1)).
Proof.
  simpl. destruct (Update.concepts u) as [cs|].
  - split; [apply conceptSteps_keysOk, nodesMapOf_keysOk|].
    apply conceptSteps_linkKeys, linksMapOf_linkKeys.
  - split; [apply nodesMapOf_keysOk | apply linksMapOf_linkKeys].
Qed.

Lemma afterRelationships_ok (nm : NodesMap) (lm : LinksMap)
    (rs : option (list Relationship.t)) :
  linkKeysOk lm /\ NoDup (JsMap.keys lm) ->
  linkKeysOk match rs with
             | Some rs => fold_left (relationshipStep nm) rs lm
             | None => lm
             end.
Proof.
  intros H. destruct rs as [rs|]; [|tauto].
  now apply relationshipSteps_linkKeys.
Qed.

(** ** What a call returns is normal, and a normal graph is a fixed point *)

(** X1. Whatever graph, focus and update a call is given - a graph with
    repeated node ids or repeated link keys included - the node ids of the
    graph it returns are distinct and so are the keys of its links. *)
Theorem applyUpdate_normal (g : GraphData.t) (f : Str) (u : Update.t) :
  normal (applyUpdate g f u).
Proof.
  split.
  - apply applyUpdate_ids_NoDup.
  - apply applyUpdate_linkKeys_NoDup.
Qed.

Lemma relationshipSteps_unknown (nm : NodesMap) (rs : list Relationship.t)
    (lm : LinksMap) :
  Forall (fun r => JsMap.has str_eqb (Relationship.source_id r) nm
                   && JsMap.has str_eqb (Relationship.target_id r) nm
                   = false) rs ->
  fold_left (relationshipStep nm) rs lm = lm.
Proof.
  intros H. revert lm. induction H as [|r rs Hr _ IH]; intros lm;
    [reflexivity|].
  simpl. unfold relationshipStep at 2. rewrite Hr. apply IH.
Qed.

(** X2. An update that brings no concept, and whose relationships each have an
    end that is not a node of the graph, leaves a normal graph exactly as it
    is: no link, no node, no error. The update without any relationship is
    the case of the empty list. *)
Theorem unknown_ends_change_nothing
    (g : GraphData.t) (f : Str) (u : Update.t) :
  normal g ->
  Update.concepts u = None \/ Update.concepts u = Some [] ->
  match Update.relationships u with
  | Some rs =>
      Forall (fun r => hasNode (Relationship.source_id r) g
                       && hasNode (Relationship.target_id r) g = false) rs
  | None => True
  end ->
  applyUpdate g f u = g.
Proof.
  intros [Hn Hl] Hcs Hrs.
  unfold applyUpdate, handleGraphUpdate.
  assert (Hst : match Update.concepts u with
                | Some cs => fold_left (conceptStep f) cs
                               (nodesMapOf g, linksMapOf g)
                | None => (nodesMapOf g, linksMapOf g)
                end = (nodesMapOf g, linksMapOf g)).
  { destruct Hcs as [E|E]; rewrite E; reflexivity. }
  rewrite Hst. cbn [fst snd].
  assert (Hlm : match Update.relationships u with
                | Some rs => fold_left (relationshipStep (nodesMapOf g)) rs
                               (linksMapOf g)
                | None => linksMapOf g
                end = linksMapOf g).
  { destruct (Update.relationships u) as [rs|]; [|reflexivity].
    apply relationshipSteps_unknown.
    eapply Forall_impl; [|exact Hrs].
    intros r Hr. simpl in Hr. now rewrite !nodesMapOf_has. }
  rewrite Hlm, (values_nodesMapOf g Hn), (values_linksMapOf g Hl).
  now destruct g.
Qed.

Lemma unknown_ends_change_nothing_witness :
  applyUpdate graphAB (Some "a")
    (Update.mk None
       (Some [Relationship.mk (Some "x") (Some "a") 4;
              Relationship.mk (Some "a") None 1]))
  = graphAB.
Proof.
  apply (unknown_ends_change_nothing graphAB (Some "a")
           (Update.mk None
              (Some [Relationship.mk (Some "x") (Some "a") 4;
                     Relationship.mk (Some "a") None 1]))).
  - split; repeat constructor; simpl; intuition discriminate.
  - now left.
  - simpl. repeat constructor.
Defined.


(** ** Nodes and links are kept *)

Lemma conceptSteps_keys_grow (f : Str) (cs : list Concept.t)
    (st : NodesMap * LinksMap) :
  exists news,
    JsMap.keys (fst (fold_left (conceptStep f) cs st))
    = JsMap.keys (fst st) ++ news.
Proof.
  revert st. induction cs as [|c cs IH]; simpl; intros st.
  - exists []. now rewrite app_nil_r.
  - destruct (IH (conceptStep f st c)) as [news E]. rewrite E.
    rewrite conceptStep_fst, JsMapMore.keys_set.
    rewrite <- app_assoc. eauto.
Qed.

Lemma conceptSteps_keep_node (f : Str) (cs : list Concept.t)
    (st : NodesMap * LinksMap) (i : Str) (n : GraphNode.t) :
  (exists n', JsMap.get str_eqb i (fst st) = Some n' /\ sameNodeButVal n n') ->
  exists n', JsMap.get str_eqb i (fst (fold_left (conceptStep f) cs st))
             = Some n' /\ sameNodeButVal n n'.
Proof.
  revert st. induction cs as [|c cs IH]; simpl; intros st H; [assumption|].
  apply IH. destruct H as [n' [Hget Hsame]].
  rewrite conceptStep_fst.
  destruct (str_eqb (Concept.id c) i) eqn:E.
  - apply str_eqb_eq in E. subst i.
    rewrite (JsMapMore.get_set_same _ str_eqb_eq).
    unfold mergedNode. rewrite Hget. eexists. split; [reflexivity|].
    exact Hsame.
  - rewrite (JsMapMore.get_set_other _ str_eqb_eq).
    + eauto.
    + intros ->. now rewrite str_eqb_refl in E.
Qed.

(** X3. A call removes no node and moves none: in a graph whose node ids are
    distinct, the ids of the nodes it returns are the old ids in their old
    order, followed by the new ones; and the node under an old id keeps its
    label and its position, its importance alone may have changed. *)
Theorem nodes_are_kept_in_order
    (g : GraphData.t) (f : Str) (u : Update.t) :
  NoDup (map GraphNode.id (GraphData.nodes g)) ->
  (exists news,
      map GraphNode.id (GraphData.nodes (applyUpdate g f u))
      = map GraphNode.id (GraphData.nodes g) ++ news)
  /\ (forall i n, getNode i g = Some n ->
        exists n', getNode i (applyUpdate g f u) = Some n'
                   /\ sameNodeButVal n n').
Proof.
  intros Hnd.
  destruct (afterConcepts_ok g f u) as [Hk _].
  assert (Hids : map GraphNode.id (GraphData.nodes g)
                 = JsMap.keys (nodesMapOf g)).
  { rewrite <- (keysOk_ids _ (nodesMapOf_keysOk g)).
    now rewrite (values_nodesMapOf g Hnd). }
  split.
  - rewrite applyUpdate_nodes, (keysOk_ids _ Hk), Hids.
    destruct (Update.concepts u) as [cs|].
    + apply (conceptSteps_keys_grow f cs (nodesMapOf g, linksMapOf g)).
    + exists []. now rewrite app_nil_r.
  - intros i n Hget.
    assert (H0 : exists n', JsMap.get str_eqb i (nodesMapOf g) = Some n'
                            /\ sameNodeButVal n n').
    { exists n. split; [|repeat split].
      rewrite (nodesMapOf_NoDup g Hnd), get_entriesOf. exact Hget. }
    unfold applyUpdate, handleGraphUpdate.
    rewrite (getNode_values _ _ i Hk).
    destruct (Update.concepts u) as [cs|]; [|exact H0].
    now apply conceptSteps_keep_node.
Qed.

Lemma nodes_are_kept_in_order_witness :
  exists n',
    getNode (Some "a")
      (applyUpdate graphPlaced (Some "b")
         (Update.mk (Some [concept "c" 3; concept "a" 6]) None))
    = Some n'
    /\ sameNodeButVal
         (GraphNode.mk (Some "a") (Some "Alpha") 19 (Some 12) (Some (-7))) n'.
Proof.
  apply (nodes_are_kept_in_order graphPlaced (Some "b")
           (Update.mk (Some [concept "c" 3; concept "a" 6]) None)).
  - repeat constructor; simpl; intuition discriminate.
  - reflexivity.
Defined.

Lemma conceptStep_keys_grow_links (f : Str) (st : NodesMap * LinksMap)
    (c : Concept.t) :
  exists news,
    JsMap.keys (snd (conceptStep f st c)) = JsMap.keys (snd st) ++ news.
Proof.
  destruct st as [nm lm]. unfold conceptStep. simpl.
  assert (H0 : exists news, JsMap.keys lm = JsMap.keys lm ++ news)
    by (exists []; now rewrite app_nil_r).
  destruct (JsMap.get str_eqb (Concept.id c) nm); [exact H0|].
  destruct (truthy f && _); [|exact H0].
  destruct (negb _ && _); [|exact H0]. simpl.
  rewrite JsMapMore.keys_set. eauto.
Qed.

Lemma conceptStep_keep_link (f : Str) (st : NodesMap * LinksMap)
    (c : Concept.t) (key : string) (l : GraphLink.t) :
  JsMap.get String.eqb key (snd st) = Some l ->
  JsMap.get String.eqb key (snd (conceptStep f st c)) = Some l.
Proof.
  destruct st as [nm lm]. unfold conceptStep. simpl. intros Hget.
  destruct (JsMap.get str_eqb (Concept.id c) nm); [exact Hget|].
  destruct (truthy f && _); [|exact Hget].
  destruct (JsMap.has String.eqb (pairKey f (Concept.id c)) lm) eqn:E;
    [exact Hget|].
  destruct (negb (JsMap.has String.eqb (pairKey (Concept.id c) f) lm));
    cbn [negb andb snd]; [|exact Hget].
  rewrite (JsMapMore.get_set_other _ string_eqb_eq); [exact Hget|].
  intros ->. unfold JsMap.has in E. now rewrite Hget in E.
Qed.

Lemma relationshipStep_keys_grow (nm : NodesMap) (lm : LinksMap)
    (r : Relationship.t) :
  exists news,
    JsMap.keys (relationshipStep nm lm r) = JsMap.keys lm ++ news.
Proof.
  unfold relationshipStep.
  destruct (JsMap.has str_eqb _ nm && JsMap.has str_eqb _ nm);
    [|exists []; now rewrite app_nil_r].
  destruct (JsMap.get String.eqb _ lm);
    rewrite JsMapMore.keys_set; eauto.
Qed.

Lemma relationshipStep_keep_link (nm : NodesMap) (lm : LinksMap)
    (r : Relationship.t) (key : string) (l : GraphLink.t) :
  (exists l', JsMap.get String.eqb key lm = Some l'
              /\ sameEnds l l') ->
  exists l', JsMap.get String.eqb key (relationshipStep nm lm r) = Some l'
             /\ sameEnds l l'.
Proof.
  intros [l' [Hget Hsame]]. unfold relationshipStep.
  destruct (JsMap.has str_eqb _ nm && JsMap.has str_eqb _ nm); [|eauto].
  set (k := pairKey (Relationship.source_id r) (Relationship.target_id r)).
  destruct (String.eqb k key) eqn:E.
  - apply String.eqb_eq in E. subst key. rewrite Hget.
    rewrite (JsMapMore.get_set_same _ string_eqb_eq).
    eexists. split; [reflexivity | exact Hsame].
  - apply String.eqb_neq in E.
    destruct (JsMap.get String.eqb k lm);
      rewrite (JsMapMore.get_set_other _ string_eqb_eq) by congruence; eauto.
Qed.

(** X4. A call removes no link and moves none: in a graph whose link keys are
    distinct, the keys of the links it returns are the old keys in their old
    order, followed by the new ones; and the link under an old key still
    joins the same two ids in the same direction, its strength alone may
    have changed. (Of an end that d3 has bound, only the id is compared: the
    node at that end is the node of the node list, whose importance the same
    call may have changed.) *)
Theorem links_are_kept_in_order
    (g : GraphData.t) (f : Str) (u : Update.t) :
  NoDup (map keyOfLink (GraphData.links g)) ->
  (exists news,
      map keyOfLink (GraphData.links (applyUpdate g f u))
      = map keyOfLink (GraphData.links g) ++ news)
  /\ (forall key l, getLink key g = Some l ->
        exists l', getLink key (applyUpdate g f u) = Some l'
                   /\ sameEnds l l').
Proof.
  intros Hnd.
  destruct (afterConcepts_ok g f u) as [_ Hlk].
  pose proof (afterRelationships_ok
                (fst match Update.concepts u with
                     | Some cs => fold_left (conceptStep f) cs
                                    (nodesMapOf g, linksMapOf g)
                     | None => (nodesMapOf g, linksMapOf g)
                     end) _ (Update.relationships u) Hlk) as Hk2.
  assert (Hkeys : map keyOfLink (GraphData.links g)
                  = JsMap.keys (linksMapOf g)).
  { rewrite <- (linkKeysOk_keys _ (linksMapOf_keysOk g)).
    now rewrite (values_linksMapOf g Hnd). }
  assert (Hc : forall cs st, exists news,
             JsMap.keys (snd (fold_left (conceptStep f) cs st))
             = JsMap.keys (snd st) ++ news).
  { induction cs as [|c cs IH]; simpl; intros st.
    - exists []. now rewrite app_nil_r.
    - destruct (IH (conceptStep f st c)) as [n1 E1].
      destruct (conceptStep_keys_grow_links f st c) as [n2 E2].
      rewrite E1, E2, <- app_assoc. eauto. }
  assert (Hr : forall nm rs lm, exists news,
             JsMap.keys (fold_left (relationshipStep nm) rs lm)
             = JsMap.keys lm ++ news).
  { intros nm. induction rs as [|r rs IH]; simpl; intros lm.
    - exists []. now rewrite app_nil_r.
    - destruct (IH (relationshipStep nm lm r)) as [n1 E1].
      destruct (relationshipStep_keys_grow nm lm r) as [n2 E2].
      rewrite E1, E2, <- app_assoc. eauto. }
  assert (Hc' : forall cs st key l,
             JsMap.get String.eqb key (snd st) = Some l ->
             JsMap.get String.eqb key
               (snd (fold_left (conceptStep f) cs st)) = Some l).
  { induction cs as [|c cs IH]; simpl; intros st key l H; [assumption|].
    apply IH. now apply conceptStep_keep_link. }
  assert (Hr' : forall nm rs lm key l,
             (exists l', JsMap.get String.eqb key lm = Some l'
                         /\ sameEnds l l') ->
             exists l', JsMap.get String.eqb key
                          (fold_left (relationshipStep nm) rs lm) = Some l'
                        /\ sameEnds l l').
  { intros nm. induction rs as [|r rs IH]; simpl; intros lm key l H;
      [assumption|].
    apply IH. now apply relationshipStep_keep_link. }
  split.
  - assert (Hgrow : exists news,
               JsMap.keys
                 match Update.relationships u with
                 | Some rs =>
                     fold_left
                       (relationshipStep
                          (fst match Update.concepts u with
                               | Some cs => fold_left (conceptStep f) cs
                                              (nodesMapOf g, linksMapOf g)
                               | None => (nodesMapOf g, linksMapOf g)
                               end)) rs
                       (snd match Update.concepts u with
                            | Some cs => fold_left (conceptStep f) cs
                                           (nodesMapOf g, linksMapOf g)
                            | None => (nodesMapOf g, linksMapOf g)
                            end)
                 | None =>
                     snd match Update.concepts u with
                         | Some cs => fold_left (conceptStep f) cs
                                        (nodesMapOf g, linksMapOf g)
                         | None => (nodesMapOf g, linksMapOf g)
                         end
                 end = JsMap.keys (linksMapOf g) ++ news).
    { destruct (Update.concepts u) as [cs|];
        destruct (Update.relationships u) as [rs|].
      + destruct (Hr (fst (fold_left (conceptStep f) cs
                             (nodesMapOf g, linksMapOf g))) rs
                     (snd (fold_left (conceptStep f) cs
                             (nodesMapOf g, linksMapOf g)))) as [n1 E1].
        destruct (Hc cs (nodesMapOf g, linksMapOf g)) as [n2 E2].
        rewrite E1, E2, <- app_assoc. eauto.
      + apply (Hc cs (nodesMapOf g, linksMapOf g)).
      + apply (Hr (nodesMapOf g) rs (linksMapOf g)).
      + exists []. now rewrite app_nil_r. }
    destruct Hgrow as [news E]. exists news.
    rewrite Hkeys, <- E. exact (linkKeysOk_keys _ Hk2).
  - intros key l Hget.
    assert (H0 : JsMap.get String.eqb key (linksMapOf g) = Some l).
    { rewrite (linksMapOf_NoDup g Hnd).
      rewrite (JsMapMore.get_find String.eqb keyOfLink). exact Hget. }
    unfold applyUpdate, handleGraphUpdate.
    rewrite (getLink_values _ _ key Hk2).
    assert (H1 : JsMap.get String.eqb key
                   (snd match Update.concepts u with
                        | Some cs => fold_left (conceptStep f) cs
                                       (nodesMapOf g, linksMapOf g)
                        | None => (nodesMapOf g, linksMapOf g)
                        end) = Some l).
    { destruct (Update.concepts u) as [cs|]; [|exact H0].
      now apply Hc'. }
    destruct (Update.relationships u) as [rs|].
    + apply Hr'. exists l. split; [exact H1 | split; reflexivity].
    + exists l. split; [exact H1 | split; reflexivity].
Qed.

Lemma links_are_kept_in_order_witness :
  exists l',
    getLink "a-b" (applyUpdate graphBound (Some "b")
                     (Update.mk (Some [concept "c" 3; concept "a" 1])
                        (Some [Relationship.mk (Some "a") (Some "b") 5])))
    = Some l'
    /\ sameEnds boundAB l'.
Proof.
  apply (links_are_kept_in_order graphBound (Some "b")
           (Update.mk (Some [concept "c" 3; concept "a" 1])
              (Some [Relationship.mk (Some "a") (Some "b") 5]))).
  - repeat constructor; simpl; intuition discriminate.
  - reflexivity.
Defined.

(** ** The caps of the growth *)

Lemma conceptStep_capped (f : Str) (st : NodesMap * LinksMap)
    (c : Concept.t) (i : Str) :
  (if str_eqb (Concept.id c) i
   then JsMap.has str_eqb i (fst st) = true
   else exists n, JsMap.get str_eqb i (fst st) = Some n
                  /\ atMost 20 (GraphNode.val n)) ->
  exists n, JsMap.get str_eqb i (fst (conceptStep f st c)) = Some n
            /\ atMost 20 (GraphNode.val n).
Proof.
  rewrite conceptStep_fst.
  destruct (str_eqb (Concept.id c) i) eqn:E.
  - apply str_eqb_eq in E. subst i. intros Hhas.
    rewrite (JsMapMore.get_set_same _ str_eqb_eq).
    unfold mergedNode, JsMap.has in *.
    destruct (JsMap.get str_eqb (Concept.id c) (fst st)) as [e|];
      [|discriminate].
    eexists. split; [reflexivity|]. simpl. apply Math_min_atMost.
  - intros H. rewrite (JsMapMore.get_set_other _ str_eqb_eq); [exact H|].
    intros ->. now rewrite str_eqb_refl in E.
Qed.

Lemma conceptSteps_capped (f : Str) (cs : list Concept.t) (c : Concept.t)
    (st : NodesMap * LinksMap) :
  In c cs -> JsMap.has str_eqb (Concept.id c) (fst st) = true ->
  exists n, JsMap.get str_eqb (Concept.id c)
              (fst (fold_left (conceptStep f) cs st)) = Some n
            /\ atMost 20 (GraphNode.val n).
Proof.
  intros Hin Hhas.
  assert (Hkeep : forall cs' (st' : NodesMap * LinksMap),
             (exists n, JsMap.get str_eqb (Concept.id c) (fst st') = Some n
                        /\ atMost 20 (GraphNode.val n)) ->
             exists n, JsMap.get str_eqb (Concept.id c)
                         (fst (fold_left (conceptStep f) cs' st')) = Some n
                       /\ atMost 20 (GraphNode.val n)).
  { induction cs' as [|c' cs' IH]; cbn [fold_left]; intros st' H;
      [assumption|].
    apply IH, conceptStep_capped.
    destruct (str_eqb (Concept.id c') (Concept.id c)); [|exact H].
    destruct H as [n [Hget _]]. unfold JsMap.has. now rewrite Hget. }
  revert st Hhas. induction cs as [|c0 cs IH]; cbn [fold_left];
    intros st Hhas; [contradiction|].
  destruct Hin as [->|Hin].
  - apply Hkeep, conceptStep_capped. now rewrite str_eqb_refl.
  - apply IH; [assumption|]. now apply conceptStep_has_mono.
Qed.

(** X5. The growth of an importance is capped: after a call whose update has a
    concept for an id that was a node of the graph, the importance of the
    node under that id is at most 20 (or NaN, when the arithmetic gave
    NaN), however large it was before and whatever the other entries of the
    update. *)
Theorem merged_importance_is_capped
    (g : GraphData.t) (f : Str) (u : Update.t) (cs : list Concept.t)
    (c : Concept.t) :
  Update.concepts u = Some cs -> In c cs ->
  hasNode (Concept.id c) g = true ->
  exists n, getNode (Concept.id c) (applyUpdate g f u) = Some n
            /\ atMost 20 (GraphNode.val n).
Proof.
  intros Hu Hin Hnode.
  destruct (afterConcepts_ok g f u) as [Hk _].
  unfold applyUpdate, handleGraphUpdate.
  rewrite (getNode_values _ _ _ Hk). rewrite Hu.
  apply conceptSteps_capped; [assumption|].
  simpl. now rewrite nodesMapOf_has.
Qed.

Lemma merged_importance_is_capped_witness :
  exists n,
    getNode (Some "a")
      (applyUpdate (GraphData.mk [node "a" 500] []) None
         (conceptEvent (concept "a" 4)))
    = Some n
    /\ atMost 20 (GraphNode.val n).
Proof.
  apply (merged_importance_is_capped (GraphData.mk [node "a" 500] []) None
           (conceptEvent (concept "a" 4)) [concept "a" 4] (concept "a" 4)).
  - reflexivity.
  - now left.
  - reflexivity.
Defined.

(** ** Relationships *)

Lemma relationshipStep_has_mono (nm : NodesMap) (lm : LinksMap)
    (r : Relationship.t) (key : string) :
  JsMap.has String.eqb key lm = true ->
  JsMap.has String.eqb key (relationshipStep nm lm r) = true.
Proof.
  intros H. unfold relationshipStep.
  destruct (JsMap.has str_eqb _ nm && JsMap.has str_eqb _ nm); [|exact H].
  destruct (JsMap.get String.eqb _ lm); now apply JsMapFacts.has_set_mono.
Qed.

Lemma relationshipSteps_has_mono (nm : NodesMap) (rs : list Relationship.t)
    (lm : LinksMap) (key : string) :
  JsMap.has String.eqb key lm = true ->
  JsMap.has String.eqb key (fold_left (relationshipStep nm) rs lm) = true.
Proof.
  revert lm. induction rs as [|r rs IH]; simpl; intros lm H; [assumption|].
  apply IH. now apply relationshipStep_has_mono.
Qed.

Lemma relationshipSteps_filed (nm : NodesMap) (rs : list Relationship.t)
    (lm : LinksMap) (r : Relationship.t) :
  In r rs ->
  JsMap.has str_eqb (Relationship.source_id r) nm = true ->
  JsMap.has str_eqb (Relationship.target_id r) nm = true ->
  JsMap.has String.eqb
    (pairKey (Relationship.source_id r) (Relationship.target_id r))
    (fold_left (relationshipStep nm) rs lm) = true.
Proof.
  intros Hin Hs Ht. revert lm.
  induction rs as [|r0 rs IH]; simpl; intros lm; [contradiction|].
  destruct Hin as [->|Hin]; [|now apply IH].
  apply relationshipSteps_has_mono.
  unfold relationshipStep. rewrite Hs, Ht. simpl.
  destruct (JsMap.get String.eqb _ lm);
    apply (JsMapFacts.has_set_same _ string_eqb_eq).
Qed.

(** X6. No relationship between two nodes is lost: after a call, every
    relationship of the update whose two ends are nodes of the graph
    returned - nodes of the old graph or concepts of the same update, the
    concepts being merged first - has a link filed under its key. *)
Theorem relationship_between_nodes_is_filed
    (g : GraphData.t) (f : Str) (u : Update.t)
    (rs : list Relationship.t) (r : Relationship.t) :
  Update.relationships u = Some rs -> In r rs ->
  hasNode (Relationship.source_id r) (applyUpdate g f u) = true ->
  hasNode (Relationship.target_id r) (applyUpdate g f u) = true ->
  linkStored (Relationship.source_id r) (Relationship.target_id r)
    (applyUpdate g f u) = true.
Proof.
  intros Hu Hin.
  destruct (afterConcepts_ok g f u) as [Hk Hlk].
  pose proof (afterRelationships_ok
                (fst match Update.concepts u with
                     | Some cs => fold_left (conceptStep f) cs
                                    (nodesMapOf g, linksMapOf g)
                     | None => (nodesMapOf g, linksMapOf g)
                     end) _ (Update.relationships u) Hlk) as Hk2.
  unfold linkStored, applyUpdate, handleGraphUpdate.
  rewrite <- !(keysOk_hasNode _ _ _ Hk).
  rewrite (keyStored_values _ _ _ Hk2). rewrite Hu.
  now apply relationshipSteps_filed.
Qed.

Lemma relationship_between_nodes_is_filed_witness :
  linkStored (Some "p") (Some "q")
    (applyUpdate GraphData.empty None
       (Update.mk (Some [concept "p" 1; concept "q" 2])
          (Some [Relationship.mk (Some "p") (Some "q") 3])))
  = true.
Proof.
  apply (relationship_between_nodes_is_filed GraphData.empty None
           (Update.mk (Some [concept "p" 1; concept "q" 2])
              (Some [Relationship.mk (Some "p") (Some "q") 3]))
           [Relationship.mk (Some "p") (Some "q") 3]
           (Relationship.mk (Some "p") (Some "q") 3)).
  - reflexivity.
  - now left.
  - reflexivity.
  - reflexivity.
Defined.

(** X7. A relationship in the direction in which its link is stored makes the
    link stronger and adds none: in a normal graph that has both ends as
    nodes and the link [l] under the key of the relationship, the links
    returned are the old ones, with [l] alone changed, its strength set to
    [Math.min(10, strength + incoming * 0.5)], which is at most 10 (or
    NaN). *)
Theorem stored_relationship_grows_its_link
    (g : GraphData.t) (f : Str) (r : Relationship.t) (l : GraphLink.t) :
  normal g ->
  hasNode (Relationship.source_id r) g = true ->
  hasNode (Relationship.target_id r) g = true ->
  getLink (pairKey (Relationship.source_id r) (Relationship.target_id r)) g
  = Some l ->
  let key := pairKey (Relationship.source_id r) (Relationship.target_id r) in
  let grown :=
    GraphLink.with_value l
      (Math_min 10 (GraphLink.value l + Relationship.strength r * 0.5)) in
  GraphData.links (applyUpdate g f (Update.mk (Some []) (Some [r])))
  = map (fun l0 => if String.eqb (keyOfLink l0) key then grown else l0)
        (GraphData.links g)
  /\ atMost 10 (GraphLink.value grown).
Proof.
  intros [_ Hnd] Hs Ht Hget key grown.
  split; [|apply Math_min_atMost].
  assert (Hlm : linksMapOf g
                = map (fun l => (keyOfLink l, l)) (GraphData.links g))
    by now apply linksMapOf_NoDup.
  assert (Hget' : JsMap.get String.eqb key (linksMapOf g) = Some l).
  { rewrite Hlm, (JsMapMore.get_find String.eqb keyOfLink). exact Hget. }
  unfold applyUpdate, handleGraphUpdate.
  cbn [Update.concepts Update.relationships fold_left fst snd
       GraphData.links].
  unfold relationshipStep. fold key.
  rewrite !nodesMapOf_has, Hs, Ht, Hget'. cbn [andb]. fold grown.
  rewrite (JsMapMore.values_set_present _ string_eqb_eq).
  - rewrite Hlm, map_map. reflexivity.
  - apply (JsMapFacts.of_entries_keys_NoDup _ string_eqb_eq).
  - unfold JsMap.has. now rewrite Hget'.
Qed.

Lemma stored_relationship_grows_its_link_witness :
  GraphData.links
    (applyUpdate graphPlaced None
       (Update.mk (Some []) (Some [Relationship.mk (Some "a") (Some "b") 6])))
  = [link "a" "b" 10].
Proof.
  apply (stored_relationship_grows_its_link graphPlaced None
           (Relationship.mk (Some "a") (Some "b") 6) (link "a" "b" 9)).
  - split; repeat constructor; simpl; intuition discriminate.
  - reflexivity.
  - reflexivity.
  - reflexivity.
Defined.

(** ** Without a focus *)

Lemma conceptSteps_no_focus (f : Str) (cs : list Concept.t)
    (st : NodesMap * LinksMap) :
  truthy f = false -> snd (fold_left (conceptStep f) cs st) = snd st.
Proof.
  intros Hf. revert st. induction cs as [|c cs IH]; simpl; intros st;
    [reflexivity|].
  rewrite IH. destruct st as [nm lm]. unfold conceptStep. rewrite Hf.
  destruct (JsMap.get str_eqb (Concept.id c) nm); reflexivity.
Qed.

(** X8. Concepts alone add no link when there is no focus: with the focus
    [null] (or the empty string), an update without relationships returns,
    for a graph whose link keys are distinct, links that join the same ids
    in the same directions with the same strengths, in the same order,
    however many nodes it creates or makes more important. (Of an end that
    d3 has bound, only the id is compared: the node at that end is the node
    of the node list, whose importance the call may have changed.) *)
Theorem no_focus_no_contextual_link
    (g : GraphData.t) (f : Str) (u : Update.t) :
  truthy f = false ->
  NoDup (map keyOfLink (GraphData.links g)) ->
  Update.relationships u = None \/ Update.relationships u = Some [] ->
  map linkData (GraphData.links (applyUpdate g f u))
  = map linkData (GraphData.links g).
Proof.
  intros Hf Hnd Hrs. rewrite applyUpdate_links. cbv zeta.
  assert (Hst : snd match Update.concepts u with
                    | Some cs => fold_left (conceptStep f) cs
                                   (nodesMapOf g, linksMapOf g)
                    | None => (nodesMapOf g, linksMapOf g)
                    end = linksMapOf g).
  { destruct (Update.concepts u) as [cs|]; [|reflexivity].
    now rewrite conceptSteps_no_focus. }
  f_equal.
  destruct Hrs as [E|E]; rewrite E; cbn [fold_left]; rewrite Hst;
    now apply values_linksMapOf.
Qed.

Lemma no_focus_no_contextual_link_witness :
  map linkData
    (GraphData.links
       (applyUpdate graphBound None
          (Update.mk (Some [concept "c" 1; concept "d" 2; concept "a" 3])
             None)))
  = [(Some "a", Some "b", 9)].
Proof.
  apply (no_focus_no_contextual_link graphBound None
           (Update.mk (Some [concept "c" 1; concept "d" 2; concept "a" 3])
              None)).
  - reflexivity.
  - repeat constructor. simpl. tauto.
  - now left.
Defined.

(** ** No entry is skipped *)





End GraphStoreMoreFacts.

(* ================================================================== *)
(** * More on the gesture state machine: dwell and soundness *)
(* ================================================================== *)

Module GestureMoreFacts.

Import Js Gesture GestureMore GestureFacts.

Lemma stateAfter_snoc (st : State) (frames : list Frame) (fr : Frame) :
  stateAfter st (frames ++ [fr])
  = fst (stepOf (classify fr) (stateAfter st frames)
           (hoveredNodeId fr) (focusedNodeId fr)).
Proof.
  rewrite stateAfter_app. unfold stateAfter at 1. now rewrite run_cons.
Qed.

Lemma eventOf_stepOf (st : State) (fr : Frame) :
  eventOf (predictWebcam st fr)
  = snd (stepOf (classify fr) st (hoveredNodeId fr) (focusedNodeId fr)).
Proof. unfold eventOf. now rewrite predictWebcam_stepOf. Qed.

(** ** The counters count the frames of a streak *)

(** After a run from the initial refs, the pinch counter holds the number
    of pinching frames the run ends with, and the spread counter the number
    of open frames it ends with. *)
Lemma counters_streak (frames : list Frame) :
  pinchDuration (stateAfter initial frames)
  = ticks (streak Pinching (rev frames))
  /\ spreadDuration (stateAfter initial frames)
     = ticks (streak Open (rev frames)).
Proof.
  induction frames as [|fr frames [IHp IHs]] using rev_ind.
  - split; reflexivity.
  - rewrite stateAfter_snoc, rev_app_distr. cbn [rev app streak].
    unfold stepOf.
    destruct (classify fr); cbn [Class_eqb ticks].
    + rewrite <- IHp.
      destruct ((5 <? _) && _); [destruct (truthy _)|]; split; reflexivity.
    + rewrite <- IHs. destruct ((8 <? _) && _); split; reflexivity.
    + split; reflexivity.
    + split; reflexivity.
Qed.

Lemma ticks_over_5 (n : nat) : (5 <? ticks n + 1) = true -> (5 <= n)%nat.
Proof.
  intros H.
  destruct n as [|[|[|[|[|n]]]]]; try (vm_compute in H; discriminate); lia.
Qed.

Lemma ticks_over_8 (n : nat) : (8 <? ticks n + 1) = true -> (8 <= n)%nat.
Proof.
  intros H.
  destruct n as [|[|[|[|[|[|[|[|n]]]]]]]];
    try (vm_compute in H; discriminate); lia.
Qed.

(** A streak of [n] frames is made of the last [n] frames of the run. *)
Lemma streak_held (cl : Class) (n : nat) (past : list Frame) :
  (n <= streak cl past)%nat ->
  exists held rest,
    past = held ++ rest /\ List.length held = n
    /\ Forall (fun f => classify f = cl) held.
Proof.
  revert past. induction n as [|n IH]; intros past H.
  - exists [], past. repeat split. constructor.
  - destruct past as [|fr past]; simpl in H; [lia|].
    destruct (Class_eqb (classify fr) cl) eqn:E; [|lia].
    destruct (IH past ltac:(lia)) as [held [rest [-> [Hl Hall]]]].
    exists (fr :: held), rest. repeat split; [simpl; now rewrite Hl|].
    constructor; [|assumption].
    destruct (classify fr), cl; (reflexivity || discriminate).
Qed.

Lemma run_ends_with (cl : Class) (n : nat) (frames : list Frame) :
  (n <= streak cl (rev frames))%nat ->
  exists earlier held,
    frames = earlier ++ held /\ List.length held = n
    /\ Forall (fun f => classify f = cl) held.
Proof.
  intros H. destruct (streak_held cl n _ H) as [held [rest [E [Hl Hall]]]].
  exists (rev rest), (rev held). repeat split.
  - rewrite <- rev_app_distr, <- E. now rewrite rev_involutive.
  - now rewrite length_rev.
  - now apply Forall_rev.
Qed.

(** X9. No event without a dwell: in a run from the initial refs, a frame that
    fires [Select] is a pinching frame that comes after five pinching
    frames in a row, and a frame that fires [Deselect] is an open frame that
    comes after eight open frames in a row. *)
Theorem event_needs_a_dwell (frames : list Frame) (fr : Frame) (e : Event) :
  fires frames fr = Some e ->
  match e with
  | Select _ =>
      classify fr = Pinching
      /\ exists earlier held,
           frames = earlier ++ held /\ List.length held = 5%nat
           /\ Forall (fun f => classify f = Pinching) held
  | Deselect =>
      classify fr = Open
      /\ exists earlier held,
           frames = earlier ++ held /\ List.length held = 8%nat
           /\ Forall (fun f => classify f = Open) held
  end.
Proof.
  unfold fires. rewrite eventOf_stepOf.
  destruct (counters_streak frames) as [Hp Hs].
  unfold stepOf. destruct (classify fr); try discriminate.
  - rewrite Hp.
    destruct (5 <? _) eqn:E5; [|discriminate]. apply ticks_over_5 in E5.
    destruct (negb _); [|discriminate]. cbn [andb].
    destruct (truthy _); [|discriminate].
    destruct (negb _); [|discriminate]. cbn [snd].
    intros [= <-]. split; [reflexivity|]. now apply run_ends_with.
  - rewrite Hs.
    destruct (8 <? _) eqn:E8; [|discriminate]. apply ticks_over_8 in E8.
    destruct (negb _); [|discriminate]. cbn [andb snd].
    destruct (truthy _); [|discriminate].
    intros [= <-]. split; [reflexivity|]. now apply run_ends_with.
Qed.

Lemma event_needs_a_dwell_witness :
  classify (pinchFrame (Some "h") None) = Pinching
  /\ exists earlier held,
       repeat (pinchFrame (Some "h") None) 5 = earlier ++ held
       /\ List.length held = 5%nat
       /\ Forall (fun f => classify f = Pinching) held.
Proof.
  apply (event_needs_a_dwell (repeat (pinchFrame (Some "h") None) 5)
           (pinchFrame (Some "h") None) (Select (Some "h"))).
  reflexivity.
Defined.

(** ** What an event names *)

(** X10. An event is never made up: whatever the refs a run starts with, every
    [Select i] it fires comes from a pinching frame whose hover is [i], a
    hover the code takes as set and that is not the focus of that frame;
    and every [Deselect] comes from an open frame that has a focus. *)
Theorem events_come_from_their_frames
    (st : State) (frames : list Frame) (e : Event) :
  In e (events st frames) ->
  exists fr,
    In fr frames
    /\ match e with
       | Select i =>
           classify fr = Pinching /\ hoveredNodeId fr = i
           /\ truthy i = true /\ str_eqb (focusedNodeId fr) i = false
       | Deselect =>
           classify fr = Open /\ truthy (focusedNodeId fr) = true
       end.
Proof.
  unfold events. revert st.
  induction frames as [|fr frames IH]; intros st; [intros []|].
  rewrite run_cons. cbn zeta. cbn [snd].
  assert (Hrest : In e (snd (run (fst (stepOf (classify fr) st
                                        (hoveredNodeId fr)
                                        (focusedNodeId fr))) frames)) ->
                  exists fr', In fr' (fr :: frames)
                    /\ match e with
                       | Select i =>
                           classify fr' = Pinching /\ hoveredNodeId fr' = i
                           /\ truthy i = true
                           /\ str_eqb (focusedNodeId fr') i = false
                       | Deselect =>
                           classify fr' = Open
                           /\ truthy (focusedNodeId fr') = true
                       end).
  { intros H. destruct (IH _ H) as [fr' [Hin Hfr']].
    exists fr'. split; [now right | assumption]. }
  destruct (snd (stepOf _ _ _ _)) as [e0|] eqn:E; [|exact Hrest].
  intros [<-|H]; [|now apply Hrest].
  exists fr. split; [now left|].
  unfold stepOf in E. destruct (classify fr); try discriminate.
  - destruct ((5 <? _) && _); [|discriminate].
    destruct (truthy (hoveredNodeId fr)) eqn:Ht; [|discriminate].
    cbn [snd] in E.
    destruct (str_eqb (focusedNodeId fr) (hoveredNodeId fr)) eqn:Ef;
      [discriminate|].
    cbn [negb] in E. injection E as <-. auto.
  - destruct ((8 <? _) && _); [|discriminate]. cbn [snd] in E.
    destruct (truthy (focusedNodeId fr)) eqn:Ht; [|discriminate].
    injection E as <-. auto.
Qed.

Lemma events_come_from_their_frames_witness :
  exists fr,
    In fr (repeat (pinchFrame (Some "h") (Some "g")) 7)
    /\ classify fr = Pinching /\ hoveredNodeId fr = Some "h"
    /\ truthy (Some "h") = true
    /\ str_eqb (focusedNodeId fr) (Some "h") = false.
Proof.
  apply (events_come_from_their_frames initial
           (repeat (pinchFrame (Some "h") (Some "g")) 7)
           (Select (Some "h"))).
  now left.
Defined.

(** ** The open hand *)

Lemma open_run_quiet (frames : list Frame) :
  Forall (fun fr => classify fr = Open) frames ->
  (List.length frames <= 8)%nat ->
  run initial frames
  = (mkState 0 (ticks (List.length frames)) false, []).
Proof.
  induction frames as [|fr frames IH] using rev_ind; intros Hall Hlen.
  - reflexivity.
  - apply Forall_app in Hall as [Hall Hfr].
    apply Forall_cons_iff in Hfr as [Hfr _].
    rewrite length_app in *. cbn [List.length] in *.
    rewrite run_app, IH by (assumption || lia). cbn [fst snd app].
    rewrite run_cons, Hfr. cbn zeta. unfold stepOf.
    cbn [spreadDuration hasTriggered negb].
    replace (List.length frames + 1)%nat with (S (List.length frames))
      by lia.
    cbn [ticks].
    assert (E : (8 <? ticks (List.length frames) + 1) = false).
    { destruct (8 <? _) eqn:E; [|reflexivity].
      apply ticks_over_8 in E. lia. }
    rewrite E. reflexivity.
Qed.

Lemma openOn_not_neutral (f : string) (frames : list Frame) :
  Forall (openOn f) frames ->
  Forall (fun fr => classify fr <> Neutral) frames.
Proof.
  apply Forall_impl. intros fr [H _]. rewrite H. discriminate.
Qed.

Lemma openOn_open (f : string) (frames : list Frame) :
  Forall (openOn f) frames ->
  Forall (fun fr => classify fr = Open) frames.
Proof. apply Forall_impl. now intros fr [H _]. Qed.

(** X11. The open hand leaves the focus after nine frames: from the initial
    refs, a run of open frames with a focus [f] fires nothing as long as it
    has eight frames or fewer, and exactly one [Deselect] - on its ninth
    frame - however long it goes on. *)
Theorem open_hand_exits_on_ninth_frame (f : string) (frames : list Frame) :
  truthy (Some f) = true -> Forall (openOn f) frames ->
  events initial frames
  = if (9 <=? List.length frames)%nat then [Deselect] else [].
Proof.
  intros Hf Hall.
  destruct (9 <=? List.length frames)%nat eqn:E.
  - apply Nat.leb_le in E.
    rewrite <- (firstn_skipn 8 frames) in Hall |- *.
    apply Forall_app in Hall as [H8 Hrest].
    assert (Hl8 : List.length (firstn 8 frames) = 8%nat)
      by (rewrite length_firstn; lia).
    destruct (skipn 8 frames) as [|fr rest] eqn:Es.
    { apply (f_equal (@List.length Frame)) in Es.
      rewrite length_skipn in Es. simpl in Es. lia. }
    apply Forall_cons_iff in Hrest as [[Hc Hfoc] Hrest].
    unfold events.
    rewrite run_app, (open_run_quiet _ (openOn_open f _ H8)) by lia.
    rewrite Hl8. cbn [fst snd app].
    rewrite run_cons, Hc, Hfoc. cbn zeta. unfold stepOf.
    cbn [spreadDuration hasTriggered negb].
    change (8 <? ticks 8 + 1) with true. cbn [andb fst snd]. rewrite Hf.
    destruct (run_armed rest (mkState 0 (ticks 8 + 1) true)
                (openOn_not_neutral f _ Hrest) eq_refl) as [He _].
    unfold events in He. now rewrite He.
  - apply Nat.leb_gt in E. unfold events.
    rewrite (open_run_quiet _ (openOn_open f _ Hall)) by lia. reflexivity.
Qed.

Lemma open_hand_exits_on_ninth_frame_witness :
  events initial (repeat (openFrame None (Some "a")) 40) = [Deselect].
Proof.
  apply (open_hand_exits_on_ninth_frame "a"
           (repeat (openFrame None (Some "a")) 40)).
  - reflexivity.
  - apply Forall_forall. intros fr Hin. apply repeat_spec in Hin.
    subst fr. split; reflexivity.
Defined.

End GestureMoreFacts.

(* ================================================================== *)
(** * More on [ThinkingGraph.tsx]: ties, the effect, the layers *)
(* ================================================================== *)

Module LayoutFacts.

Import Js JsMath ThinkingGraph Layout FloatFacts FloatOrder.
Import ThinkingGraphFacts.

(** ** Which of the nearest nodes is hit *)

Lemma hitStep_firstInv (nodes : list GraphNode.t) (v : View)
    (cursor : HandCursor.t) (ms : list GraphNode.t)
    (acc : option Str * float) (node : GraphNode.t) :
  firstInv nodes v cursor ms acc ->
  firstInv nodes v cursor (ms ++ [node]) (hitStep nodes v cursor acc node).
Proof.
  intros Hinv. unfold hitStep.
  destruct (nodeDist nodes v cursor node) as [dist|] eqn:Hd.
  - destruct (dist <? snd acc) eqn:Hlt.
    + (* the node becomes the hit, after all the nodes gone through *)
      right. exists ms, node, []. cbn [fst snd].
      repeat split; try assumption.
      * destruct Hinv as [[_ [E _]]|[pre [n [post [_ [_ [_ [H70 _]]]]]]]].
        -- now rewrite <- E.
        -- now apply (ltb_trans dist (snd acc) 70).
      * intros m d Hin Hm.
        destruct Hinv as [[_ [E Hfar]]|
                          [pre [n [post [-> [_ [Hn [_ [Hpre Hpost]]]]]]]]].
        -- apply (not_leb_below dist (snd acc)); [assumption|].
           rewrite E. now apply (Hfar m).
        -- apply in_app_or in Hin as [Hin|[<-|Hin]].
           ++ apply (not_leb_above dist (snd acc)); [assumption|].
              now apply (Hpre m).
           ++ rewrite Hn in Hm. injection Hm as <-.
              apply (not_leb_below dist (snd acc)); [assumption|].
              apply ltb_irrefl.
           ++ apply (not_leb_below dist (snd acc)); [assumption|].
              now apply (Hpost m).
      * intros m d [].
    + (* the hit stays *)
      destruct Hinv as [[E1 [E2 Hfar]]|
                        [pre [n [post [-> [Ei [Hn [H70 [Hpre Hpost]]]]]]]]].
      * left. repeat split; try assumption.
        intros m d Hin Hm. apply in_app_or in Hin as [Hin|[<-|[]]].
        -- now apply (Hfar m).
        -- rewrite Hd in Hm. injection Hm as <-. now rewrite <- E2.
      * right. exists pre, n, (post ++ [node]).
        repeat split; try assumption.
        -- now rewrite <- app_assoc.
        -- intros m d Hin Hm. apply in_app_or in Hin as [Hin|[<-|[]]].
           ++ now apply (Hpost m).
           ++ rewrite Hd in Hm. now injection Hm as <-.
  - (* a node without a position is passed over *)
    destruct Hinv as [[E1 [E2 Hfar]]|
                      [pre [n [post [-> [Ei [Hn [H70 [Hpre Hpost]]]]]]]]].
    + left. repeat split; try assumption.
      intros m d Hin Hm. apply in_app_or in Hin as [Hin|[<-|[]]].
      * now apply (Hfar m).
      * congruence.
    + right. exists pre, n, (post ++ [node]).
      repeat split; try assumption.
      * now rewrite <- app_assoc.
      * intros m d Hin Hm. apply in_app_or in Hin as [Hin|[<-|[]]].
        -- now apply (Hpost m).
        -- congruence.
Qed.

Lemma hitLoop_firstInv (nodes : list GraphNode.t) (v : View)
    (cursor : HandCursor.t) (l ms : list GraphNode.t)
    (acc : option Str * float) :
  firstInv nodes v cursor ms acc ->
  firstInv nodes v cursor (ms ++ l)
    (fold_left (hitStep nodes v cursor) l acc).
Proof.
  revert ms acc. induction l as [|node l IH]; intros ms acc H.
  - now rewrite app_nil_r.
  - cbn [fold_left].
    replace (ms ++ node :: l) with ((ms ++ [node]) ++ l)
      by now rewrite <- app_assoc.
    apply IH. now apply hitStep_firstInv.
Qed.

(** X12. Of the nodes that are equally near, the first of the array is the one
    hit: when the hit test returns an id, it is the id of a node of the
    array that has a position and is nearer than 70 pixels, no node before
    it in the array is as near as it is, and no node after it is nearer. *)
Theorem hit_test_takes_first_of_nearest
    (nodes : list GraphNode.t) (v : View) (cursor : HandCursor.t)
    (i : Str) :
  hitTest nodes v cursor = Some i ->
  exists pre n post d,
    nodes = pre ++ n :: post /\ GraphNode.id n = i
    /\ nodeDist nodes v cursor n = Some d /\ (d <? 70) = true
    /\ (forall m d', In m pre -> nodeDist nodes v cursor m = Some d' ->
                     (d' <=? d) = false)
    /\ (forall m d', In m post -> nodeDist nodes v cursor m = Some d' ->
                     (d' <? d) = false).
Proof.
  unfold hitTest. intros H.
  assert (H0 : firstInv nodes v cursor [] (None, 70)).
  { left. repeat split. intros m d []. }
  pose proof (hitLoop_firstInv nodes v cursor nodes [] (None, 70) H0) as Hinv.
  cbn [app] in Hinv.
  destruct (fold_left (hitStep nodes v cursor) nodes (None, 70))
    as [hit md].
  unfold firstInv in Hinv. cbn [fst snd] in *.
  destruct Hinv as [[E _]|[pre [n [post [E [Ei [Hn [H70 [Hpre Hpost]]]]]]]]].
  - congruence.
  - exists pre, n, post, md. repeat split; try assumption. congruence.
Qed.

Lemma hit_test_takes_first_of_nearest_witness :
  exists pre n post d,
    tiedNodes = pre ++ n :: post /\ GraphNode.id n = Some "first"
    /\ nodeDist tiedNodes sampleView (HandCursor.mk 0.5 0.5 false) n
       = Some d
    /\ (d <? 70) = true
    /\ (forall m d', In m pre ->
          nodeDist tiedNodes sampleView (HandCursor.mk 0.5 0.5 false) m
          = Some d' -> (d' <=? d) = false)
    /\ (forall m d', In m post ->
          nodeDist tiedNodes sampleView (HandCursor.mk 0.5 0.5 false) m
          = Some d' -> (d' <? d) = false).
Proof.
  apply (hit_test_takes_first_of_nearest tiedNodes sampleView
           (HandCursor.mk 0.5 0.5 false) (Some "first")).
  reflexivity.
Defined.

(** ** The hit-test effect *)

Lemma hover_eqb_refl (a : option Str) : hover_eqb a a = true.
Proof. destruct a as [[s|]|]; simpl; auto using String.eqb_refl. Qed.

(** X13. The hit-test effect settles in one run: the effect has its own hover
    among its dependencies, so setting it runs the effect again; run again
    on the hover it has just set, with the same cursor, nodes and view, it
    sets nothing and makes no call to [onNodeHover]. And without a cursor,
    without the svg or without nodes, the hover it leaves is one the code
    takes as not set. *)
Theorem hit_test_effect_settles
    (cursor : option HandCursor.t) (svgMounted : bool)
    (nodes : list GraphNode.t) (v : View) (activeHoverId : option Str) :
  hitTestEffectTwice cursor svgMounted nodes v activeHoverId
  = (fst (hitTestEffect cursor svgMounted nodes v activeHoverId), None)
  /\ (cursor = None \/ svgMounted = false \/ nodes = [] ->
      hoverSet (fst (hitTestEffect cursor svgMounted nodes v activeHoverId))
      = false).
Proof.
  unfold hitTestEffectTwice, hitTestEffect.
  destruct cursor as [c|].
  - destruct (negb svgMounted || (List.length nodes =? 0)%nat) eqn:Eoff.
    + destruct (hoverSet activeHoverId) eqn:E; cbn [fst hoverSet];
        rewrite ?E; split; auto.
    + split.
      * destruct (hover_eqb (hitTest nodes v c) activeHoverId) eqn:E;
          cbn [negb fst].
        -- now rewrite E.
        -- now rewrite hover_eqb_refl.
      * intros [H|[H|H]]; [discriminate| |]; subst; simpl in Eoff;
          try discriminate.
        now rewrite orb_true_r in Eoff.
  - destruct (hoverSet activeHoverId) eqn:E; cbn [fst hoverSet];
      rewrite ?E; split; auto.
Qed.

(** ** The layers *)

(** X14. In the layers mode the band and the colour of a node agree: a node that
    is neither the focus nor under the cursor is red and pulled to the top
    band when its importance is above 7, orange and pulled to the middle
    when it is above 4 and not above 7, pale and pulled to the bottom
    otherwise (a NaN importance included). The clamp of the importance to
    the range from 1 to 10, which the force applies and the colour does not,
    makes no difference. *)
Theorem layers_band_matches_colour
    (height : float) (focusedNodeId : Str) (activeHoverId : option Str)
    (d : GraphNode.t) :
  truthy focusedNodeId && str_eqb (GraphNode.id d) focusedNodeId = false ->
  hover_eqb activeHoverId (Some (GraphNode.id d)) = false ->
  (layersForceY height d,
   nodeFill VisMode.layers focusedNodeId activeHoverId d)
  = if 7 <? GraphNode.val d
    then ((- height) / 3 + 50, "rgba(239, 68, 68, 0.8)")
    else if 4 <? GraphNode.val d
    then (0, "rgba(255, 165, 0, 0.5)")
    else (height / 3 - 50, "rgba(255, 255, 255, 0.2)").
Proof.
  intros Hf Hh. unfold layersForceY, nodeFill. rewrite Hf, Hh. cbv zeta.
  rewrite (clamp_threshold 7 (GraphNode.val d)) by reflexivity.
  rewrite (clamp_threshold 4 (GraphNode.val d)) by reflexivity.
  destruct (7 <? GraphNode.val d); [reflexivity|].
  destruct (4 <? GraphNode.val d); reflexivity.
Qed.

Lemma layers_band_matches_colour_witness :
  (layersForceY 900 (GraphNode.mk (Some "big") (Some "Big") 19 None None),
   nodeFill VisMode.layers (Some "other") None
     (GraphNode.mk (Some "big") (Some "Big") 19 None None))
  = (-250, "rgba(239, 68, 68, 0.8)").
Proof.
  apply (layers_band_matches_colour 900 (Some "other") None
           (GraphNode.mk (Some "big") (Some "Big") 19 None None));
    reflexivity.
Defined.

(** ** Sizes *)

(** X24. Nothing is drawn with a negative or a vanishing size: whatever the
    mode, the focus, the hover and the importance of a node - zero and
    negative importances included - the radius of its circle is at least 8,
    and at least 30 for the node in focus; and the stroke of a link is at
    least 1 wide. The one exception is NaN, which [Math.max] returns when
    the importance or the strength is NaN. *)
Theorem sizes_have_a_floor
    (mode : VisMode.t) (focusedNodeId : Str) (activeHoverId : option Str)
    (d : GraphNode.t) (l : GraphLink.t) :
  atLeast 8 (nodeRadius mode focusedNodeId activeHoverId d)
  /\ (truthy focusedNodeId = true ->
      str_eqb (GraphNode.id d) focusedNodeId = true ->
      atLeast 30 (nodeRadius mode focusedNodeId activeHoverId d))
  /\ atLeast 1 (linkStrokeWidth l).
Proof.
  split; [|split].
  - unfold nodeRadius.
    destruct (truthy focusedNodeId).
    + destruct (str_eqb (GraphNode.id d) focusedNodeId).
      * apply (atLeast_weaken 30); [reflexivity | apply Math_max_atLeast].
      * apply (atLeast_weaken 10); [reflexivity | apply Math_max_atLeast].
    + destruct (hover_eqb activeHoverId (Some (GraphNode.id d))).
      * apply (atLeast_weaken 25); [reflexivity | apply Math_max_atLeast].
      * destruct mode.
        -- apply (atLeast_weaken 15); [reflexivity | apply Math_max_atLeast].
        -- right. reflexivity.
        -- apply (atLeast_weaken 15); [reflexivity | apply Math_max_atLeast].
        -- apply (atLeast_weaken 20); [reflexivity | apply Math_max_atLeast].
  - intros Hf Hd. unfold nodeRadius. rewrite Hf, Hd.
    apply Math_max_atLeast.
  - apply Math_max_atLeast.
Qed.

Lemma sizes_have_a_floor_witness :
  atLeast 30
    (nodeRadius VisMode.network (Some "tiny") None
       (GraphNode.mk (Some "tiny") (Some "Tiny") (-4) None None)).
Proof.
  apply (sizes_have_a_floor VisMode.network (Some "tiny") None
           (GraphNode.mk (Some "tiny") (Some "Tiny") (-4) None None)
           (GraphLink.mk (GraphLink.Id None) (GraphLink.Id None) 0));
    reflexivity.
Defined.

(** ** A focus on a node that has no position yet *)








End LayoutFacts.

(* ================================================================== *)
(** * The session state: transcript, zoom, history *)
(* ================================================================== *)

Module JsStringFacts.

Import JsString.

Lemma length_append (a b : string) :
  String.length (a ++ b) = (String.length a + String.length b)%nat.
Proof. induction a as [|c a IH]; simpl; [reflexivity | now rewrite IH]. Qed.

Lemma append_assoc (a b c : string) :
  ((a ++ b) ++ c = a ++ (b ++ c))%string.
Proof. induction a as [|x a IH]; simpl; [reflexivity | now rewrite IH]. Qed.

Lemma substring_whole (s : string) : substring 0 (String.length s) s = s.
Proof. induction s as [|c s IH]; simpl; [reflexivity | now rewrite IH]. Qed.

(** A string is what comes before a position and what comes from it on. *)
Lemma substring_split (s : string) (start : nat) :
  (start <= String.length s)%nat ->
  (substring 0 start s ++ substring start (String.length s - start) s)%string
  = s.
Proof.
  revert start. induction s as [|c s IH]; intros [|k] H; simpl in *;
    try reflexivity; try lia.
  - now rewrite substring_whole.
  - rewrite IH by lia. reflexivity.
Qed.

Lemma length_substring_tail (s : string) (start : nat) :
  (start <= String.length s)%nat ->
  String.length (substring start (String.length s - start) s)
  = (String.length s - start)%nat.
Proof.
  revert start. induction s as [|c s IH]; intros [|k] H; simpl in *;
    try reflexivity; try lia.
  - now rewrite substring_whole.
  - apply IH. lia.
Qed.

(** From a position inside the second of two strings on, their
    concatenation is the second string from that position on. *)
Lemma substring_tail_append (a b : string) (start : nat) :
  (String.length a <= start)%nat ->
  substring start (String.length (a ++ b) - start) (a ++ b)
  = substring (start - String.length a)
      (String.length b - (start - String.length a)) b.
Proof.
  revert start. induction a as [|c a IH]; intros start H; simpl in *.
  - now rewrite Nat.sub_0_r.
  - destruct start as [|k]; [lia|]. simpl. apply IH. lia.
Qed.

Lemma length_slice_last (n : nat) (s : string) :
  String.length (slice_last n s) = Nat.min n (String.length s).
Proof.
  unfold slice_last. rewrite length_substring_tail by lia. lia.
Qed.

Lemma slice_last_short (n : nat) (s : string) :
  (String.length s <= n)%nat -> slice_last n s = s.
Proof.
  intros H. unfold slice_last.
  replace (String.length s - n)%nat with 0%nat by lia.
  rewrite Nat.sub_0_r. apply substring_whole.
Qed.

Lemma slice_last_suffix (n : nat) (s : string) :
  exists dropped, s = (dropped ++ slice_last n s)%string.
Proof.
  exists (substring 0 (String.length s - n) s).
  unfold slice_last. symmetry. apply substring_split. lia.
Qed.

Lemma slice_last_append (n : nat) (a b : string) :
  (n <= String.length b)%nat ->
  slice_last n (a ++ b) = slice_last n b.
Proof.
  intros H. unfold slice_last.
  rewrite substring_tail_append by (rewrite length_append; lia).
  rewrite length_append.
  replace (String.length a + String.length b - n - String.length a)%nat
    with (String.length b - n)%nat by lia.
  reflexivity.
Qed.

End JsStringFacts.

Module AppFacts.

Import Js JsMath JsString GraphStore GraphStoreMore App.
Import FloatOrder GraphStoreFacts GraphStoreMoreFacts JsStringFacts.

(** ** The transcript *)

(** X15. The transcript is a window on what was heard: after an update it is the
    end of the old transcript, a space and the new text, never more than 250
    characters of it, and all of it when it has 250 characters or fewer. *)
Theorem transcript_is_the_last_250 (text : string) (st : State) :
  let combined := (transcript st ++ " " ++ text)%string in
  let shown := transcript (handleTranscriptUpdate text st) in
  (String.length shown <= 250)%nat
  /\ (exists dropped, combined = (dropped ++ shown)%string)
  /\ ((String.length combined <= 250)%nat -> shown = combined).
Proof.
  cbv zeta. unfold handleTranscriptUpdate. cbn [transcript].
  repeat split.
  - rewrite length_slice_last. lia.
  - apply slice_last_suffix.
  - apply slice_last_short.
Qed.

Lemma transcript_is_the_last_250_witness :
  transcript (handleTranscriptUpdate "and then" sampleState)
  = "so far and then".
Proof.
  apply (transcript_is_the_last_250 "and then" sampleState).
  vm_compute. lia.
Defined.

(** X16. A long text pushes the old transcript out: when the new text has 250
    characters or more, the transcript after the update is the last 250
    characters of the text, whatever the transcript was. *)
Theorem long_text_replaces_transcript (text : string) (st : State) :
  (250 <= String.length text)%nat ->
  transcript (handleTranscriptUpdate text st) = slice_last 250 text.
Proof.
  intros H. unfold handleTranscriptUpdate. cbn [transcript].
  rewrite <- append_assoc. now apply slice_last_append.
Qed.

Lemma long_text_replaces_transcript_witness :
  transcript (handleTranscriptUpdate longText sampleState)
  = slice_last 250 longText.
Proof.
  apply (long_text_replaces_transcript longText sampleState).
  vm_compute. lia.
Defined.

(** ** The zoom buttons *)

(** X17. The zoom buttons stop at their bounds: whatever the level, the level
    after the zoom-in button is at most 3 and the level after the zoom-out
    button is at least 0.2 - or it is NaN, which is what [Math.min] and
    [Math.max] return when the sum or the difference is NaN. *)
Theorem zoom_buttons_stop_at_bounds (z : float) :
  atMost 3 (zoomIn z) /\ atLeast 0.2 (zoomOut z).
Proof.
  unfold zoomIn, zoomOut. split.
  - unfold atMost. destruct (is_nan (Math_min 3 (z + 0.1))) eqn:E;
      [now left|].
    right. now apply Math_min_le.
  - unfold atLeast. destruct (is_nan (Math_max 0.2 (z - 0.1))) eqn:E;
      [now left|].
    right. now apply Math_max_ge.
Qed.

(** ** Saving, clearing and loading *)

Lemma map_id_eq {A : Type} (l : list A) : map (fun a => a) l = l.
Proof. induction l as [|a l IH]; simpl; [reflexivity | now rewrite IH]. Qed.

Lemma cleanGraph_ids (g : GraphData.t) :
  map GraphNode.id (GraphData.nodes (cleanGraph g))
  = map GraphNode.id (GraphData.nodes g).
Proof. unfold cleanGraph. cbn [GraphData.nodes]. now rewrite map_map. Qed.

Lemma cleanGraph_hasNode (i : Str) (g : GraphData.t) :
  hasNode i (cleanGraph g) = hasNode i g.
Proof.
  unfold hasNode, cleanGraph. cbn [GraphData.nodes].
  induction (GraphData.nodes g) as [|n ns IH]; simpl;
    [reflexivity | now rewrite IH].
Qed.

Lemma cleanGraph_noDangling (g : GraphData.t) :
  noDangling g -> noDangling (cleanGraph g).
Proof.
  intros H l Hin. unfold cleanGraph in Hin. cbn [GraphData.links] in Hin.
  apply in_map_iff in Hin as [l0 [<- Hin]].
  rewrite !cleanGraph_hasNode. simpl. now apply H.
Qed.

(** X18. What is stored is the graph without the state of the layout: the graph
    of a record that [saveSession] makes has no position and no node object
    at the end of a link, and it has the same node ids, labels and
    importances, the same link keys and strengths, in the same order, as the
    graph on the screen; cleaning it again changes nothing, and a graph
    whose links end at nodes is stored as one. *)
Theorem stored_graph_is_the_graph_without_layout (g : GraphData.t) :
  isClean (cleanGraph g)
  /\ map (fun n => (GraphNode.id n, GraphNode.label n, GraphNode.val n))
       (GraphData.nodes (cleanGraph g))
     = map (fun n => (GraphNode.id n, GraphNode.label n, GraphNode.val n))
         (GraphData.nodes g)
  /\ map (fun l => (keyOfLink l, GraphLink.value l))
       (GraphData.links (cleanGraph g))
     = map (fun l => (keyOfLink l, GraphLink.value l)) (GraphData.links g)
  /\ cleanGraph (cleanGraph g) = cleanGraph g
  /\ (noDangling g -> noDangling (cleanGraph g)).
Proof.
  split; [|split; [|split; [|split]]].
  - unfold cleanGraph, isClean. cbn [GraphData.nodes GraphData.links].
    split; apply Forall_forall.
    + intros n Hin. apply in_map_iff in Hin as [n0 [<- _]].
      split; reflexivity.
    + intros l Hin. apply in_map_iff in Hin as [l0 [<- _]]. simpl. eauto.
  - unfold cleanGraph. cbn [GraphData.nodes]. now rewrite map_map.
  - unfold cleanGraph. cbn [GraphData.links]. now rewrite map_map.
  - unfold cleanGraph. cbn [GraphData.nodes GraphData.links].
    now rewrite !map_map.
  - apply cleanGraph_noDangling.
Qed.

Lemma stored_graph_is_the_graph_without_layout_witness :
  noDangling (cleanGraph graphPlaced).
Proof.
  apply (stored_graph_is_the_graph_without_layout graphPlaced).
  intros l [<-|[]]. split; reflexivity.
Defined.

(** X19. Clearing twice saves once: after [clearGraph] there is nothing to save,
    so a second [clearGraph] - whatever id and time it would give a record -
    leaves the state, the history included, as the first one left it. *)
Theorem clearing_twice_saves_once
    (uuid uuid' : string) (now now' : Z) (st : State) :
  clearGraph uuid' now' (clearGraph uuid now st) = clearGraph uuid now st.
Proof.
  unfold clearGraph at 1. unfold saveSession at 1.
  unfold clearGraph at 1 2. cbn [graphData transcript history isHistoryOpen].
  cbn [GraphData.nodes GraphData.empty List.length Nat.eqb truthy
       String.eqb negb andb].
  reflexivity.
Qed.

(** X20. A session that is cleared can be loaded back: when there is something
    to save - a node or a transcript - [clearGraph] puts at the head of the
    history a record from which [loadSession] restores the transcript and
    the graph without the state of the layout, with no focus and the zoom
    at 1; the history is the one [clearGraph] left. *)
Theorem cleared_session_loads_back
    (uuid : string) (now : Z) (st : State) :
  GraphData.nodes (graphData st) <> [] \/ transcript st <> EmptyString ->
  exists item,
    history (clearGraph uuid now st) = item :: history st
    /\ SessionRecord.id item = uuid
    /\ loadSession item (clearGraph uuid now st)
       = mkState (cleanGraph (graphData st)) (transcript st) 1
           VisMode.network None (item :: history st) false.
Proof.
  intros H.
  assert (Hsave : (List.length (GraphData.nodes (graphData st)) =? 0)%nat
                  && negb (truthy (Some (transcript st))) = false).
  { apply andb_false_iff. destruct H as [H|H].
    - left. destruct (GraphData.nodes (graphData st)); [congruence|].
      reflexivity.
    - right. cbn [truthy]. rewrite negb_involutive.
      now apply String.eqb_neq. }
  unfold clearGraph, saveSession. rewrite Hsave. cbn [history isHistoryOpen].
  eexists. split; [reflexivity|]. split; [reflexivity|].
  unfold loadSession.
  cbn [SessionRecord.graphData SessionRecord.transcript visMode history].
  rewrite !map_id_eq. f_equal.
  cbn [truthy show].
  destruct (String.eqb_spec (transcript st) EmptyString) as [E|E];
    [now rewrite E | reflexivity].
Qed.

Lemma cleared_session_loads_back_witness :
  exists item,
    history (clearGraph "r1" 1700000000000 sampleState) = [item]
    /\ SessionRecord.id item = "r1"
    /\ loadSession item (clearGraph "r1" 1700000000000 sampleState)
       = mkState (cleanGraph graphPlaced) "so far" 1 VisMode.network None
           [item] false.
Proof.
  apply (cleared_session_loads_back "r1" 1700000000000 sampleState).
  left. discriminate.
Defined.

(** X21. Deleting undoes saving: when no record of the history has the id that
    [saveSession] gives its record, deleting the record of that id after the
    save gives back the state before the save - whether the save stored a
    record or had nothing to store. *)
Theorem deleting_undoes_saving (uuid : string) (now : Z) (st : State) :
  Forall (fun item => SessionRecord.id item <> uuid) (history st) ->
  deleteHistoryItem uuid (saveSession uuid now st) = st.
Proof.
  intros Hfresh.
  assert (Hkeep : filter (fun item =>
                            negb (String.eqb (SessionRecord.id item) uuid))
                    (history st) = history st).
  { induction Hfresh as [|item items Hitem _ IH]; [reflexivity|].
    cbn [filter]. apply String.eqb_neq in Hitem. rewrite Hitem.
    cbn [negb]. now rewrite IH. }
  unfold deleteHistoryItem, saveSession.
  destruct ((List.length (GraphData.nodes (graphData st)) =? 0)%nat
            && negb (truthy (Some (transcript st))));
    cbn [graphData transcript zoomLevel visMode focusedNodeId history
         isHistoryOpen filter SessionRecord.id];
    rewrite ?String.eqb_refl; cbn [negb]; rewrite Hkeep;
    now destruct st.
Qed.

Lemma deleting_undoes_saving_witness :
  deleteHistoryItem "r2" (saveSession "r2" 1700000000001
    (mkState graphPlaced "more" 1 VisMode.network None [sampleRecord] false))
  = mkState graphPlaced "more" 1 VisMode.network None [sampleRecord] false.
Proof.
  apply (deleting_undoes_saving "r2" 1700000000001
           (mkState graphPlaced "more" 1 VisMode.network None
              [sampleRecord] false)).
  repeat constructor. discriminate.
Defined.

(** ** The merge does not read the layout *)

Lemma nodesMapOf_clean (g : GraphData.t) :
  nodesMapOf (cleanGraph g)
  = map (fun e => (fst e, cleanNode (snd e))) (nodesMapOf g).
Proof.
  unfold nodesMapOf, cleanGraph. cbn [GraphData.nodes].
  rewrite <- (JsMapMore.of_entries_mapped str_eqb cleanNode).
  now rewrite !map_map.
Qed.

Lemma linksMapOf_clean (g : GraphData.t) :
  linksMapOf (cleanGraph g)
  = map (fun e => (fst e, cleanLink (snd e))) (linksMapOf g).
Proof.
  unfold linksMapOf, cleanGraph. cbn [GraphData.links].
  rewrite <- (JsMapMore.of_entries_mapped String.eqb cleanLink).
  now rewrite !map_map.
Qed.

Lemma conceptStep_clean (f : Str) (nm : NodesMap) (lm : LinksMap)
    (c : Concept.t) :
  conceptStep f
    (@pair NodesMap LinksMap
       (map (fun e => (fst e, cleanNode (snd e))) nm)
       (map (fun e => (fst e, cleanLink (snd e))) lm)) c
  = @pair NodesMap LinksMap
      (map (fun e => (fst e, cleanNode (snd e)))
         (fst (conceptStep f (nm, lm) c)))
      (map (fun e => (fst e, cleanLink (snd e)))
         (snd (conceptStep f (nm, lm) c))).
Proof.
  unfold conceptStep.
  rewrite (JsMapMore.get_mapped str_eqb cleanNode).
  rewrite !(JsMapMore.has_mapped String.eqb cleanLink).
  destruct (JsMap.get str_eqb (Concept.id c) nm) as [existing|];
    cbn [option_map].
  - cbn [fst snd].
    now rewrite <- (JsMapMore.set_mapped str_eqb cleanNode).
  - destruct (truthy f && negb (str_eqb f (Concept.id c)));
      [destruct (negb (JsMap.has String.eqb _ lm)
                 && negb (JsMap.has String.eqb _ lm))|];
      cbn [fst snd];
      rewrite <- ?(JsMapMore.set_mapped str_eqb cleanNode),
              <- ?(JsMapMore.set_mapped String.eqb cleanLink);
      reflexivity.
Qed.

Lemma conceptSteps_clean (f : Str) (cs : list Concept.t)
    (st : NodesMap * LinksMap) :
  fold_left (conceptStep f) cs
    (@pair NodesMap LinksMap
       (map (fun e => (fst e, cleanNode (snd e))) (fst st))
       (map (fun e => (fst e, cleanLink (snd e))) (snd st)))
  = @pair NodesMap LinksMap
      (map (fun e => (fst e, cleanNode (snd e)))
         (fst (fold_left (conceptStep f) cs st)))
      (map (fun e => (fst e, cleanLink (snd e)))
         (snd (fold_left (conceptStep f) cs st))).
Proof.
  revert st. induction cs as [|c cs IH]; intros [nm lm];
    cbn [fold_left]; [reflexivity|].
  cbn [fst snd]. rewrite conceptStep_clean. apply IH.
Qed.

Lemma relationshipStep_clean (nm : NodesMap) (lm : LinksMap)
    (r : Relationship.t) :
  relationshipStep (map (fun e => (fst e, cleanNode (snd e))) nm)
    (map (fun e => (fst e, cleanLink (snd e))) lm) r
  = map (fun e => (fst e, cleanLink (snd e))) (relationshipStep nm lm r).
Proof.
  unfold relationshipStep.
  rewrite !(JsMapMore.has_mapped str_eqb cleanNode).
  rewrite (JsMapMore.get_mapped String.eqb cleanLink).
  destruct (JsMap.has str_eqb _ nm && JsMap.has str_eqb _ nm);
    [|reflexivity].
  destruct (JsMap.get String.eqb _ lm) as [existing|]; cbn [option_map];
    now rewrite <- (JsMapMore.set_mapped String.eqb cleanLink).
Qed.

Lemma relationshipSteps_clean (nm : NodesMap) (rs : list Relationship.t)
    (lm : LinksMap) :
  fold_left (relationshipStep (map (fun e => (fst e, cleanNode (snd e))) nm))
    rs (map (fun e => (fst e, cleanLink (snd e))) lm)
  = map (fun e => (fst e, cleanLink (snd e)))
      (fold_left (relationshipStep nm) rs lm).
Proof.
  revert lm. induction rs as [|r rs IH]; intros lm; cbn [fold_left];
    [reflexivity|].
  rewrite relationshipStep_clean. apply IH.
Qed.

(** X22. The merge does not read the layout, so a stored graph is updated as the
    graph on the screen is: merging an update into the graph as
    [saveSession] stores it - without positions, with ids at the ends of its
    links - gives the graph that storing the merged graph gives, whatever
    the graph, the focus and the update. *)
Theorem merge_does_not_read_the_layout
    (g : GraphData.t) (f : Str) (u : Update.t) :
  applyUpdate (cleanGraph g) f u = cleanGraph (applyUpdate g f u).
Proof.
  unfold applyUpdate, GraphStore.handleGraphUpdate.
  rewrite nodesMapOf_clean, linksMapOf_clean.
  unfold cleanGraph. cbn [GraphData.nodes GraphData.links].
  rewrite <- !(JsMapMore.values_mapped cleanNode).
  rewrite <- !(JsMapMore.values_mapped cleanLink).
  destruct (Update.concepts u) as [cs|].
  - pose proof (conceptSteps_clean f cs (nodesMapOf g, linksMapOf g)) as H.
    cbn [fst snd] in H. rewrite H. cbn [fst snd].
    destruct (Update.relationships u) as [rs|]; [|reflexivity].
    now rewrite relationshipSteps_clean.
  - cbn [fst snd].
    destruct (Update.relationships u) as [rs|]; [|reflexivity].
    now rewrite relationshipSteps_clean.
Qed.

(** ** Every graph of a session is closed *)

(** A call keeps the nodes of the graph. *)
Lemma applyUpdate_hasNode (g : GraphData.t) (f : Str) (u : Update.t)
    (i : Str) :
  hasNode i g = true -> hasNode i (applyUpdate g f u) = true.
Proof.
  intros H. destruct (afterConcepts_ok g f u) as [Hk _].
  unfold applyUpdate, GraphStore.handleGraphUpdate.
  rewrite <- (keysOk_hasNode _ _ _ Hk).
  destruct (Update.concepts u) as [cs|].
  - apply conceptSteps_has_mono. cbn [fst]. now rewrite nodesMapOf_has.
  - cbn [fst]. now rewrite nodesMapOf_has.
Qed.

(** X23. No call of a session leaves a link without its nodes, on the screen or
    in the history: from a state whose graphs are closed - the links of the
    graph on the screen and of every record end at nodes of their graph, and
    the focus is a node of the graph on the screen - every run of updates of
    the graph and of the transcript, of entering a node of the graph on the
    screen and leaving it, of saving, clearing, deleting a record and
    loading a record of the history ends in such a state. *)
Theorem session_graphs_stay_closed (acts : list Action) (st : State) :
  closed st -> offeredAll st acts -> closed (fold_left step acts st).
Proof.
  revert st. induction acts as [|a acts IH]; intros st Hst Hacts;
    [assumption|].
  destruct Hacts as [Ha Hacts]. cbn [fold_left]. apply IH; [|assumption].
  clear IH Hacts. destruct Hst as [Hg [Hf Hh]].
  destruct a as [u|text|i| |uuid now|uuid now|id|item];
    unfold closed, step; cbn [offered] in Ha.
  - (* the graph is updated *)
    unfold App.handleGraphUpdate. cbn [graphData focusedNodeId history].
    split; [|split]; [now apply applyUpdate_noDangling| |assumption].
    unfold focusOk in *. destruct (truthy (focusedNodeId st));
      [now apply applyUpdate_hasNode | reflexivity].
  - (* the transcript is updated *)
    unfold handleTranscriptUpdate. cbn [graphData focusedNodeId history].
    auto.
  - (* a node is entered *)
    unfold enterNode. cbn [graphData focusedNodeId history].
    split; [|split]; [assumption| |assumption].
    unfold focusOk. rewrite Ha. now destruct (truthy i).
  - (* the node is left *)
    unfold exitNode. cbn [graphData focusedNodeId history]. auto.
  - (* the session is saved *)
    unfold saveSession. destruct (_ && _); [auto|].
    cbn [graphData focusedNodeId history].
    split; [|split]; [assumption|assumption|].
    constructor; [|assumption].
    cbn [SessionRecord.graphData]. now apply cleanGraph_noDangling.
  - (* the graph is cleared *)
    unfold clearGraph, saveSession. destruct (_ && _);
      cbn [graphData focusedNodeId history];
      (split; [|split]; [apply noDangling_empty|reflexivity|]);
      [assumption|].
    constructor; [|assumption].
    cbn [SessionRecord.graphData]. now apply cleanGraph_noDangling.
  - (* a record is deleted *)
    unfold deleteHistoryItem. cbn [graphData focusedNodeId history].
    split; [|split]; [assumption|assumption|].
    apply Forall_forall. intros item Hin. apply filter_In in Hin as [Hin _].
    rewrite Forall_forall in Hh. now apply Hh.
  - (* a record is loaded *)
    unfold loadSession. cbn [graphData focusedNodeId history].
    rewrite !map_id_eq.
    split; [|split]; [|reflexivity|assumption].
    rewrite Forall_forall in Hh. specialize (Hh item Ha).
    now destruct (SessionRecord.graphData item).
Qed.

Lemma session_graphs_stay_closed_witness :
  closed (fold_left step sampleSession initial).
Proof.
  apply (session_graphs_stay_closed sampleSession initial).
  - split; [apply noDangling_empty|].
    split; [reflexivity | constructor].
  - cbn [sampleSession offeredAll offered]. repeat split.
Defined.

End AppFacts.
